(** * The transition-event accumulator of [wemdtools.aframe.transacc]

    A shallow embedding of the class [TransitionEventAccumulator]
    (src/wemdtools/aframe/transacc.py) and the properties of its
    crossing/completion detection, buffering and state snapshots.

    Conventions of the embedding:

    - numpy arrays of dtype [uintp]/[uint64] are lists of [Z]; arithmetic
      performed in that dtype is reduced with [wrap64];
    - [float64] weights are kernel floats; the code only copies them;
    - the five tracking arrays ([last_exit], [last_entry],
      [last_completion], [weight_last_exit], [bin_pops_last_exit]) are
      mutated in place and handed around by reference ([get_state],
      [set_state]), so they live in an object store and the accumulator and
      the snapshots hold locations;
    - Python exceptions are values of [exn]; a call that raises keeps every
      mutation done before the raise. *)

From Stdlib Require Import ZArith Lia.
From Stdlib Require Import PrimFloat.
From stdpp Require Import base list sorting.

Local Open Scope Z_scope.

(** ** Scalars *)

Definition weight := float.

(** [index_dtype = count_dtype = uint64] (64-bit platform). *)
Definition wrap64 (z : Z) : Z := z mod 2 ^ 64.

(** ** The transition record ([tdat_dtype]) *)

Record tdat_row := Tdat {
  td_block : Z;
  td_timepoint : Z;
  td_initial_bin : nat;
  td_final_bin : nat;
  td_initial_weight : weight;
  td_final_weight : weight;
  td_initial_bin_pop : weight;
  td_duration : Z;
  td_fpt : Z
}.

(** A tuple that the record type holds as it is.  The integer fields of
    [tdat_dtype] (lines 29-38) are unsigned: [block], [timepoint],
    [duration] and [fpt] have [index_dtype] (64 bits); the two bins have
    [bin_index_dtype = numpy.min_scalar_type(n_bins)], a type that holds
    [n_bins] and with it every bin up to [n_bins]; the weights are
    [float64].  Storing a list of tuples in the buffer or in the dataset
    (lines 126 and 129) converts each tuple to this type, which leaves the
    tuples described here unchanged. *)
Definition fits_tdat_dtype (nbins : nat) (r : tdat_row) : Prop :=
  0 <= td_block r < 2 ^ 64 ∧ 0 <= td_timepoint r < 2 ^ 64 ∧
  (td_initial_bin r <= nbins)%nat ∧ (td_final_bin r <= nbins)%nat ∧
  0 <= td_duration r < 2 ^ 64 ∧ 0 <= td_fpt r < 2 ^ 64.

(** ** The object store

    One component per array type; a location is an index into its
    component, and allocation appends. *)

Definition loc := nat.

Record heap := Heap {
  idx1 : list (list Z);          (* 1-d uintp arrays *)
  idx2 : list (list (list Z));   (* 2-d uintp arrays, row major *)
  wts : list (list weight)       (* 1-d float64 arrays *)
}.

Definition empty_heap : heap := Heap [] [] [].

Definition read1 (h : heap) (l : loc) : list Z := default [] (idx1 h !! l).
Definition read2 (h : heap) (l : loc) : list (list Z) := default [] (idx2 h !! l).
Definition readw (h : heap) (l : loc) : list weight := default [] (wts h !! l).

Definition write1 (l : loc) (a : list Z) (h : heap) : heap :=
  Heap (<[l := a]> (idx1 h)) (idx2 h) (wts h).
Definition write2 (l : loc) (a : list (list Z)) (h : heap) : heap :=
  Heap (idx1 h) (<[l := a]> (idx2 h)) (wts h).
Definition writew (l : loc) (a : list weight) (h : heap) : heap :=
  Heap (idx1 h) (idx2 h) (<[l := a]> (wts h)).

Definition alloc1 (a : list Z) (h : heap) : loc * heap :=
  (length (idx1 h), Heap (idx1 h ++ [a]) (idx2 h) (wts h)).
Definition alloc2 (a : list (list Z)) (h : heap) : loc * heap :=
  (length (idx2 h), Heap (idx1 h) (idx2 h ++ [a]) (wts h)).
Definition allocw (a : list weight) (h : heap) : loc * heap :=
  (length (wts h), Heap (idx1 h) (idx2 h) (wts h ++ [a])).

(** ** The output dataset

    [output_tdat_ds] is a resizable one-dimensional dataset; an entry that
    was never written holds the fill value, [None]. *)

Definition dataset := list (option tdat_row).

Definition ds_resize (n : nat) (ds : dataset) : dataset :=
  take n ds ++ replicate (n - length ds) None.

(** [ds[lo:lo+len(rows)] = rows] *)
Definition ds_write (lo : nat) (rows : list tdat_row) (ds : dataset) : dataset :=
  take lo ds ++ (Some <$> rows) ++ drop (lo + length rows) ds.

(** ** The accumulator object *)

Record accumulator := Accumulator {
  calc_fpts : bool;
  n_bins : nat;
  tdat_buffersize : Z;
  (* the occupied prefix [tdat_buffer[:tdat_buffer_offset]] of the write
     buffer; [tdat_buffer_offset] is its length *)
  tdat_buffer : list tdat_row;
  output_tdat_offset : nat;
  output_tdat_ds : option dataset;
  n_trans : list (list Z);
  last_exit : loc;
  last_entry : loc;
  last_completion : loc;
  weight_last_exit : loc;
  bin_pops_last_exit : loc;
  timepoint : Z;
  last_bin : option nat;
  last_bin_pop : option weight
}.

Definition tdat_buffer_offset (a : accumulator) : nat := length (tdat_buffer a).

(** The dictionary built by [get_state]. *)
Record state_dict := StateDict {
  sd_last_entry : loc;
  sd_last_exit : loc;
  sd_last_completion : loc;
  sd_weight_last_exit : loc;
  sd_bin_pops_last_exit : loc;
  sd_timepoint : Z;
  sd_last_bin : option nat;
  sd_last_bin_pop : option weight
}.

(** ** Program states and the exception monad *)

Record world := World {
  hp : heap;
  self : accumulator;
  (* history of [tdat.append] calls, in order; never read by the code *)
  emitted : list tdat_row
}.

Inductive exn := IndexError | TypeError | AttributeError.

Inductive result (A : Type) :=
| Ok (a : A)
| Raise (e : exn).
Arguments Ok {A} a.
Arguments Raise {A} e.

Definition M (A : Type) : Type := world -> result A * world.

Definition ret {A} (a : A) : M A := fun w => (Ok a, w).
Definition raise {A} (e : exn) : M A := fun w => (Raise e, w).
Definition bind {A B} (m : M A) (k : A -> M B) : M B :=
  fun w => match m w with
           | (Ok a, w') => k a w'
           | (Raise e, w') => (Raise e, w')
           end.

Declare Scope acc_scope.
Delimit Scope acc_scope with acc.
Notation "x <- m ;; k" := (bind m (fun x => k))
  (at level 100, m at next level, right associativity) : acc_scope.
Notation "m ;;; k" := (bind m (fun _ => k))
  (at level 100, right associativity) : acc_scope.
Local Open Scope acc_scope.

Definition get_self : M accumulator := fun w => (Ok (self w), w).
Definition get_heap : M heap := fun w => (Ok (hp w), w).
Definition put_self (a : accumulator) : M unit :=
  fun w => (Ok tt, World (hp w) a (emitted w)).
Definition put_heap (h : heap) : M unit :=
  fun w => (Ok tt, World h (self w) (emitted w)).
Definition modify_self (f : accumulator -> accumulator) : M unit :=
  fun w => (Ok tt, World (hp w) (f (self w)) (emitted w)).
Definition modify_heap (f : heap -> heap) : M unit :=
  fun w => (Ok tt, World (f (hp w)) (self w) (emitted w)).
Definition log_extend (rows : list tdat_row) : M unit :=
  fun w => (Ok tt, World (hp w) (self w) (emitted w ++ rows)).

(** Attribute assignments [self.x = v]. *)
Definition set_tdat_buffer (v : list tdat_row) (a : accumulator) : accumulator :=
  Accumulator (calc_fpts a) (n_bins a) (tdat_buffersize a) v
    (output_tdat_offset a) (output_tdat_ds a) (n_trans a) (last_exit a)
    (last_entry a) (last_completion a) (weight_last_exit a)
    (bin_pops_last_exit a) (timepoint a) (last_bin a) (last_bin_pop a).
Definition set_output_tdat_offset (v : nat) (a : accumulator) : accumulator :=
  Accumulator (calc_fpts a) (n_bins a) (tdat_buffersize a) (tdat_buffer a)
    v (output_tdat_ds a) (n_trans a) (last_exit a)
    (last_entry a) (last_completion a) (weight_last_exit a)
    (bin_pops_last_exit a) (timepoint a) (last_bin a) (last_bin_pop a).
Definition set_output_tdat_ds (v : option dataset) (a : accumulator) : accumulator :=
  Accumulator (calc_fpts a) (n_bins a) (tdat_buffersize a) (tdat_buffer a)
    (output_tdat_offset a) v (n_trans a) (last_exit a)
    (last_entry a) (last_completion a) (weight_last_exit a)
    (bin_pops_last_exit a) (timepoint a) (last_bin a) (last_bin_pop a).
Definition set_n_trans (v : list (list Z)) (a : accumulator) : accumulator :=
  Accumulator (calc_fpts a) (n_bins a) (tdat_buffersize a) (tdat_buffer a)
    (output_tdat_offset a) (output_tdat_ds a) v (last_exit a)
    (last_entry a) (last_completion a) (weight_last_exit a)
    (bin_pops_last_exit a) (timepoint a) (last_bin a) (last_bin_pop a).
Definition set_last_exit (v : loc) (a : accumulator) : accumulator :=
  Accumulator (calc_fpts a) (n_bins a) (tdat_buffersize a) (tdat_buffer a)
    (output_tdat_offset a) (output_tdat_ds a) (n_trans a) v
    (last_entry a) (last_completion a) (weight_last_exit a)
    (bin_pops_last_exit a) (timepoint a) (last_bin a) (last_bin_pop a).
Definition set_last_entry (v : loc) (a : accumulator) : accumulator :=
  Accumulator (calc_fpts a) (n_bins a) (tdat_buffersize a) (tdat_buffer a)
    (output_tdat_offset a) (output_tdat_ds a) (n_trans a) (last_exit a)
    v (last_completion a) (weight_last_exit a)
    (bin_pops_last_exit a) (timepoint a) (last_bin a) (last_bin_pop a).
Definition set_last_completion (v : loc) (a : accumulator) : accumulator :=
  Accumulator (calc_fpts a) (n_bins a) (tdat_buffersize a) (tdat_buffer a)
    (output_tdat_offset a) (output_tdat_ds a) (n_trans a) (last_exit a)
    (last_entry a) v (weight_last_exit a)
    (bin_pops_last_exit a) (timepoint a) (last_bin a) (last_bin_pop a).
Definition set_weight_last_exit (v : loc) (a : accumulator) : accumulator :=
  Accumulator (calc_fpts a) (n_bins a) (tdat_buffersize a) (tdat_buffer a)
    (output_tdat_offset a) (output_tdat_ds a) (n_trans a) (last_exit a)
    (last_entry a) (last_completion a) v
    (bin_pops_last_exit a) (timepoint a) (last_bin a) (last_bin_pop a).
Definition set_bin_pops_last_exit (v : loc) (a : accumulator) : accumulator :=
  Accumulator (calc_fpts a) (n_bins a) (tdat_buffersize a) (tdat_buffer a)
    (output_tdat_offset a) (output_tdat_ds a) (n_trans a) (last_exit a)
    (last_entry a) (last_completion a) (weight_last_exit a)
    v (timepoint a) (last_bin a) (last_bin_pop a).
Definition set_timepoint (v : Z) (a : accumulator) : accumulator :=
  Accumulator (calc_fpts a) (n_bins a) (tdat_buffersize a) (tdat_buffer a)
    (output_tdat_offset a) (output_tdat_ds a) (n_trans a) (last_exit a)
    (last_entry a) (last_completion a) (weight_last_exit a)
    (bin_pops_last_exit a) v (last_bin a) (last_bin_pop a).
Definition set_last_bin (v : option nat) (a : accumulator) : accumulator :=
  Accumulator (calc_fpts a) (n_bins a) (tdat_buffersize a) (tdat_buffer a)
    (output_tdat_offset a) (output_tdat_ds a) (n_trans a) (last_exit a)
    (last_entry a) (last_completion a) (weight_last_exit a)
    (bin_pops_last_exit a) (timepoint a) v (last_bin_pop a).
Definition set_last_bin_pop (v : option weight) (a : accumulator) : accumulator :=
  Accumulator (calc_fpts a) (n_bins a) (tdat_buffersize a) (tdat_buffer a)
    (output_tdat_offset a) (output_tdat_ds a) (n_trans a) (last_exit a)
    (last_entry a) (last_completion a) (weight_last_exit a)
    (bin_pops_last_exit a) (timepoint a) (last_bin a) v.

(** ** Array primitives *)

#[global] Instance weight_inhabited : Inhabited weight := populate 0%float.

(** [numpy.zeros((n,))], [numpy.zeros((n,n))] *)
Definition zeros1 (n : nat) : list Z := replicate n 0.
Definition zeros2 (n : nat) : list (list Z) := replicate n (replicate n 0).
Definition zerosw (n : nat) : list weight := replicate n 0%float.

(** Allocation of a fresh array object. *)
Definition new1 (a : list Z) : M loc :=
  fun w => let '(l, h) := alloc1 a (hp w) in (Ok l, World h (self w) (emitted w)).
Definition new2 (a : list (list Z)) : M loc :=
  fun w => let '(l, h) := alloc2 a (hp w) in (Ok l, World h (self w) (emitted w)).
Definition neww (a : list weight) : M loc :=
  fun w => let '(l, h) := allocw a (hp w) in (Ok l, World h (self w) (emitted w)).

(** [xs[i]] for an integer index taken from the input data. *)
Definition getitem {A} (xs : list A) (i : nat) : M A :=
  match xs !! i with
  | Some x => ret x
  | None => raise IndexError
  end.

(** [arr[i] = v], in place, on the array object at [l]. *)
Definition setitem1 (l : loc) (i : nat) (v : Z) : M unit :=
  h <- get_heap ;;
  let a := read1 h l in
  if bool_decide (i < length a)%nat
  then put_heap (write1 l (<[i := v]> a) h)
  else raise IndexError.
Definition setitemw (l : loc) (i : nat) (v : weight) : M unit :=
  h <- get_heap ;;
  let a := readw h l in
  if bool_decide (i < length a)%nat
  then put_heap (writew l (<[i := v]> a) h)
  else raise IndexError.

(** [xs[mask]] for a boolean mask: the entries where the mask is true;
    numpy refuses a mask whose length differs from the array's. *)
Fixpoint compress {A} (mask : list bool) (xs : list A) : list A :=
  match mask, xs with
  | b :: m, x :: r => if b then x :: compress m r else compress m r
  | _, _ => []
  end.

Definition bool_index {A} (xs : list A) (mask : list bool) : M (list A) :=
  if bool_decide (length xs = length mask)
  then ret (compress mask xs)
  else raise IndexError.

(** [m[:,j]], a column of a 2-d array. *)
Definition column (j : nat) (m : list (list Z)) : M (list Z) :=
  match mapM (fun row : list Z => row !! j) m with
  | Some c => ret c
  | None => raise IndexError
  end.

(** [xs[1:]] and [xs[:-1]] *)
Definition from_1 {A} (xs : list A) : list A := drop 1 xs.
Definition to_1 {A} (xs : list A) : list A := take (length xs - 1) xs.

(** [numpy.arange(lo, lo + n)] *)
Definition arange (lo : Z) (n : nat) : list Z :=
  (fun k : nat => lo + Z.of_nat k) <$> seq 0 n.

(** [xs[-1]] *)
Definition getlast {A} (xs : list A) : M A :=
  match last xs with
  | Some x => ret x
  | None => raise IndexError
  end.

(** ** [clear_state], [clear], [__init__] *)

Definition clear_state : M unit :=
  a <- get_self ;;
  l <- new1 (zeros1 (n_bins a)) ;; modify_self (set_last_exit l) ;;;
  l <- new1 (zeros1 (n_bins a)) ;; modify_self (set_last_entry l) ;;;
  l <- new2 (zeros2 (n_bins a)) ;; modify_self (set_last_completion l) ;;;
  l <- neww (zerosw (n_bins a)) ;; modify_self (set_weight_last_exit l) ;;;
  l <- neww (zerosw (n_bins a)) ;; modify_self (set_bin_pops_last_exit l) ;;;
  modify_self (set_timepoint 0) ;;;
  modify_self (set_last_bin None) ;;;
  modify_self (set_last_bin_pop None).

Definition clear : M unit :=
  clear_state ;;;
  a <- get_self ;;
  modify_self (set_n_trans (zeros2 (n_bins a))) ;;;
  modify_self (set_tdat_buffer []) ;;;
  modify_self (set_output_tdat_offset 0) ;;;
  modify_self (set_output_tdat_ds None).

(** The attributes as [__init__] leaves them before it calls [clear()];
    those that are [None] there are overwritten by [clear()] before any
    use.  [tdat_buffersize] is the class attribute (524288 in the source),
    taken as a parameter. *)
Definition blank (nbins : nat) (fpts : bool) (buffersize : Z) : accumulator :=
  Accumulator fpts nbins buffersize [] 0 None [] 0%nat 0%nat 0%nat 0%nat 0%nat
    0 None None.

Definition init (nbins : nat) (fpts : bool) (buffersize : Z) : world :=
  snd (clear (World empty_heap (blank nbins fpts buffersize) [])).

(** ** [get_state], [set_state] *)

(** [arr.copy()] *)
Definition copy1 (l : loc) : M loc := h <- get_heap ;; new1 (read1 h l).
Definition copy2 (l : loc) : M loc := h <- get_heap ;; new2 (read2 h l).
Definition copyw (l : loc) : M loc := h <- get_heap ;; neww (readw h l).

Definition get_state : M state_dict :=
  a <- get_self ;;
  len <- copy1 (last_entry a) ;;
  lex <- copy1 (last_exit a) ;;
  lc <- copy2 (last_completion a) ;;
  wle <- copyw (weight_last_exit a) ;;
  bple <- copyw (bin_pops_last_exit a) ;;
  ret (StateDict len lex lc wle bple (timepoint a) (last_bin a) (last_bin_pop a)).

Definition set_state (sd : state_dict) : M unit :=
  modify_self (set_last_entry (sd_last_entry sd)) ;;;
  modify_self (set_last_exit (sd_last_exit sd)) ;;;
  modify_self (set_last_completion (sd_last_completion sd)) ;;;
  modify_self (set_weight_last_exit (sd_weight_last_exit sd)) ;;;
  modify_self (set_bin_pops_last_exit (sd_bin_pops_last_exit sd)) ;;;
  modify_self (set_timepoint (sd_timepoint sd)) ;;;
  modify_self (set_last_bin (sd_last_bin sd)) ;;;
  modify_self (set_last_bin_pop (sd_last_bin_pop sd)).

(** ** Buffered output *)

Definition flush_transition_data : M unit :=
  a <- get_self ;;
  match output_tdat_ds a with
  | None => ret tt
  | Some ds =>
    let nbuf := tdat_buffer_offset a in
    if bool_decide (nbuf = 0%nat) then ret tt
    else
      let ub := (nbuf + output_tdat_offset a)%nat in
      let ds1 := if bool_decide (length ds < ub)%nat then ds_resize ub ds else ds in
      let ds2 := ds_write (output_tdat_offset a) (tdat_buffer a) ds1 in
      modify_self (set_output_tdat_ds (Some ds2)) ;;;
      modify_self (set_output_tdat_offset (output_tdat_offset a + nbuf)) ;;;
      modify_self (set_tdat_buffer [])
  end.

(** The tuples handed over are stored as they are: this is the conversion
    to [tdat_dtype] of lines 126 and 129 on tuples that [fits_tdat_dtype]
    holds of; the conversion of a tuple outside the range of the record
    type is not part of the model. *)
Definition record_transition_data (tdat : list tdat_row) : M unit :=
  a <- get_self ;;
  (match output_tdat_ds a with
   | None => modify_self (set_output_tdat_ds (Some [None]))
   | Some _ => ret tt
   end) ;;;
  a <- get_self ;;
  if bool_decide (tdat_buffersize a < Z.of_nat (length tdat + tdat_buffer_offset a))
  then
    flush_transition_data ;;;
    a <- get_self ;;
    match output_tdat_ds a with
    | None => raise AttributeError
    | Some ds =>
      let ub := (output_tdat_offset a + length tdat)%nat in
      modify_self (set_output_tdat_ds
                     (Some (ds_write (output_tdat_offset a) tdat (ds_resize ub ds)))) ;;;
      modify_self (set_output_tdat_offset (output_tdat_offset a + length tdat))
    end
  else
    modify_self (set_tdat_buffer (tdat_buffer a ++ tdat)).

(** ** Crossing and completion detection ([_accumulate_transitions]) *)

(** One tuple of the [izip] over the crossing events. *)
Record crossing := Crossing {
  c_ti : Z;                    (* trans_ti *)
  c_weight : weight;           (* arrival weight *)
  c_ibin : nat;
  c_fbin : nat;
  c_ibinpops : list weight     (* the bin populations at the departure *)
}.

Fixpoint izip (tis : list Z) (ws : list weight) (ibs fbs : list nat)
    (pss : list (list weight)) : list crossing :=
  match tis, ws, ibs, fbs, pss with
  | ti :: tis, w :: ws, ib :: ibs, fb :: fbs, ps :: pss =>
      Crossing ti w ib fb ps :: izip tis ws ibs fbs pss
  | _, _, _, _, _ => []
  end.

(** The vectorised expressions of the loop body.  All operands have shape
    [(n_bins,)]. *)

(** [iibdisc[:] = last_exit > 0; iibdisc &= last_entry > last_completion[:,fbin]] *)
Definition iibdisc_of (lex len col : list Z) : list bool :=
  zip_with andb ((fun e => 0 <? e) <$> lex)
                (zip_with (fun e c => c <? e) len col).

(** [-last_exit + trans_ti + 1], in [uint64] *)
Definition durations_of (lex : list Z) (ti : Z) : list Z :=
  (fun e => wrap64 (wrap64 (wrap64 (- e) + ti) + 1)) <$> lex.

(** [fpts = -last_completion[:,fbin] + trans_ti;
     fpts[last_completion[:,fbin]==0] = 0] *)
Definition fpts_of (col : list Z) (ti : Z) : list Z :=
  (fun c => if c =? 0 then 0 else wrap64 (wrap64 (- c) + ti)) <$> col.

(** [m[mask, j] = v] and [m[mask, j] += 1] *)
Definition set_masked (mask : list bool) (j : nat) (v : Z)
    (m : list (list Z)) : list (list Z) :=
  zip_with (fun (b : bool) row => if b then <[j := v]> row else row) mask m.
Definition incr_masked (mask : list bool) (j : nat)
    (m : list (list Z)) : list (list Z) :=
  zip_with (fun (b : bool) row =>
              if b then alter (fun n => wrap64 (n + 1)) j row else row) mask m.

(** Lines 199-202: record this crossing event's data. *)
Definition record_crossing (a0 : accumulator) (c : crossing) : M unit :=
  v <- getitem (c_ibinpops c) (c_ibin c) ;;
  setitemw (bin_pops_last_exit a0) (c_ibin c) v ;;;
  setitem1 (last_exit a0) (c_ibin c) (c_ti c) ;;;
  setitem1 (last_entry a0) (c_fbin c) (c_ti c) ;;;
  setitemw (weight_last_exit a0) (c_ibin c) (c_weight c).

(** The tuple appended for [iibin]. *)
Definition tdat_tuple (a0 : accumulator) (block : Z) (c : crossing)
    (wle bple : list weight) (durations fpts : list Z) (iibin : nat) : tdat_row :=
  Tdat block (c_ti c) iibin (c_fbin c) (wle !!! iibin) (c_weight c)
       (bple !!! iibin) (durations !!! iibin)
       (if calc_fpts a0 then fpts !!! iibin else 0).

(** Lines 205-224: the transitions this crossing event completes. *)
Definition complete_transitions (a0 : accumulator) (block : Z) (c : crossing)
    (tdat : list tdat_row) : M (list tdat_row) :=
  h <- get_heap ;;
  let lex := read1 h (last_exit a0) in
  let len := read1 h (last_entry a0) in
  col <- column (c_fbin c) (read2 h (last_completion a0)) ;;
  let iibdisc := iibdisc_of lex len col in
  let durations := durations_of lex (c_ti c) in
  let fpts := fpts_of col (c_ti c) in
  let rows :=
    tdat_tuple a0 block c (readw h (weight_last_exit a0))
      (readw h (bin_pops_last_exit a0)) durations fpts
      <$> compress iibdisc (seq 0 (n_bins a0)) in
  log_extend rows ;;;
  modify_heap (fun h => write2 (last_completion a0)
     (set_masked iibdisc (c_fbin c) (c_ti c) (read2 h (last_completion a0))) h) ;;;
  modify_self (fun a => set_n_trans (incr_masked iibdisc (c_fbin c) (n_trans a)) a) ;;;
  ret (tdat ++ rows).

(** One iteration of the loop; [tdat_maxlen = tdat_buffersize / 10] is a
    true division, so [len(tdat) > tdat_maxlen] is
    [10 * len(tdat) > tdat_buffersize]. *)
Definition crossing_event (a0 : accumulator) (block : Z) (c : crossing)
    (tdat : list tdat_row) : M (list tdat_row) :=
  record_crossing a0 c ;;;
  tdat <- complete_transitions a0 block c tdat ;;
  (if bool_decide (tdat_buffersize a0 < 10 * Z.of_nat (length tdat))
   then record_transition_data tdat
   else ret tt) ;;;
  ret tdat.

Fixpoint for_crossings (a0 : accumulator) (block : Z) (cs : list crossing)
    (tdat : list tdat_row) : M (list tdat_row) :=
  match cs with
  | [] => ret tdat
  | c :: cs =>
      tdat <- crossing_event a0 block c tdat ;;
      for_crossings a0 block cs tdat
  end.

Definition _accumulate_transitions (timepoints : list Z) (assignments : list nat)
    (weights : list weight) (bin_pops : list (list weight)) (block : Z) : M unit :=
  let assignments_from_1 := from_1 assignments in
  let assignments_to_1 := to_1 assignments in
  let trans_occur :=
    zip_with (fun x y : nat => negb (x =? y)%nat) assignments_from_1 assignments_to_1 in
  trans_ibin <- bool_index assignments_to_1 trans_occur ;;
  trans_fbin <- bool_index assignments_from_1 trans_occur ;;
  trans_timepoints <- bool_index (from_1 timepoints) trans_occur ;;
  trans_weights <- bool_index (from_1 weights) trans_occur ;;
  trans_ibinpops <- bool_index (to_1 bin_pops) trans_occur ;;
  a0 <- get_self ;;
  tdat <- for_crossings a0 block
            (izip trans_timepoints trans_weights trans_ibin trans_fbin trans_ibinpops)
            [] ;;
  record_transition_data tdat ;;;
  tp <- getlast timepoints ;;
  modify_self (set_timepoint tp) ;;;
  lb <- getlast assignments ;;
  modify_self (set_last_bin (Some lb)) ;;;
  lastpops <- getlast bin_pops ;;
  lbp <- getitem lastpops lb ;;
  modify_self (set_last_bin_pop (Some lbp)).

Definition start_accumulation (assignments : list nat) (weights : list weight)
    (bin_pops : list (list weight)) (block : Z) : M unit :=
  clear_state ;;;
  _accumulate_transitions (arange 0 (length assignments))
    assignments weights bin_pops block.

Definition continue_accumulation (assignments : list nat) (weights : list weight)
    (bin_pops : list (list weight)) (block : Z) : M unit :=
  a <- get_self ;;
  (* aug_assign[0] = self.last_bin : None cannot be stored in an integer array *)
  lb <- match last_bin a with Some b => ret b | None => raise TypeError end ;;
  let aug_assign := lb :: assignments in
  let aug_weights := 0%float :: weights in
  (* len(bin_pops[0]) *)
  row0 <- getitem bin_pops 0 ;;
  let row := zerosw (length row0) in
  (* aug_pops[0, self.last_bin] = self.last_bin_pop; None is stored as nan *)
  (if bool_decide (lb < length row)%nat then ret tt else raise IndexError) ;;;
  let aug_pops := <[lb := default nan (last_bin_pop a)]> row :: bin_pops in
  let timepoints := arange (timepoint a) (length aug_assign) in
  _accumulate_transitions timepoints aug_assign aug_weights aug_pops block.

(** * Properties *)

(** ** Arithmetic in [uint64] *)

Lemma wrap64_small z : 0 <= z < 2 ^ 64 -> wrap64 z = z.
Proof. intros H. unfold wrap64. apply Z.mod_small. exact H. Qed.

Lemma duration_wrap e ti :
  wrap64 (wrap64 (wrap64 (- e) + ti) + 1) = wrap64 (ti - e + 1).
Proof.
  unfold wrap64.
  rewrite Zplus_mod_idemp_l, <- Z.add_assoc, Zplus_mod_idemp_l.
  f_equal. lia.
Qed.

Lemma fpt_wrap c ti : wrap64 (wrap64 (- c) + ti) = wrap64 (ti - c).
Proof. unfold wrap64. rewrite Zplus_mod_idemp_l. f_equal. lia. Qed.

Lemma wrap64_succ z : wrap64 (wrap64 z + 1) = wrap64 (z + 1).
Proof. unfold wrap64. apply Zplus_mod_idemp_l. Qed.

(** ** The object store *)

(** Shapes: every tracking array has shape [(n_bins,)] or [(n_bins, n_bins)]. *)

Definition shaped1 (n : nat) (h : heap) (l : loc) : Prop :=
  length <$> idx1 h !! l = Some n.
Definition shaped2 (n : nat) (h : heap) (l : loc) : Prop :=
  (fun m : list (list Z) => length <$> m) <$> idx2 h !! l = Some (replicate n n).
Definition shapedw (n : nat) (h : heap) (l : loc) : Prop :=
  length <$> wts h !! l = Some n.

Definition matrix_ok (n : nat) (m : list (list Z)) : Prop :=
  length <$> m = replicate n n.

Definition refs_ok (a : accumulator) (h : heap) : Prop :=
  shaped1 (n_bins a) h (last_exit a) ∧ shaped1 (n_bins a) h (last_entry a) ∧
  shaped2 (n_bins a) h (last_completion a) ∧
  shapedw (n_bins a) h (weight_last_exit a) ∧
  shapedw (n_bins a) h (bin_pops_last_exit a).

(** The accumulator and the store fit together. *)
Definition live_ok (w : world) : Prop :=
  refs_ok (self w) (hp w) ∧ matrix_ok (n_bins (self w)) (n_trans (self w)).

Lemma shaped1_read n h l : shaped1 n h l -> length (read1 h l) = n.
Proof.
  unfold shaped1, read1. destruct (idx1 h !! l); simpl; congruence.
Qed.

Lemma shapedw_read n h l : shapedw n h l -> length (readw h l) = n.
Proof.
  unfold shapedw, readw. destruct (wts h !! l); simpl; congruence.
Qed.

Lemma matrix_ok_length n m : matrix_ok n m -> length m = n.
Proof.
  unfold matrix_ok. intros H.
  rewrite <- (length_fmap length m), H. apply length_replicate.
Qed.

Lemma matrix_ok_row n m i row :
  matrix_ok n m -> m !! i = Some row -> length row = n.
Proof.
  unfold matrix_ok. intros H Hi.
  assert (E : (length <$> m) !! i = Some (length row)) by (by rewrite list_lookup_fmap, Hi).
  rewrite H in E. apply lookup_replicate in E. by destruct E.
Qed.

Lemma matrix_ok_intro n m :
  length m = n -> (∀ i row, m !! i = Some row -> length row = n) -> matrix_ok n m.
Proof.
  intros Hl Hr. unfold matrix_ok. apply list_eq. intros i.
  rewrite list_lookup_fmap.
  destruct (m !! i) as [row|] eqn:E; simpl.
  - rewrite (Hr _ _ E). symmetry. apply lookup_replicate_2.
    apply lookup_lt_Some in E. lia.
  - symmetry. apply lookup_ge_None. rewrite length_replicate, <- Hl.
    by apply lookup_ge_None.
Qed.

Lemma shaped2_read n h l : shaped2 n h l -> matrix_ok n (read2 h l).
Proof.
  unfold shaped2, read2, matrix_ok. destruct (idx2 h !! l); simpl; congruence.
Qed.

(** ** The vectorised expressions *)

Lemma compress_seq_lookup mask k i :
  i ∈ compress mask (seq k (length mask)) ↔
  (k <= i)%nat ∧ mask !! (i - k)%nat = Some true.
Proof.
  revert k. induction mask as [|b mask IH]; intros k; simpl.
  - split; [by intros ?%elem_of_nil | by intros [_ ?]].
  - assert (Hrec : i ∈ compress mask (seq (S k) (length mask)) ↔
                   (S k <= i)%nat ∧ (b :: mask) !! (i - k)%nat = Some true).
    { rewrite IH. split; intros [H1 H2]; (split; [done|]).
      - by replace (i - k)%nat with (S (i - S k)) by lia.
      - by replace (i - k)%nat with (S (i - S k)) in H2 by lia. }
    destruct b.
    + rewrite elem_of_cons, Hrec. split.
      * intros [->|[H1 H2]]; [|split; [lia|done]].
        split; [lia|]. by replace (k - k)%nat with 0%nat by lia.
      * intros [H1 H2]. destruct (decide (i = k)) as [->|Hne]; [by left|].
        right. split; [lia|done].
    + rewrite Hrec. split.
      * intros [H1 H2]. split; [lia|done].
      * intros [H1 H2]. destruct (decide (i = k)) as [->|Hne].
        -- by replace (k - k)%nat with 0%nat in H2 by lia.
        -- split; [lia|done].
Qed.

Lemma compress_seq_elem mask n i :
  length mask = n ->
  i ∈ compress mask (seq 0 n) ↔ mask !! i = Some true.
Proof.
  intros <-. rewrite compress_seq_lookup.
  replace (i - 0)%nat with i by lia. split; [by intros [_ ?] | split; [lia|done]].
Qed.

Lemma length_iibdisc_of n lex len col :
  length lex = n -> length len = n -> length col = n ->
  length (iibdisc_of lex len col) = n.
Proof.
  intros H1 H2 H3. unfold iibdisc_of.
  rewrite !length_zip_with, length_fmap. lia.
Qed.

Lemma iibdisc_of_lookup lex len col i e x c :
  lex !! i = Some e -> len !! i = Some x -> col !! i = Some c ->
  iibdisc_of lex len col !! i = Some ((0 <? e) && (c <? x)).
Proof.
  intros H1 H2 H3. unfold iibdisc_of.
  rewrite lookup_zip_with, list_lookup_fmap, H1. simpl.
  by rewrite lookup_zip_with, H2, H3.
Qed.

Lemma mapM_lookup_total (m : list (list Z)) j :
  (∀ i row, m !! i = Some row -> is_Some (row !! j)) ->
  ∃ col, mapM (fun row : list Z => row !! j) m = Some col ∧
         length col = length m ∧
         ∀ i row, m !! i = Some row -> col !! i = row !! j.
Proof.
  induction m as [|row m IH]; intros Hall; simpl.
  - exists []. split; [done|]. split; [done|]. intros i r Hr. done.
  - destruct (Hall 0%nat row eq_refl) as [x Hx].
    destruct (IH (fun i r Hr => Hall (S i) r Hr)) as (col & Hcol & Hl & Hget).
    exists (x :: col). rewrite Hx. simpl. rewrite Hcol. simpl.
    split; [done|]. split; [simpl; lia|].
    intros [|i] r Hr; simpl in *.
    + by inversion Hr; subst.
    + by apply Hget.
Qed.

Lemma column_spec n m j :
  matrix_ok n m -> (j < n)%nat ->
  ∃ col, mapM (fun row : list Z => row !! j) m = Some col ∧ length col = n ∧
         ∀ i row, m !! i = Some row -> col !! i = row !! j.
Proof.
  intros Hm Hj.
  destruct (mapM_lookup_total m j) as (col & H1 & H2 & H3).
  - intros i row Hi. apply lookup_lt_is_Some.
    by rewrite (matrix_ok_row _ _ _ _ Hm Hi).
  - exists col. rewrite H2, (matrix_ok_length _ _ Hm). done.
Qed.

Lemma length_set_masked mask j v m :
  length mask = length m -> length (set_masked mask j v m) = length m.
Proof. intros H. unfold set_masked. rewrite length_zip_with. lia. Qed.

Lemma matrix_ok_set_masked n mask j v m :
  length mask = n -> matrix_ok n m -> matrix_ok n (set_masked mask j v m).
Proof.
  intros Hl Hm. assert (Hlm := matrix_ok_length _ _ Hm).
  apply matrix_ok_intro.
  - rewrite length_set_masked; lia.
  - intros i row. unfold set_masked. rewrite lookup_zip_with.
    destruct (mask !! i) as [b|]; [|done]. simpl.
    destruct (m !! i) as [r|] eqn:E; [|done]. simpl.
    intros [= <-]. destruct b; [rewrite length_insert|]; by eapply matrix_ok_row.
Qed.

Lemma matrix_ok_incr_masked n mask j m :
  length mask = n -> matrix_ok n m -> matrix_ok n (incr_masked mask j m).
Proof.
  intros Hl Hm. assert (Hlm := matrix_ok_length _ _ Hm).
  apply matrix_ok_intro.
  - unfold incr_masked. rewrite length_zip_with. lia.
  - intros i row. unfold incr_masked. rewrite lookup_zip_with.
    destruct (mask !! i) as [b|]; [|done]. simpl.
    destruct (m !! i) as [r|] eqn:E; [|done]. simpl.
    intros [= <-]. destruct b; [rewrite length_alter|]; by eapply matrix_ok_row.
Qed.

Lemma matrix_ok_zeros2 n : matrix_ok n (zeros2 n).
Proof.
  unfold matrix_ok, zeros2. rewrite fmap_replicate. by rewrite length_replicate.
Qed.

(** ** The loop body, step by step *)

(** The store after lines 199-202, when no index is out of range. *)
Definition crossed (a0 : accumulator) (c : crossing) (v : weight) (h : heap) : heap :=
  let h1 := writew (bin_pops_last_exit a0)
              (<[c_ibin c := v]> (readw h (bin_pops_last_exit a0))) h in
  let h2 := write1 (last_exit a0)
              (<[c_ibin c := c_ti c]> (read1 h1 (last_exit a0))) h1 in
  let h3 := write1 (last_entry a0)
              (<[c_fbin c := c_ti c]> (read1 h2 (last_entry a0))) h2 in
  writew (weight_last_exit a0)
    (<[c_ibin c := c_weight c]> (readw h3 (weight_last_exit a0))) h3.

(** The mask [iibdisc] and the tuples appended at a crossing. *)
Definition completed (a0 : accumulator) (h : heap) (col : list Z) : list bool :=
  iibdisc_of (read1 h (last_exit a0)) (read1 h (last_entry a0)) col.

Definition completed_rows (a0 : accumulator) (block : Z) (c : crossing)
    (h : heap) (col : list Z) : list tdat_row :=
  tdat_tuple a0 block c (readw h (weight_last_exit a0))
    (readw h (bin_pops_last_exit a0))
    (durations_of (read1 h (last_exit a0)) (c_ti c)) (fpts_of col (c_ti c))
  <$> compress (completed a0 h col) (seq 0 (n_bins a0)).

Lemma complete_transitions_eq a0 block c tdat w :
  complete_transitions a0 block c tdat w =
  match mapM (fun row : list Z => row !! c_fbin c)
             (read2 (hp w) (last_completion a0)) with
  | Some col =>
      let rows := completed_rows a0 block c (hp w) col in
      (Ok (tdat ++ rows),
       World (write2 (last_completion a0)
                (set_masked (completed a0 (hp w) col) (c_fbin c) (c_ti c)
                   (read2 (hp w) (last_completion a0))) (hp w))
             (set_n_trans (incr_masked (completed a0 (hp w) col) (c_fbin c)
                             (n_trans (self w))) (self w))
             (emitted w ++ rows))
  | None => (Raise IndexError, w)
  end.
Proof.
  unfold complete_transitions, bind, get_heap, column. simpl.
  destruct (mapM _ _); reflexivity.
Qed.

(** Shapes survive every write and every allocation. *)
Definition shapes_kept (h h' : heap) : Prop :=
  (∀ n l, shaped1 n h l -> shaped1 n h' l) ∧
  (∀ n l, shaped2 n h l -> shaped2 n h' l) ∧
  (∀ n l, shapedw n h l -> shapedw n h' l).

Lemma shapes_kept_refl h : shapes_kept h h.
Proof. by repeat split. Qed.

Lemma shapes_kept_trans h1 h2 h3 :
  shapes_kept h1 h2 -> shapes_kept h2 h3 -> shapes_kept h1 h3.
Proof. intros (A1 & A2 & A3) (B1 & B2 & B3). repeat split; eauto. Qed.

Lemma shapes_kept_setitem1 h l i v :
  shapes_kept h (write1 l (<[i := v]> (read1 h l)) h).
Proof.
  repeat split; try done. intros n k. unfold shaped1, write1, read1. simpl.
  destruct (decide (l = k)) as [->|Hne].
  - destruct (idx1 h !! k) as [a|] eqn:E; simpl.
    + rewrite list_lookup_insert_eq by (by eapply lookup_lt_Some).
      simpl. by rewrite length_insert.
    + by rewrite list_insert_ge, E by (by apply lookup_ge_None).
  - by rewrite list_lookup_insert_ne.
Qed.

Lemma shapes_kept_setitemw h l i v :
  shapes_kept h (writew l (<[i := v]> (readw h l)) h).
Proof.
  repeat split; try done. intros n k. unfold shapedw, writew, readw. simpl.
  destruct (decide (l = k)) as [->|Hne].
  - destruct (wts h !! k) as [a|] eqn:E; simpl.
    + rewrite list_lookup_insert_eq by (by eapply lookup_lt_Some).
      simpl. by rewrite length_insert.
    + by rewrite list_insert_ge, E by (by apply lookup_ge_None).
  - by rewrite list_lookup_insert_ne.
Qed.

Lemma shapes_kept_set_masked n h l mask j v :
  shaped2 n h l -> length mask = n ->
  shapes_kept h (write2 l (set_masked mask j v (read2 h l)) h).
Proof.
  intros Hs Hl. repeat split; try done. intros n' k.
  unfold shaped2, write2. simpl.
  destruct (decide (l = k)) as [->|Hne]; [|by rewrite list_lookup_insert_ne].
  assert (Hm := shaped2_read _ _ _ Hs). unfold shaped2 in Hs.
  destruct (idx2 h !! k) as [m|] eqn:E; [|done].
  rewrite list_lookup_insert_eq by (by eapply lookup_lt_Some). simpl.
  intros Hn'. simpl in Hs.
  assert (n' = n) as ->.
  { assert (length (replicate n' n') = length (replicate n n)) by congruence.
    by rewrite !length_replicate in *. }
  f_equal. by apply (matrix_ok_set_masked n).
Qed.

Lemma shapes_kept_alloc1 h a : shapes_kept h (snd (alloc1 a h)).
Proof.
  repeat split; try done. intros n l. unfold shaped1. simpl.
  destruct (idx1 h !! l) eqn:E; [|done].
  by rewrite (lookup_app_l_Some _ _ _ _ E).
Qed.
Lemma shapes_kept_alloc2 h a : shapes_kept h (snd (alloc2 a h)).
Proof.
  repeat split; try done. intros n l. unfold shaped2. simpl.
  destruct (idx2 h !! l) eqn:E; [|done].
  by rewrite (lookup_app_l_Some _ _ _ _ E).
Qed.
Lemma shapes_kept_allocw h a : shapes_kept h (snd (allocw a h)).
Proof.
  repeat split; try done. intros n l. unfold shapedw. simpl.
  destruct (wts h !! l) eqn:E; [|done].
  by rewrite (lookup_app_l_Some _ _ _ _ E).
Qed.

Lemma refs_ok_kept a h h' : shapes_kept h h' -> refs_ok a h -> refs_ok a h'.
Proof.
  intros (K1 & K2 & K3) (H1 & H2 & H3 & H4 & H5). repeat split; eauto.
Qed.

(** A computation that reads and writes the store only. *)
Definition heap_only {A} (m : M A) : Prop :=
  (∀ w, self (snd (m w)) = self w ∧ emitted (snd (m w)) = emitted w ∧
        shapes_kept (hp w) (hp (snd (m w)))) ∧
  (∀ w1 w2, hp w1 = hp w2 ->
        fst (m w1) = fst (m w2) ∧ hp (snd (m w1)) = hp (snd (m w2))).

Lemma heap_only_ret {A} (a : A) : heap_only (ret a).
Proof. split; intros; simpl; auto using shapes_kept_refl. Qed.

Lemma heap_only_raise {A} e : heap_only (@raise A e).
Proof. split; intros; simpl; auto using shapes_kept_refl. Qed.

Lemma heap_only_bind {A B} (m : M A) (k : A -> M B) :
  heap_only m -> (∀ a, heap_only (k a)) -> heap_only (bind m k).
Proof.
  intros [Hm1 Hm2] Hk. split.
  - intros w. unfold bind. destruct (Hm1 w) as (S1 & E1 & K1).
    destruct (m w) as [[a|e] w1]; simpl in *; [|done].
    destruct (Hk a) as [Hk1 _]. destruct (Hk1 w1) as (S2 & E2 & K2).
    split; [congruence|]. split; [congruence|].
    eapply shapes_kept_trans; eauto.
  - intros w1 w2 Hh. unfold bind. destruct (Hm2 w1 w2 Hh) as [R1 R2].
    destruct (m w1) as [[a1|e1] w1'], (m w2) as [[a2|e2] w2'];
      simpl in *; try discriminate.
    + inversion R1; subst. destruct (Hk a2) as [_ Hk2]. by apply Hk2.
    + by inversion R1; subst.
Qed.

Lemma heap_only_getitem {A} (xs : list A) i : heap_only (getitem xs i).
Proof.
  unfold getitem. destruct (xs !! i); [apply heap_only_ret|apply heap_only_raise].
Qed.

Lemma heap_only_setitem1 l i v : heap_only (setitem1 l i v).
Proof.
  split.
  - intros w. unfold setitem1, bind, get_heap, put_heap, raise.
    case_bool_decide; simpl; (split; [done|]); (split; [done|]);
      apply shapes_kept_setitem1 || apply shapes_kept_refl.
  - intros w1 w2 Hh. unfold setitem1, bind, get_heap, put_heap, raise.
    rewrite Hh. case_bool_decide; simpl; auto.
Qed.

Lemma heap_only_setitemw l i v : heap_only (setitemw l i v).
Proof.
  split.
  - intros w. unfold setitemw, bind, get_heap, put_heap, raise.
    case_bool_decide; simpl; (split; [done|]); (split; [done|]);
      apply shapes_kept_setitemw || apply shapes_kept_refl.
  - intros w1 w2 Hh. unfold setitemw, bind, get_heap, put_heap, raise.
    rewrite Hh. case_bool_decide; simpl; auto.
Qed.

Lemma heap_only_record_crossing a0 c : heap_only (record_crossing a0 c).
Proof.
  unfold record_crossing.
  repeat first [ apply heap_only_getitem | apply heap_only_setitem1
               | apply heap_only_setitemw | apply heap_only_bind; [|intros ?] ].
Qed.

Lemma bind_ok {A B} (m : M A) (k : A -> M B) w a w' :
  m w = (Ok a, w') -> bind m k w = k a w'.
Proof. intros H. unfold bind. by rewrite H. Qed.

Lemma bind_raise {A B} (m : M A) (k : A -> M B) w e w' :
  m w = (Raise e, w') -> bind m k w = (Raise e, w').
Proof. intros H. unfold bind. by rewrite H. Qed.

Lemma setitem1_ok l i v w :
  (i < length (read1 (hp w) l))%nat ->
  setitem1 l i v w =
  (Ok tt, World (write1 l (<[i := v]> (read1 (hp w) l)) (hp w)) (self w) (emitted w)).
Proof.
  intros H. unfold setitem1, bind, get_heap, put_heap.
  by rewrite bool_decide_true.
Qed.

Lemma setitemw_ok l i v w :
  (i < length (readw (hp w) l))%nat ->
  setitemw l i v w =
  (Ok tt, World (writew l (<[i := v]> (readw (hp w) l)) (hp w)) (self w) (emitted w)).
Proof.
  intros H. unfold setitemw, bind, get_heap, put_heap.
  by rewrite bool_decide_true.
Qed.

Lemma record_crossing_ok a0 c v w :
  refs_ok a0 (hp w) ->
  (c_ibin c < n_bins a0)%nat -> (c_fbin c < n_bins a0)%nat ->
  c_ibinpops c !! c_ibin c = Some v ->
  record_crossing a0 c w =
  (Ok tt, World (crossed a0 c v (hp w)) (self w) (emitted w)).
Proof.
  intros Hr Hi Hf Hv. unfold record_crossing, crossed.
  set (h1 := writew _ _ (hp w)).
  assert (K1 : shapes_kept (hp w) h1) by apply shapes_kept_setitemw.
  set (h2 := write1 (last_exit a0) _ h1).
  assert (K2 : shapes_kept h1 h2) by apply shapes_kept_setitem1.
  set (h3 := write1 (last_entry a0) _ h2).
  assert (K3 : shapes_kept h2 h3) by apply shapes_kept_setitem1.
  assert (R1 := refs_ok_kept _ _ _ K1 Hr).
  assert (R2 := refs_ok_kept _ _ _ K2 R1).
  assert (R3 := refs_ok_kept _ _ _ K3 R2).
  destruct Hr as (_ & _ & _ & _ & Hb).
  destruct R1 as (He & _ & _ & _ & _).
  destruct R2 as (_ & Hn & _ & _ & _).
  destruct R3 as (_ & _ & _ & Hw & _).
  apply shapedw_read in Hb, Hw. apply shaped1_read in He, Hn.
  erewrite bind_ok by (unfold getitem; rewrite Hv; reflexivity).
  erewrite bind_ok by (apply setitemw_ok; lia). fold h1.
  erewrite bind_ok by (apply setitem1_ok; simpl; lia). simpl. fold h2.
  erewrite bind_ok by (apply setitem1_ok; simpl; lia). simpl. fold h3.
  rewrite setitemw_ok by (simpl; lia). reflexivity.
Qed.

(** ** Buffered output never fails and touches the output fields only *)

(** Everything of the accumulator but the write buffer, the output offset
    and the dataset. *)
Definition non_io (a : accumulator) :=
  (calc_fpts a, n_bins a, tdat_buffersize a, n_trans a,
   (last_exit a, last_entry a, last_completion a, weight_last_exit a,
    bin_pops_last_exit a),
   (timepoint a, last_bin a, last_bin_pop a)).

Lemma flush_transition_data_ok w :
  ∃ a', flush_transition_data w = (Ok tt, World (hp w) a' (emitted w)) ∧
        non_io a' = non_io (self w) ∧
        (is_Some (output_tdat_ds (self w)) -> is_Some (output_tdat_ds a')).
Proof.
  destruct w as [h a em]. unfold flush_transition_data, bind, get_self. simpl.
  destruct (output_tdat_ds a) as [ds|] eqn:E.
  - case_bool_decide.
    + exists a. simpl. rewrite E. by eauto.
    + eexists. simpl. split; [reflexivity|]. simpl. split; [done|]. by eauto.
  - exists a. simpl. split; [done|]. split; [done|]. by intros [? ?].
Qed.

Lemma record_transition_data_ok tdat w :
  ∃ a', record_transition_data tdat w = (Ok tt, World (hp w) a' (emitted w)) ∧
        non_io a' = non_io (self w).
Proof.
  unfold record_transition_data.
  set (w1 := World (hp w)
               (match output_tdat_ds (self w) with
                | None => set_output_tdat_ds (Some [None]) (self w)
                | Some _ => self w
                end) (emitted w)).
  assert (N1 : non_io (self w1) = non_io (self w)).
  { unfold w1. simpl. by destruct (output_tdat_ds (self w)). }
  assert (S1 : is_Some (output_tdat_ds (self w1))).
  { unfold w1. simpl. destruct (output_tdat_ds (self w)) eqn:E; simpl; eauto. }
  unfold bind at 1. unfold get_self at 1. simpl.
  unfold bind at 1.
  replace (match output_tdat_ds (self w) with
           | Some _ => ret ()
           | None => modify_self (set_output_tdat_ds (Some [None]))
           end w) with (@Ok unit tt, w1).
  2:{ unfold w1. destruct w as [h a em]. simpl. by destruct (output_tdat_ds a). }
  unfold bind at 1. unfold get_self at 1. simpl.
  case_bool_decide.
  - destruct (flush_transition_data_ok w1) as (a2 & F & N2 & S2).
    erewrite bind_ok by exact F.
    unfold bind, get_self. simpl.
    destruct (S2 S1) as [ds Hds]. rewrite Hds. simpl.
    eexists. split; [reflexivity|]. simpl. rewrite <- N1, <- N2. reflexivity.
  - eexists. split; [reflexivity|]. simpl. rewrite <- N1. reflexivity.
Qed.

(** ** One loop iteration *)

(** The state after lines 205-224. *)
Definition completed_world (a0 : accumulator) (block : Z) (c : crossing)
    (col : list Z) (w1 : world) : world :=
  World (write2 (last_completion a0)
           (set_masked (completed a0 (hp w1) col) (c_fbin c) (c_ti c)
              (read2 (hp w1) (last_completion a0))) (hp w1))
        (set_n_trans (incr_masked (completed a0 (hp w1) col) (c_fbin c)
                        (n_trans (self w1))) (self w1))
        (emitted w1 ++ completed_rows a0 block c (hp w1) col).

Lemma crossing_event_cases a0 block c tdat w :
  (∃ e w1, crossing_event a0 block c tdat w = (Raise e, w1) ∧
           self w1 = self w ∧ emitted w1 = emitted w ∧
           shapes_kept (hp w) (hp w1))
  ∨
  (∃ w1 col a',
      record_crossing a0 c w = (Ok tt, w1) ∧
      mapM (fun row : list Z => row !! c_fbin c)
           (read2 (hp w1) (last_completion a0)) = Some col ∧
      let w2 := completed_world a0 block c col w1 in
      crossing_event a0 block c tdat w =
        (Ok (tdat ++ completed_rows a0 block c (hp w1) col),
         World (hp w2) a' (emitted w2)) ∧
      non_io a' = non_io (self w2)).
Proof.
  destruct (heap_only_record_crossing a0 c) as [Hfoot _].
  destruct (Hfoot w) as (Hs & He & Hk).
  unfold crossing_event.
  destruct (record_crossing a0 c w) as [[[]|e] w1] eqn:E1; simpl in *.
  - erewrite bind_ok by exact E1.
    pose proof (complete_transitions_eq a0 block c tdat w1) as E2.
    destruct (mapM _ _) as [col|] eqn:Ecol.
    + right. exists w1, col. cbv zeta in E2.
      erewrite bind_ok by exact E2.
      fold (completed_world a0 block c col w1).
      set (w2 := completed_world a0 block c col w1).
      case_bool_decide.
      * destruct (record_transition_data_ok
                    (tdat ++ completed_rows a0 block c (hp w1) col) w2)
          as (a' & R & N).
        exists a'. split; [done|]. split; [done|]. split; [|done].
        erewrite bind_ok by exact R. done.
      * exists (self w2). split; [done|]. split; [done|]. split; [|done].
        unfold bind, ret. simpl. done.
    + left. exists IndexError, w1.
      erewrite bind_raise by exact E2. done.
  - left. exists e, w1. erewrite bind_raise by exact E1. done.
Qed.

(** ** Which transitions a crossing completes *)

Lemma complete_transitions_ok a0 block c tdat w :
  refs_ok a0 (hp w) -> (c_fbin c < n_bins a0)%nat ->
  ∃ col,
    mapM (fun row : list Z => row !! c_fbin c)
         (read2 (hp w) (last_completion a0)) = Some col ∧
    length col = n_bins a0 ∧
    (∀ i, (i < n_bins a0)%nat ->
          col !!! i = (read2 (hp w) (last_completion a0) !!! i) !!! c_fbin c) ∧
    complete_transitions a0 block c tdat w =
      (Ok (tdat ++ completed_rows a0 block c (hp w) col),
       completed_world a0 block c col w).
Proof.
  intros (_ & _ & H2 & _ & _) Hf.
  apply shaped2_read in H2.
  destruct (column_spec _ _ _ H2 Hf) as (col & Hcol & Hlen & Hget).
  exists col. split; [done|]. split; [done|]. split.
  - intros i Hi.
    assert (Hm := matrix_ok_length _ _ H2).
    destruct (lookup_lt_is_Some_2 (read2 (hp w) (last_completion a0)) i)
      as [row Hrow]; [lia|].
    rewrite (list_lookup_total_correct _ _ _ Hrow).
    assert (Hr := matrix_ok_row _ _ _ _ H2 Hrow).
    destruct (lookup_lt_is_Some_2 row (c_fbin c)) as [x Hx]; [lia|].
    rewrite (list_lookup_total_correct _ _ _ Hx).
    apply list_lookup_total_correct. by rewrite (Hget _ _ Hrow).
  - rewrite complete_transitions_eq, Hcol. reflexivity.
Qed.

Lemma completed_lookup a0 h col i :
  refs_ok a0 h -> length col = n_bins a0 ->
  completed a0 h col !! i = Some true ↔
  (i < n_bins a0)%nat ∧ 0 < read1 h (last_exit a0) !!! i ∧
  col !!! i < read1 h (last_entry a0) !!! i.
Proof.
  intros (H1 & H2 & _) Hc. apply shaped1_read in H1, H2.
  unfold completed. split.
  - intros Hi.
    assert (Hlt : (i < n_bins a0)%nat).
    { apply lookup_lt_Some in Hi.
      by rewrite (length_iibdisc_of (n_bins a0)) in Hi. }
    destruct (lookup_lt_is_Some_2 (read1 h (last_exit a0)) i) as [e He]; [lia|].
    destruct (lookup_lt_is_Some_2 (read1 h (last_entry a0)) i) as [x Hx]; [lia|].
    destruct (lookup_lt_is_Some_2 col i) as [k Hk]; [lia|].
    rewrite (iibdisc_of_lookup _ _ _ _ _ _ _ He Hx Hk) in Hi.
    rewrite (list_lookup_total_correct _ _ _ He),
      (list_lookup_total_correct _ _ _ Hx), (list_lookup_total_correct _ _ _ Hk).
    injection Hi as Hi. apply andb_true_iff in Hi as [A B].
    apply Z.ltb_lt in A, B. done.
  - intros (Hlt & A & B).
    destruct (lookup_lt_is_Some_2 (read1 h (last_exit a0)) i) as [e He]; [lia|].
    destruct (lookup_lt_is_Some_2 (read1 h (last_entry a0)) i) as [x Hx]; [lia|].
    destruct (lookup_lt_is_Some_2 col i) as [k Hk]; [lia|].
    rewrite (list_lookup_total_correct _ _ _ He) in A.
    rewrite (list_lookup_total_correct _ _ _ Hx),
      (list_lookup_total_correct _ _ _ Hk) in B.
    rewrite (iibdisc_of_lookup _ _ _ _ _ _ _ He Hx Hk). f_equal.
    apply andb_true_iff. split; by apply Z.ltb_lt.
Qed.

Lemma length_completed a0 h col :
  refs_ok a0 h -> length col = n_bins a0 ->
  length (completed a0 h col) = n_bins a0.
Proof.
  intros (H1 & H2 & _) Hc. apply shaped1_read in H1, H2.
  by apply length_iibdisc_of.
Qed.

Lemma elem_of_completed_rows a0 block c h col r :
  refs_ok a0 h -> length col = n_bins a0 ->
  r ∈ completed_rows a0 block c h col ↔
  ∃ i, completed a0 h col !! i = Some true ∧
       r = tdat_tuple a0 block c (readw h (weight_last_exit a0))
             (readw h (bin_pops_last_exit a0))
             (durations_of (read1 h (last_exit a0)) (c_ti c))
             (fpts_of col (c_ti c)) i.
Proof.
  intros Hr Hc. unfold completed_rows. rewrite list_elem_of_fmap.
  split.
  - intros (i & -> & Hi). exists i. split; [|done].
    by apply (compress_seq_elem _ (n_bins a0)) in Hi;
      [|apply length_completed].
  - intros (i & Hi & ->). exists i. split; [done|].
    by apply (compress_seq_elem _ (n_bins a0)); [apply length_completed|].
Qed.

(** ** Crossing detection *)

(** [trans_occur] and the list the loop iterates over. *)
Definition trans_occur_of (assignments : list nat) : list bool :=
  zip_with (fun x y : nat => negb (x =? y)%nat) (from_1 assignments) (to_1 assignments).

Definition crossings_of (timepoints : list Z) (assignments : list nat)
    (weights : list weight) (bin_pops : list (list weight)) : list crossing :=
  let m := trans_occur_of assignments in
  izip (compress m (from_1 timepoints)) (compress m (from_1 weights))
       (compress m (to_1 assignments)) (compress m (from_1 assignments))
       (compress m (to_1 bin_pops)).

Lemma length_from_1 {A} (xs : list A) : length (from_1 xs) = (length xs - 1)%nat.
Proof. unfold from_1. by rewrite length_drop. Qed.

Lemma length_to_1 {A} (xs : list A) : length (to_1 xs) = (length xs - 1)%nat.
Proof. unfold to_1. rewrite length_take. lia. Qed.

Lemma length_trans_occur_of a : length (trans_occur_of a) = (length a - 1)%nat.
Proof.
  unfold trans_occur_of. rewrite length_zip_with, length_from_1, length_to_1. lia.
Qed.

Lemma bool_index_ok {A} (xs : list A) mask w :
  length xs = length mask -> bool_index xs mask w = (Ok (compress mask xs), w).
Proof. intros H. unfold bool_index. by rewrite bool_decide_true. Qed.

(** With arrays of matching lengths no mask is refused, and
    [_accumulate_transitions] is the loop over [crossings_of] followed by
    the final write and the cursor update. *)
Lemma accumulate_transitions_eq timepoints assignments weights bin_pops block w :
  (length timepoints - 1 = length assignments - 1)%nat ->
  (length weights - 1 = length assignments - 1)%nat ->
  (length bin_pops - 1 = length assignments - 1)%nat ->
  _accumulate_transitions timepoints assignments weights bin_pops block w =
  (tdat <- for_crossings (self w) block
             (crossings_of timepoints assignments weights bin_pops) [] ;;
   record_transition_data tdat ;;;
   tp <- getlast timepoints ;;
   modify_self (set_timepoint tp) ;;;
   lb <- getlast assignments ;;
   modify_self (set_last_bin (Some lb)) ;;;
   lastpops <- getlast bin_pops ;;
   lbp <- getitem lastpops lb ;;
   modify_self (set_last_bin_pop (Some lbp))) w.
Proof.
  intros Ht Hw Hp. unfold _accumulate_transitions.
  fold (trans_occur_of assignments).
  assert (L := length_trans_occur_of assignments).
  erewrite bind_ok by (apply bool_index_ok; rewrite length_to_1; lia).
  erewrite bind_ok by (apply bool_index_ok; rewrite length_from_1; lia).
  erewrite bind_ok by (apply bool_index_ok; rewrite length_from_1; lia).
  erewrite bind_ok by (apply bool_index_ok; rewrite length_from_1; lia).
  erewrite bind_ok by (apply bool_index_ok; rewrite length_to_1; lia).
  erewrite bind_ok by reflexivity.
  reflexivity.
Qed.

Lemma izip_lookup tis ws ibs fbs pss k c :
  izip tis ws ibs fbs pss !! k = Some c ->
  tis !! k = Some (c_ti c) ∧ ws !! k = Some (c_weight c) ∧
  ibs !! k = Some (c_ibin c) ∧ fbs !! k = Some (c_fbin c) ∧
  pss !! k = Some (c_ibinpops c).
Proof.
  revert ws ibs fbs pss k.
  induction tis as [|ti tis IH]; intros [|w ws] [|ib ibs] [|fb fbs] [|ps pss] k;
    simpl; try done.
  destruct k as [|k]; simpl.
  - by intros [= <-].
  - apply IH.
Qed.

Lemma compress_pair_lookup {A B} (mask : list bool) (xs : list A) (ys : list B) k x y :
  compress mask xs !! k = Some x -> compress mask ys !! k = Some y ->
  length xs = length ys ->
  ∃ j, mask !! j = Some true ∧ xs !! j = Some x ∧ ys !! j = Some y.
Proof.
  revert xs ys k.
  induction mask as [|b mask IH]; intros [|x0 xs] [|y0 ys] k; simpl; try done.
  intros Hx Hy [= Hl]. destruct b.
  - destruct k as [|k]; simpl in *.
    + exists 0%nat. by simplify_eq.
    + destruct (IH _ _ _ Hx Hy Hl) as (j & ? & ? & ?). by exists (S j).
  - destruct (IH _ _ _ Hx Hy Hl) as (j & ? & ? & ?). by exists (S j).
Qed.

Lemma crossings_of_distinct timepoints assignments weights bin_pops c :
  c ∈ crossings_of timepoints assignments weights bin_pops ->
  c_ibin c ≠ c_fbin c.
Proof.
  intros [k Hk]%list_elem_of_lookup. unfold crossings_of in Hk.
  apply izip_lookup in Hk as (_ & _ & Hi & Hf & _).
  destruct (compress_pair_lookup _ _ _ _ _ _ Hi Hf) as (j & Hm & Hx & Hy).
  { by rewrite length_to_1, length_from_1. }
  unfold trans_occur_of in Hm. rewrite lookup_zip_with, Hy, Hx in Hm.
  simpl in Hm. injection Hm as Hm. apply negb_true_iff, Nat.eqb_neq in Hm.
  congruence.
Qed.

(** * The specified properties *)

(** ** The concrete scenario of the specification

    [n_bins = 3], assignments [[0,0,1,1,2,2,1,0]], all weights [1.0], full
    weight [1.0] in the occupied bin of every population snapshot. *)

Definition onehot (n b : nat) : list weight := <[b := 1%float]> (zerosw n).
Definition scenario_assignments : list nat := [0; 0; 1; 1; 2; 2; 1; 0]%nat.
Definition scenario_weights : list weight := replicate 8 1%float.
Definition scenario_bin_pops : list (list weight) := onehot 3 <$> scenario_assignments.

(** A freshly constructed accumulator for three bins with the buffer size
    of the source. *)
Definition fresh3 (fpts : bool) : world := init 3 fpts 524288.

(** The scenario run: one [start_accumulation] call. *)
Definition scenario_run (fpts : bool) : result unit * world :=
  start_accumulation scenario_assignments scenario_weights scenario_bin_pops 0
    (fresh3 fpts).

Lemma live_ok_fresh3 fpts : live_ok (fresh3 fpts).
Proof.
  unfold live_ok, refs_ok, shaped1, shaped2, shapedw, matrix_ok.
  destruct fpts; vm_compute; repeat split.
Qed.

(** C1 (counterexample).  First crossing of the scenario, [0 -> 1] at
    timepoint 2: after lines 199-202 bin 0 satisfies the claimed condition
    ([last_exit[0] > 0] and [last_entry[fbin] > last_completion[0][fbin]]),
    yet no record is emitted. *)
Lemma C1_counterexample :
  let w0 := fresh3 true in
  let c := Crossing 2 1%float 0 1 (onehot 3 0) in
  let w1 := snd (record_crossing (self w0) c w0) in
  (0 <? read1 (hp w1) (last_exit (self w1)) !!! 0%nat) = true ∧
  ((read2 (hp w1) (last_completion (self w1)) !!! 0%nat) !!! 1%nat
     <? read1 (hp w1) (last_entry (self w1)) !!! 1%nat) = true ∧
  complete_transitions (self w1) 0 c [] w1 = (Ok [], w1).
Proof. vm_compute. repeat split; reflexivity. Qed.

(** C1 (as amended).  For a crossing into [fbin] at timepoint [t] processed
    in state [w] (the state after the updates of lines 199-202), the bins
    [i] for which an [i -> fbin] record is emitted are exactly those with
    [last_exit[i] > 0] and [last_entry[i] > last_completion[i][fbin]]; every
    record emitted there has final bin [fbin] and timepoint [t]. *)
Theorem C1_completed_bins w block c tdat :
  live_ok w -> (c_fbin c < n_bins (self w))%nat ->
  ∃ rows w',
    complete_transitions (self w) block c tdat w = (Ok (tdat ++ rows), w') ∧
    emitted w' = emitted w ++ rows ∧
    (∀ r, r ∈ rows -> td_final_bin r = c_fbin c ∧ td_timepoint r = c_ti c) ∧
    ∀ i, (∃ r, r ∈ rows ∧ td_initial_bin r = i) ↔
         (i < n_bins (self w))%nat ∧
         0 < read1 (hp w) (last_exit (self w)) !!! i ∧
         (read2 (hp w) (last_completion (self w)) !!! i) !!! c_fbin c
           < read1 (hp w) (last_entry (self w)) !!! i.
Proof.
  intros [Hr _] Hf.
  destruct (complete_transitions_ok (self w) block c tdat w Hr Hf)
    as (col & _ & Hlen & Hcol & E).
  exists (completed_rows (self w) block c (hp w) col),
         (completed_world (self w) block c col w).
  split; [exact E|]. split; [reflexivity|]. split.
  - intros r Hin. apply elem_of_completed_rows in Hin as (i & _ & ->); done.
  - intros i. split.
    + intros (r & Hin & <-).
      apply elem_of_completed_rows in Hin as (i & Hi & ->); [|done..].
      simpl. apply completed_lookup in Hi as (Hlt & A & B); [|done..].
      rewrite <- (Hcol i Hlt). done.
    + intros (Hlt & A & B). rewrite <- (Hcol i Hlt) in B.
      eexists. split.
      * apply elem_of_completed_rows; [done..|]. exists i. split; [|reflexivity].
        by apply completed_lookup.
      * reflexivity.
Qed.

(** The scenario at its third crossing, [2 -> 1] at timepoint 6: the
    accumulator after [clear_state], the loop over the first two crossings
    and lines 199-202 of the third. *)
Definition scenario_crossings : list crossing :=
  crossings_of (arange 0 (length scenario_assignments)) scenario_assignments
    scenario_weights scenario_bin_pops.

Definition third_crossing : crossing :=
  default (Crossing 0 0%float 0 0 []) (scenario_crossings !! 2%nat).

Definition at_third_crossing : world :=
  let w0 := snd (clear_state (fresh3 true)) in
  let w2 := snd (for_crossings (self w0) 0 (take 2 scenario_crossings) [] w0) in
  snd (record_crossing (self w0) third_crossing w2).

Lemma live_ok_at_third_crossing : live_ok at_third_crossing.
Proof.
  unfold live_ok, refs_ok, shaped1, shaped2, shapedw, matrix_ok.
  vm_compute; repeat split.
Qed.

Lemma C1_completed_bins_witness :
  ∃ rows w',
    complete_transitions (self at_third_crossing) 0 third_crossing []
      at_third_crossing = (Ok ([] ++ rows), w') ∧
    emitted w' = emitted at_third_crossing ++ rows ∧
    (∀ r, r ∈ rows -> td_final_bin r = c_fbin third_crossing ∧
                      td_timepoint r = c_ti third_crossing) ∧
    (∀ i, (∃ r, r ∈ rows ∧ td_initial_bin r = i) ↔
          (i < n_bins (self at_third_crossing))%nat ∧
          0 < read1 (hp at_third_crossing)
                (last_exit (self at_third_crossing)) !!! i ∧
          (read2 (hp at_third_crossing)
             (last_completion (self at_third_crossing)) !!! i)
            !!! c_fbin third_crossing
            < read1 (hp at_third_crossing)
                (last_entry (self at_third_crossing)) !!! i) ∧
    td_initial_bin <$> rows = [1; 2]%nat.
Proof.
  destruct (C1_completed_bins at_third_crossing 0 third_crossing [])
    as (rows & w' & E & He & Hf & Hiff).
  - apply live_ok_at_third_crossing.
  - vm_compute. lia.
  - exists rows, w'. repeat (split; [assumption|]).
    apply (f_equal fst) in E. vm_compute in E. injection E as <-.
    reflexivity.
Defined.

Lemma scenario_run_emitted fpts :
  emitted (snd (scenario_run fpts)) =
    [ Tdat 0 4 1 2 1%float 1%float 1%float 1 0;
      Tdat 0 6 1 1 1%float 1%float 1%float 3 0;
      Tdat 0 6 2 1 1%float 1%float 1%float 1 0;
      Tdat 0 7 0 0 1%float 1%float 1%float 6 0;
      Tdat 0 7 1 0 1%float 1%float 1%float 1 0;
      Tdat 0 7 2 0 1%float 1%float 1%float 2 0 ].
Proof. destruct fpts; vm_compute; reflexivity. Qed.

(** C2 (counterexample).  The scenario emits no record at timepoint 2, and
    no record from bin 0 to bin 2 at all. *)
Lemma C2_counterexample :
  filter (fun r => td_timepoint r = 2) (emitted (snd (scenario_run true))) = [] ∧
  filter (fun r => td_initial_bin r = 0%nat ∧ td_final_bin r = 2%nat)
         (emitted (snd (scenario_run true))) = [].
Proof. vm_compute. split; reflexivity. Qed.

(** C2 (as amended).  The scenario returns normally and emits exactly six
    records: [1 -> 2] at timepoint 4 (duration 1); [1 -> 1] (duration 3) and
    [2 -> 1] (duration 1) at timepoint 6; [0 -> 0] (duration 6), [1 -> 0]
    (duration 1) and [2 -> 0] (duration 2) at timepoint 7; all weights and
    populations are 1.0 and every first-passage time is 0. *)
Theorem C2_scenario_records fpts :
  fst (scenario_run fpts) = Ok tt ∧
  emitted (snd (scenario_run fpts)) =
    [ Tdat 0 4 1 2 1%float 1%float 1%float 1 0;
      Tdat 0 6 1 1 1%float 1%float 1%float 3 0;
      Tdat 0 6 2 1 1%float 1%float 1%float 1 0;
      Tdat 0 7 0 0 1%float 1%float 1%float 6 0;
      Tdat 0 7 1 0 1%float 1%float 1%float 1 0;
      Tdat 0 7 2 0 1%float 1%float 1%float 2 0 ].
Proof.
  split; [destruct fpts; vm_compute; reflexivity | apply scenario_run_emitted].
Qed.

(** C3 (counterexample).  The scenario emits the record [1 -> 1] when the
    trajectory re-enters bin 1 at timepoint 6. *)
Lemma C3_counterexample :
  ∃ r, r ∈ emitted (snd (scenario_run true)) ∧ td_initial_bin r = td_final_bin r.
Proof.
  exists (Tdat 0 6 1 1 1%float 1%float 1%float 3 0).
  split; [|reflexivity].
  rewrite scenario_run_emitted.
  apply list_elem_of_In. simpl. tauto.
Qed.

(** C3 (as amended).  Crossing detection never yields [ibin = fbin]; but
    for a detected crossing into [fbin], processed in state [w] (after
    lines 199-202), a record with [initial_bin = final_bin] is emitted
    exactly when [last_exit[fbin] > 0] and
    [last_entry[fbin] > last_completion[fbin][fbin]]: a return to a bin left
    earlier is recorded as a transition of the bin to itself. *)
Theorem C3_self_transitions timepoints assignments weights bin_pops w block c tdat :
  c ∈ crossings_of timepoints assignments weights bin_pops ->
  live_ok w -> (c_fbin c < n_bins (self w))%nat ->
  c_ibin c ≠ c_fbin c ∧
  ∃ rows w',
    complete_transitions (self w) block c tdat w = (Ok (tdat ++ rows), w') ∧
    emitted w' = emitted w ++ rows ∧
    ((∃ r, r ∈ rows ∧ td_initial_bin r = td_final_bin r) ↔
     0 < read1 (hp w) (last_exit (self w)) !!! c_fbin c ∧
     (read2 (hp w) (last_completion (self w)) !!! c_fbin c) !!! c_fbin c
       < read1 (hp w) (last_entry (self w)) !!! c_fbin c).
Proof.
  intros Hc [Hr _] Hf. split; [by eapply crossings_of_distinct|].
  destruct (complete_transitions_ok (self w) block c tdat w Hr Hf)
    as (col & _ & Hlen & Hcol & E).
  exists (completed_rows (self w) block c (hp w) col),
         (completed_world (self w) block c col w).
  split; [exact E|]. split; [reflexivity|]. split.
  - intros (r & Hin & Heq).
    apply elem_of_completed_rows in Hin as (i & Hi & ->); [|done..].
    simpl in Heq. subst i.
    apply completed_lookup in Hi as (Hlt & A & B); [|done..].
    rewrite <- (Hcol _ Hlt). done.
  - intros (A & B). rewrite <- (Hcol _ Hf) in B.
    eexists. split.
    + apply elem_of_completed_rows; [done..|]. exists (c_fbin c).
      split; [|reflexivity]. by apply completed_lookup.
    + reflexivity.
Qed.

Lemma C3_self_transitions_witness :
  c_ibin third_crossing ≠ c_fbin third_crossing ∧
  ∃ rows w',
    complete_transitions (self at_third_crossing) 0 third_crossing []
      at_third_crossing = (Ok ([] ++ rows), w') ∧
    emitted w' = emitted at_third_crossing ++ rows ∧
    ((∃ r, r ∈ rows ∧ td_initial_bin r = td_final_bin r) ↔
     0 < read1 (hp at_third_crossing)
           (last_exit (self at_third_crossing)) !!! c_fbin third_crossing ∧
     (read2 (hp at_third_crossing)
        (last_completion (self at_third_crossing)) !!! c_fbin third_crossing)
       !!! c_fbin third_crossing
       < read1 (hp at_third_crossing)
           (last_entry (self at_third_crossing)) !!! c_fbin third_crossing) ∧
    ∃ r, r ∈ rows ∧ td_initial_bin r = td_final_bin r.
Proof.
  destruct (C3_self_transitions
              (arange 0 (length scenario_assignments)) scenario_assignments
              scenario_weights scenario_bin_pops
              at_third_crossing 0 third_crossing [])
    as (Hne & rows & w' & E & He & Hiff).
  - vm_compute. apply list_elem_of_In. simpl. tauto.
  - apply live_ok_at_third_crossing.
  - vm_compute. lia.
  - split; [exact Hne|]. exists rows, w'. repeat (split; [assumption|]).
    apply Hiff. vm_compute. split; reflexivity.
Defined.

(** ** Snapshots *)

(** The arrays a snapshot refers to, read through its references. *)
Definition sd_arrays (h : heap) (s : state_dict) :=
  (read1 h (sd_last_entry s), read1 h (sd_last_exit s),
   read2 h (sd_last_completion s),
   readw h (sd_weight_last_exit s), readw h (sd_bin_pops_last_exit s)).

(** C4 (the code at the failing input).  After the scenario, take a
    snapshot [s], restore it and continue the trajectory through bins 1 and
    2: the arrays of [s] are overwritten, because [set_state] stores the
    snapshot's arrays themselves where [get_state] stores copies. *)
Theorem C4_set_state_shares_storage :
  ∃ s w2 w4,
    get_state (snd (scenario_run true)) = (Ok s, w2) ∧
    (set_state s ;;;
     continue_accumulation [1; 2]%nat [1%float; 1%float]
       [onehot 3 1; onehot 3 2] 0) w2 = (Ok tt, w4) ∧
    last_exit (self w4) = sd_last_exit s ∧
    sd_arrays (hp w2) s =
      ([7; 6; 4], [2; 7; 6], [[7; 0; 0]; [7; 6; 4]; [7; 6; 0]],
       [1%float; 1%float; 1%float], [1%float; 1%float; 1%float]) ∧
    sd_arrays (hp w4) s =
      ([7; 8; 9], [8; 9; 6], [[7; 8; 9]; [7; 8; 9]; [7; 6; 9]],
       [1%float; 1%float; 1%float], [1%float; 1%float; 1%float]).
Proof.
  eexists _, _, _. split; [vm_compute; reflexivity|].
  split; [vm_compute; reflexivity|].
  vm_compute. repeat split; reflexivity.
Qed.

(** ** Buffer capacity *)

(** The records written to the store: [output_tdat_ds[:output_tdat_offset]]. *)
Definition written (w : world) : list (option tdat_row) :=
  match output_tdat_ds (self w) with
  | Some ds => take (output_tdat_offset (self w)) ds
  | None => []
  end.

(** The scenario followed by the final flush, with buffer capacity [cap]. *)
Definition scenario_written (cap : Z) : list (option tdat_row) :=
  written (snd ((start_accumulation scenario_assignments scenario_weights
                   scenario_bin_pops 0 ;;;
                 flush_transition_data) (init 3 true cap))).

(** C5 (the code at the failing input).  With capacities 100 and 524288
    the store receives the six records of the scenario; with capacity 10 it
    receives fifteen (the first three, then all six, then all six again) and
    with capacity 1 sixteen: the list [tdat] is written again in full each
    time [len(tdat) > tdat_maxlen], and once more after the loop. *)
Theorem C5_capacity_changes_store :
  let rows := emitted (snd (scenario_run true)) in
  scenario_written 524288 = Some <$> rows ∧
  scenario_written 100 = Some <$> rows ∧
  scenario_written 10 = Some <$> (take 3 rows ++ rows ++ rows) ∧
  scenario_written 1 = Some <$> (take 1 rows ++ take 3 rows ++ rows ++ rows).
Proof. vm_compute. repeat split; reflexivity. Qed.

(** ** [clear_state] in closed form *)

Definition cleared (w : world) : world :=
  let h := hp w in
  let a := self w in
  let n := n_bins a in
  World
    (Heap ((idx1 h ++ [zeros1 n]) ++ [zeros1 n]) (idx2 h ++ [zeros2 n])
          ((wts h ++ [zerosw n]) ++ [zerosw n]))
    (Accumulator (calc_fpts a) n (tdat_buffersize a) (tdat_buffer a)
       (output_tdat_offset a) (output_tdat_ds a) (n_trans a)
       (length (idx1 h)) (S (length (idx1 h))) (length (idx2 h))
       (length (wts h)) (S (length (wts h))) 0 None None)
    (emitted w).

Lemma clear_state_eq w : clear_state w = (Ok tt, cleared w).
Proof.
  destruct w as [[h1 h2 hw] a em].
  unfold clear_state, cleared.
  cbv [bind get_self new1 new2 neww modify_self alloc1 alloc2 allocw hp self
       emitted n_bins idx1 idx2 wts set_last_exit set_last_entry
       set_last_completion set_weight_last_exit set_bin_pops_last_exit
       set_timepoint set_last_bin set_last_bin_pop calc_fpts tdat_buffersize
       tdat_buffer output_tdat_offset output_tdat_ds n_trans last_exit
       last_entry last_completion weight_last_exit bin_pops_last_exit
       timepoint last_bin last_bin_pop].
  rewrite !length_app. simpl. rewrite !Nat.add_1_r. reflexivity.
Qed.

Lemma refs_ok_cleared w : refs_ok (self (cleared w)) (hp (cleared w)).
Proof.
  unfold refs_ok, shaped1, shaped2, shapedw, cleared, zeros1, zerosw. simpl.
  split; [|split; [|split; [|split]]].
  - rewrite lookup_app_l by (rewrite length_app; simpl; lia).
    rewrite list_lookup_middle by done. simpl. by rewrite length_replicate.
  - rewrite (list_lookup_middle _ [] _ (S (length (idx1 (hp w)))))
      by (rewrite length_app; simpl; lia).
    simpl. by rewrite length_replicate.
  - rewrite list_lookup_middle by done. simpl. f_equal.
    apply matrix_ok_zeros2.
  - rewrite lookup_app_l by (rewrite length_app; simpl; lia).
    rewrite list_lookup_middle by done. simpl. by rewrite length_replicate.
  - rewrite (list_lookup_middle _ [] _ (S (length (wts (hp w)))))
      by (rewrite length_app; simpl; lia).
    simpl. by rewrite length_replicate.
Qed.

(** ** Missing prior state and empty segments *)

(** C9 (counterexample).  On a fresh accumulator [continue_accumulation]
    raises the [TypeError] of storing the unset [last_bin] into the integer
    array [aug_assign]; the class has no error of its own for a missing
    prior state. *)
Lemma C9_counterexample :
  continue_accumulation [1%nat] [1%float] [onehot 3 1] 0 (fresh3 true)
  = (Raise TypeError, fresh3 true).
Proof. vm_compute. reflexivity. Qed.

(** C9 (as amended).  When [last_bin] is unset, [continue_accumulation]
    fails with a [TypeError], whatever the segment, and leaves the
    accumulator, the store and the emitted records as they were. *)
Theorem C9_continue_without_cursor w assignments weights bin_pops block :
  last_bin (self w) = None ->
  continue_accumulation assignments weights bin_pops block w = (Raise TypeError, w).
Proof.
  intros H. unfold continue_accumulation.
  erewrite bind_ok by reflexivity.
  erewrite bind_raise by (rewrite H; reflexivity). reflexivity.
Qed.

Lemma C9_continue_without_cursor_witness :
  continue_accumulation scenario_assignments scenario_weights scenario_bin_pops 0
    (fresh3 false) = (Raise TypeError, fresh3 false).
Proof. apply C9_continue_without_cursor. reflexivity. Defined.

(** C10 (counterexample).  After the scenario, [continue_accumulation]
    with a zero-length segment does not complete: it raises [IndexError]
    (from [bin_pops[0]], read for the width of the synthetic population
    row). *)
Lemma C10_counterexample :
  fst (scenario_run true) = Ok tt ∧
  continue_accumulation [] [] [] 0 (snd (scenario_run true))
  = (Raise IndexError, snd (scenario_run true)).
Proof. vm_compute. split; reflexivity. Qed.

(** C10 (as amended).  [start_accumulation] with zero-length arrays fails
    with [IndexError] (from [timepoints[-1]], after the per-trajectory state
    has been reset); [continue_accumulation] with a zero-length segment
    fails as well, with [TypeError] when [last_bin] is unset and with
    [IndexError] otherwise, and leaves the cursor, the tracking arrays,
    [n_trans] and the buffer unchanged. *)
Theorem C10_empty_segment w block :
  fst (start_accumulation [] [] [] block w) = Raise IndexError ∧
  continue_accumulation [] [] [] block w =
    (Raise (match last_bin (self w) with
            | Some _ => IndexError
            | None => TypeError
            end), w).
Proof.
  split.
  - unfold start_accumulation.
    erewrite bind_ok by apply clear_state_eq.
    rewrite accumulate_transitions_eq by reflexivity.
    erewrite bind_ok by reflexivity.
    destruct (record_transition_data_ok [] (cleared w)) as (a' & R & _).
    erewrite bind_ok by exact R. reflexivity.
  - unfold continue_accumulation.
    erewrite bind_ok by reflexivity.
    destruct (last_bin (self w)).
    + erewrite bind_ok by reflexivity.
      erewrite bind_raise by reflexivity. reflexivity.
    + erewrite bind_raise by reflexivity. reflexivity.
Qed.

(** ** What the loop can change *)

(** The attributes the detection loop reads but never assigns. *)
Definition fixed (a : accumulator) :=
  (calc_fpts a, n_bins a, tdat_buffersize a,
   (last_exit a, last_entry a, last_completion a, weight_last_exit a,
    bin_pops_last_exit a)).

(** A computation that leaves the store, the emitted records, the counts
    and the tracking references as they are. *)
Definition silent {A} (m : M A) : Prop :=
  ∀ w, hp (snd (m w)) = hp w ∧ emitted (snd (m w)) = emitted w ∧
       fixed (self (snd (m w))) = fixed (self w) ∧
       n_trans (self (snd (m w))) = n_trans (self w).

Lemma silent_ret {A} (a : A) : silent (ret a).
Proof. by intros w. Qed.

Lemma silent_raise {A} e : silent (@raise A e).
Proof. by intros w. Qed.

Lemma silent_bind {A B} (m : M A) (k : A -> M B) :
  silent m -> (∀ a, silent (k a)) -> silent (bind m k).
Proof.
  intros Hm Hk w. unfold bind. destruct (Hm w) as (H1 & H2 & H3 & H4).
  destruct (m w) as [[a|e] w1]; simpl in *; [|done].
  destruct (Hk a w1) as (K1 & K2 & K3 & K4).
  repeat split; congruence.
Qed.

Lemma silent_getlast {A} (xs : list A) : silent (getlast xs).
Proof. unfold getlast. destruct (last xs); [apply silent_ret|apply silent_raise]. Qed.

Lemma silent_getitem {A} (xs : list A) i : silent (getitem xs i).
Proof. unfold getitem. destruct (xs !! i); [apply silent_ret|apply silent_raise]. Qed.

Lemma silent_bool_index {A} (xs : list A) mask : silent (bool_index xs mask).
Proof. unfold bool_index. case_bool_decide; [apply silent_ret|apply silent_raise]. Qed.

Lemma silent_get_self : silent get_self.
Proof. by intros w. Qed.

Lemma silent_set_timepoint v : silent (modify_self (set_timepoint v)).
Proof. by intros w. Qed.
Lemma silent_set_last_bin v : silent (modify_self (set_last_bin v)).
Proof. by intros w. Qed.
Lemma silent_set_last_bin_pop v : silent (modify_self (set_last_bin_pop v)).
Proof. by intros w. Qed.

Lemma non_io_fixed a a' :
  non_io a' = non_io a -> fixed a' = fixed a ∧ n_trans a' = n_trans a.
Proof.
  unfold non_io, fixed. intros H. injection H as -> -> -> -> -> -> -> -> -> _ _ _.
  done.
Qed.

Lemma silent_record_transition_data tdat : silent (record_transition_data tdat).
Proof.
  intros w. destruct (record_transition_data_ok tdat w) as (a' & -> & N).
  simpl. apply non_io_fixed in N as [N1 N2]. done.
Qed.

Lemma silent_flush_transition_data : silent flush_transition_data.
Proof.
  intros w. destruct (flush_transition_data_ok w) as (a' & -> & N & _).
  simpl. apply non_io_fixed in N as [N1 N2]. done.
Qed.

(** Induction over the loop: a property kept by every iteration, whether
    it returns or raises, holds when the loop ends. *)
Lemma for_crossings_ind (P : world -> Prop) a0 block :
  (∀ c tdat w, P w -> P (snd (crossing_event a0 block c tdat w))) ->
  ∀ cs tdat w, P w -> P (snd (for_crossings a0 block cs tdat w)).
Proof.
  intros Hstep. induction cs as [|c cs IH]; intros tdat w HP; simpl.
  - done.
  - unfold bind. specialize (Hstep c tdat w HP).
    destruct (crossing_event a0 block c tdat w) as [[tdat'|e] w1]; simpl in *.
    + by apply IH.
    + done.
Qed.

Lemma crossing_event_fixed a0 block c tdat w :
  fixed (self (snd (crossing_event a0 block c tdat w))) = fixed (self w).
Proof.
  destruct (crossing_event_cases a0 block c tdat w)
    as [(e & w1 & -> & Hs & _)|(w1 & col & a' & E1 & _ & -> & N)]; simpl.
  - by rewrite Hs.
  - apply non_io_fixed in N as [N _]. rewrite N. simpl.
    destruct (heap_only_record_crossing a0 c) as [Hfoot _].
    destruct (Hfoot w) as (Hs & _). rewrite E1 in Hs. simpl in Hs.
    unfold fixed. simpl. by rewrite Hs.
Qed.

Lemma crossing_event_shapes_kept a0 block c tdat w :
  refs_ok a0 (hp w) ->
  shapes_kept (hp w) (hp (snd (crossing_event a0 block c tdat w))).
Proof.
  intros Hr.
  destruct (crossing_event_cases a0 block c tdat w)
    as [(e & w1 & -> & _ & _ & K)|(w1 & col & a' & E1 & Hcol & -> & N)]; simpl.
  - done.
  - destruct (heap_only_record_crossing a0 c) as [Hfoot _].
    destruct (Hfoot w) as (_ & _ & K). rewrite E1 in K. simpl in K.
    eapply shapes_kept_trans; [exact K|].
    assert (Hr1 := refs_ok_kept _ _ _ K Hr).
    eapply shapes_kept_set_masked.
    + by destruct Hr1 as (_ & _ & ? & _).
    + apply length_completed; [done|].
      destruct Hr1 as (_ & _ & H2 & _). apply shaped2_read in H2.
      apply length_mapM in Hcol. rewrite <- Hcol.
      by eapply matrix_ok_length.
Qed.

(** ** Counting emitted records *)

(** The number of records from bin [i] to bin [j]. *)
Definition count_pair (i j : nat) (rows : list tdat_row) : nat :=
  length (filter (fun r => td_initial_bin r = i ∧ td_final_bin r = j) rows).

Lemma count_pair_app i j rows1 rows2 :
  count_pair i j (rows1 ++ rows2) = (count_pair i j rows1 + count_pair i j rows2)%nat.
Proof. unfold count_pair. by rewrite filter_app, length_app. Qed.

Lemma count_pair_compress (f : nat -> tdat_row) fbin i j mask k :
  (∀ x, td_initial_bin (f x) = x ∧ td_final_bin (f x) = fbin) ->
  count_pair i j (f <$> compress mask (seq k (length mask))) =
  if decide (j = fbin ∧ (k <= i)%nat ∧ mask !! (i - k)%nat = Some true)
  then 1%nat else 0%nat.
Proof.
  intros Hf. revert k. induction mask as [|b mask IH]; intros k;
    cbn [compress seq length].
  - rewrite decide_False; [done|]. by intros (_ & _ & ?).
  - assert (Hrec : count_pair i j (f <$> compress mask (seq (S k) (length mask))) =
                   if decide (j = fbin ∧ (S k <= i)%nat ∧
                              (b :: mask) !! (i - k)%nat = Some true)
                   then 1%nat else 0%nat).
    { rewrite IH. apply decide_ext.
      split; intros (? & ? & Hm); (split; [done|]); (split; [done|]).
      - by replace (i - k)%nat with (S (i - S k)) by lia.
      - by replace (i - k)%nat with (S (i - S k)) in Hm by lia. }
    unfold count_pair in *. destruct b.
    + rewrite fmap_cons, filter_cons.
      destruct (Hf k) as [Hi Hj]. rewrite Hi, Hj.
      destruct (decide (k = i ∧ fbin = j)) as [[-> ->]|Hk].
      * cbn [length]. rewrite Hrec. rewrite decide_False by lia.
        rewrite decide_True; [done|].
        split; [done|]. split; [lia|].
        by replace (i - i)%nat with 0%nat by lia.
      * rewrite Hrec. apply decide_ext. split.
        -- intros (? & ? & ?). split; [done|]. split; [lia|done].
        -- intros (-> & ? & Hm). split; [done|]. split; [|done].
           destruct (decide (i = k)) as [->|]; [|lia].
           exfalso. by apply Hk.
    + rewrite Hrec. apply decide_ext. split.
      * intros (? & ? & ?). split; [done|]. split; [lia|done].
      * intros (-> & ? & Hm). split; [done|]. split; [|done].
        destruct (decide (i = k)) as [->|]; [|lia].
        by replace (k - k)%nat with 0%nat in Hm by lia.
Qed.

Lemma count_pair_completed_rows a0 block c h col i j :
  refs_ok a0 h -> length col = n_bins a0 ->
  count_pair i j (completed_rows a0 block c h col) =
  if decide (j = c_fbin c ∧ completed a0 h col !! i = Some true)
  then 1%nat else 0%nat.
Proof.
  intros Hr Hc. unfold completed_rows.
  rewrite <- (length_completed a0 h col Hr Hc) at 1.
  rewrite (count_pair_compress _ (c_fbin c)) by done.
  replace (i - 0)%nat with i by lia.
  apply decide_ext. split.
  - by intros (? & _ & ?).
  - intros [? ?]. split; [done|]. split; [lia|done].
Qed.

Lemma incr_masked_lookup n mask fbin m i j :
  matrix_ok n m -> length mask = n -> (i < n)%nat -> (j < n)%nat ->
  (incr_masked mask fbin m !!! i) !!! j =
  if decide (j = fbin ∧ mask !! i = Some true)
  then wrap64 ((m !!! i) !!! j + 1) else (m !!! i) !!! j.
Proof.
  intros Hm Hl Hi Hj.
  assert (Hlm := matrix_ok_length _ _ Hm).
  destruct (lookup_lt_is_Some_2 m i) as [row Hrow]; [lia|].
  destruct (lookup_lt_is_Some_2 mask i) as [b Hb]; [lia|].
  assert (Hr := matrix_ok_row _ _ _ _ Hm Hrow).
  rewrite (list_lookup_total_correct m i row Hrow).
  erewrite (list_lookup_total_correct (incr_masked mask fbin m) i).
  2:{ unfold incr_masked. rewrite lookup_zip_with, Hb, Hrow. reflexivity. }
  rewrite Hb. destruct b.
  - case_decide as H.
    + destruct H as [-> _]. rewrite list_lookup_total_alter.
      rewrite decide_True; [done|]. split; [done|lia].
    + rewrite list_lookup_total_alter_ne; [done|].
      intros ->. by apply H.
  - rewrite decide_False; [done|]. by intros [_ [=]].
Qed.

(** ** Count consistency along the loop *)

Definition counts_match (w : world) : Prop :=
  ∀ i j, (i < n_bins (self w))%nat -> (j < n_bins (self w))%nat ->
    (n_trans (self w) !!! i) !!! j =
    wrap64 (Z.of_nat (count_pair i j (emitted w))).

(** The loop invariant: the loop's locals [a0] still describe the
    accumulator, shapes are right, and the counts match the records. *)
Definition count_inv (a0 : accumulator) (w : world) : Prop :=
  fixed (self w) = fixed a0 ∧ live_ok w ∧ counts_match w.

Lemma refs_ok_fixed a a' h : fixed a = fixed a' -> refs_ok a h -> refs_ok a' h.
Proof.
  unfold fixed, refs_ok. intros H. injection H as _ -> _ -> -> -> -> ->. done.
Qed.

Lemma fixed_n_bins a a' : fixed a = fixed a' -> n_bins a = n_bins a'.
Proof. unfold fixed. intros H. by injection H. Qed.

Lemma crossing_event_count_inv a0 block c tdat w :
  count_inv a0 w -> count_inv a0 (snd (crossing_event a0 block c tdat w)).
Proof.
  intros (Hfix & [Hr Hm] & Hc).
  assert (Hn := fixed_n_bins _ _ Hfix).
  assert (Hr0 : refs_ok a0 (hp w)) by (by eapply refs_ok_fixed).
  destruct (heap_only_record_crossing a0 c) as [Hfoot _].
  destruct (Hfoot w) as (Hs & He & K).
  destruct (crossing_event_cases a0 block c tdat w)
    as [(e & w1 & -> & Hs1 & He1 & K1)|(w1 & col & a' & E1 & Hcol & -> & N)];
    simpl.
  - split; [by rewrite Hs1|]. split.
    + split; rewrite Hs1; [by eapply refs_ok_kept|done].
    + intros i j. rewrite Hs1, He1. apply Hc.
  - rewrite E1 in Hs, He, K. simpl in Hs, He, K.
    apply non_io_fixed in N as [N1 N2]. simpl in N1, N2.
    assert (Hr1 : refs_ok a0 (hp w1)) by (by eapply refs_ok_kept).
    assert (Hlen : length col = n_bins a0).
    { destruct Hr1 as (_ & _ & H2 & _). apply shaped2_read in H2.
      apply length_mapM in Hcol. rewrite <- Hcol. by eapply matrix_ok_length. }
    assert (Hmask := length_completed a0 (hp w1) col Hr1 Hlen).
    assert (Hfix' : fixed a' = fixed a0).
    { rewrite N1. unfold fixed. simpl. rewrite Hs. exact Hfix. }
    assert (Hn' := fixed_n_bins _ _ Hfix').
    split; [exact Hfix'|]. split.
    + split; simpl.
      * apply (refs_ok_fixed a0); [done|].
        eapply refs_ok_kept; [|exact Hr1].
        eapply shapes_kept_set_masked; [|exact Hmask].
        by destruct Hr1 as (_ & _ & ? & _).
      * rewrite N2, Hn'. apply matrix_ok_incr_masked; [done|].
        rewrite Hs, <- Hn. exact Hm.
    + intros i j Hi Hj. simpl in *. rewrite Hn' in Hi, Hj.
      rewrite N2, He, count_pair_app, Nat2Z.inj_add.
      rewrite (incr_masked_lookup (n_bins a0)); [|by rewrite Hs, <- Hn|done..].
      rewrite (count_pair_completed_rows a0 block c (hp w1) col i j Hr1 Hlen).
      rewrite Hs. rewrite (Hc i j) by lia.
      case_decide.
      * rewrite wrap64_succ. done.
      * by rewrite Z.add_0_r.
Qed.

Lemma for_crossings_count_inv a0 block cs tdat w :
  count_inv a0 w -> count_inv a0 (snd (for_crossings a0 block cs tdat w)).
Proof.
  apply for_crossings_ind. intros c t w'. apply crossing_event_count_inv.
Qed.

Lemma for_crossings_shapes_kept a0 block cs tdat w :
  refs_ok a0 (hp w) ->
  shapes_kept (hp w) (hp (snd (for_crossings a0 block cs tdat w))).
Proof.
  intros Hr.
  apply (for_crossings_ind (fun w' => shapes_kept (hp w) (hp w')) a0 block).
  - intros c t w' K. eapply shapes_kept_trans; [exact K|].
    apply crossing_event_shapes_kept. by eapply refs_ok_kept.
  - apply shapes_kept_refl.
Qed.

Lemma bind_silent_suffix {A B} (m : M A) (k : A -> M B) w :
  (∀ a, silent (k a)) ->
  hp (snd (bind m k w)) = hp (snd (m w)) ∧
  emitted (snd (bind m k w)) = emitted (snd (m w)) ∧
  fixed (self (snd (bind m k w))) = fixed (self (snd (m w))) ∧
  n_trans (self (snd (bind m k w))) = n_trans (self (snd (m w))).
Proof.
  intros Hk. unfold bind. destruct (m w) as [[a|e] w1]; simpl; [|done].
  apply Hk.
Qed.

Ltac silent_steps :=
  repeat first [ apply silent_record_transition_data | apply silent_getlast
               | apply silent_getitem | apply silent_set_timepoint
               | apply silent_set_last_bin | apply silent_set_last_bin_pop
               | apply silent_flush_transition_data | apply silent_get_self
               | apply silent_ret | apply silent_raise
               | apply silent_bind; [|intros ?] ].

(** Every call of [_accumulate_transitions] is one run of the loop, up to
    output fields and cursor. *)
Lemma accumulate_transitions_loop timepoints assignments weights bin_pops block w :
  ∃ cs,
    let w1 := snd (for_crossings (self w) block cs [] w) in
    let w' := snd (_accumulate_transitions timepoints assignments weights
                     bin_pops block w) in
    hp w' = hp w1 ∧ emitted w' = emitted w1 ∧
    fixed (self w') = fixed (self w1) ∧ n_trans (self w') = n_trans (self w1).
Proof.
  unfold _accumulate_transitions. fold (trans_occur_of assignments).
  unfold bool_index.
  repeat (case_bool_decide;
          [ erewrite bind_ok by reflexivity
          | exists []; rewrite (bind_raise _ _ w IndexError w) by reflexivity;
            simpl; done ]).
  erewrite bind_ok by reflexivity.
  match goal with
  | |- context [for_crossings _ _ ?cs _] => exists cs
  end.
  cbv zeta. apply bind_silent_suffix. intros tdat. silent_steps.
Qed.

(** ** Sessions: sequences of calls on one accumulator *)

(** A call of the public interface.  [SetState k] restores the [k]-th
    snapshot that [get_state] has returned so far. *)
Inductive call :=
| Start (assignments : list nat) (weights : list weight)
        (bin_pops : list (list weight)) (block : Z)
| Continue (assignments : list nat) (weights : list weight)
           (bin_pops : list (list weight)) (block : Z)
| ClearState
| Clear
| GetState
| SetState (k : nat)
| Flush.

(** The accumulator together with what its caller holds: the snapshots
    returned so far.  [emitted (now s)] is the record history since
    construction or the last [clear()]. *)
Record session := Session {
  now : world;
  snapshots : list state_dict
}.

Definition do_call (c : call) (s : session) : result unit * session :=
  match c with
  | Start a ws ps b =>
      let '(r, w) := start_accumulation a ws ps b (now s) in
      (r, Session w (snapshots s))
  | Continue a ws ps b =>
      let '(r, w) := continue_accumulation a ws ps b (now s) in
      (r, Session w (snapshots s))
  | ClearState =>
      let '(r, w) := clear_state (now s) in (r, Session w (snapshots s))
  | Clear =>
      let '(r, w) := clear (now s) in
      (r, Session (World (hp w) (self w) []) (snapshots s))
  | GetState =>
      match get_state (now s) with
      | (Ok sd, w) => (Ok tt, Session w (snapshots s ++ [sd]))
      | (Raise e, w) => (Raise e, Session w (snapshots s))
      end
  | SetState k =>
      match snapshots s !! k with
      | Some sd =>
          let '(r, w) := set_state sd (now s) in (r, Session w (snapshots s))
      | None => (Ok tt, s)
      end
  | Flush =>
      let '(r, w) := flush_transition_data (now s) in
      (r, Session w (snapshots s))
  end.

(** A caller that goes on after a call that raised. *)
Fixpoint run (cs : list call) (s : session) : session :=
  match cs with
  | [] => s
  | c :: cs => run cs (snd (do_call c s))
  end.

Definition is_ok {A} (r : result A) : bool :=
  match r with Ok _ => true | Raise _ => false end.

(** Every call of the sequence returns normally. *)
Fixpoint all_return (cs : list call) (s : session) : bool :=
  match cs with
  | [] => true
  | c :: cs => is_ok (fst (do_call c s)) && all_return cs (snd (do_call c s))
  end.

Definition new_session (nbins : nat) (fpts : bool) (buffersize : Z) : session :=
  Session (init nbins fpts buffersize) [].

Lemma run_app cs1 cs2 s : run (cs1 ++ cs2) s = run cs2 (run cs1 s).
Proof. revert s. induction cs1 as [|c cs1 IH]; intros s; simpl; [done|apply IH]. Qed.

(** ** [get_state] and [clear] in closed form *)

Definition snapshot (w : world) : state_dict * heap :=
  let a := self w in
  let h := hp w in
  let '(len, h) := alloc1 (read1 h (last_entry a)) h in
  let '(lex, h) := alloc1 (read1 h (last_exit a)) h in
  let '(lc, h) := alloc2 (read2 h (last_completion a)) h in
  let '(wle, h) := allocw (readw h (weight_last_exit a)) h in
  let '(bple, h) := allocw (readw h (bin_pops_last_exit a)) h in
  (StateDict len lex lc wle bple (timepoint a) (last_bin a) (last_bin_pop a), h).

Lemma get_state_eq w :
  get_state w = (Ok (fst (snapshot w)), World (snd (snapshot w)) (self w) (emitted w)).
Proof. destruct w as [h a em]. reflexivity. Qed.

Lemma clear_eq w :
  clear w =
  (Ok tt,
   World (hp (cleared w))
     (set_output_tdat_ds None
        (set_output_tdat_offset 0
           (set_tdat_buffer []
              (set_n_trans (zeros2 (n_bins (self w))) (self (cleared w))))))
     (emitted w)).
Proof.
  unfold clear. erewrite bind_ok by apply clear_state_eq. reflexivity.
Qed.

(** ** Invariants of a session *)

Definition snap_ok (n : nat) (h : heap) (sd : state_dict) : Prop :=
  shaped1 n h (sd_last_entry sd) ∧ shaped1 n h (sd_last_exit sd) ∧
  shaped2 n h (sd_last_completion sd) ∧
  shapedw n h (sd_weight_last_exit sd) ∧
  shapedw n h (sd_bin_pops_last_exit sd).

Definition session_inv (n : nat) (s : session) : Prop :=
  n_bins (self (now s)) = n ∧ live_ok (now s) ∧ counts_match (now s) ∧
  Forall (snap_ok n (hp (now s))) (snapshots s).

(** What every call but [clear] and [set_state] guarantees. *)
Definition steady {A} (m : M A) : Prop :=
  ∀ w, live_ok w -> counts_match w ->
    n_bins (self (snd (m w))) = n_bins (self w) ∧
    live_ok (snd (m w)) ∧ counts_match (snd (m w)) ∧
    shapes_kept (hp w) (hp (snd (m w))) ∧
    ∃ rows, emitted (snd (m w)) = emitted w ++ rows.

Lemma snap_ok_kept n h h' sd : shapes_kept h h' -> snap_ok n h sd -> snap_ok n h' sd.
Proof.
  intros (K1 & K2 & K3) (H1 & H2 & H3 & H4 & H5). repeat split; eauto.
Qed.

Lemma same_view w w' :
  hp w' = hp w -> emitted w' = emitted w ->
  fixed (self w') = fixed (self w) -> n_trans (self w') = n_trans (self w) ->
  live_ok w -> counts_match w ->
  n_bins (self w') = n_bins (self w) ∧ live_ok w' ∧ counts_match w'.
Proof.
  intros Hh He Hf Hn [Hr Hm] Hc.
  assert (Hb := fixed_n_bins _ _ Hf).
  split; [done|]. split.
  - split.
    + rewrite Hh. by apply (refs_ok_fixed (self w)).
    + by rewrite Hb, Hn.
  - intros i j. rewrite Hb, Hn, He. apply Hc.
Qed.

Lemma silent_steady {A} (m : M A) : silent m -> steady m.
Proof.
  intros Hs w Hl Hc. destruct (Hs w) as (H1 & H2 & H3 & H4).
  destruct (same_view w (snd (m w)) H1 H2 H3 H4 Hl Hc) as (? & ? & ?).
  split; [done|]. split; [done|]. split; [done|]. split.
  - rewrite H1. apply shapes_kept_refl.
  - exists []. by rewrite app_nil_r.
Qed.

Lemma crossing_event_emitted a0 block c tdat w :
  ∃ rows, emitted (snd (crossing_event a0 block c tdat w)) = emitted w ++ rows.
Proof.
  destruct (crossing_event_cases a0 block c tdat w)
    as [(e & w1 & -> & _ & He & _)|(w1 & col & a' & E1 & _ & -> & _)]; simpl.
  - exists []. by rewrite app_nil_r.
  - destruct (heap_only_record_crossing a0 c) as [Hfoot _].
    destruct (Hfoot w) as (_ & He & _). rewrite E1 in He. simpl in He.
    rewrite He. eauto.
Qed.

Lemma for_crossings_emitted a0 block cs tdat w :
  ∃ rows, emitted (snd (for_crossings a0 block cs tdat w)) = emitted w ++ rows.
Proof.
  apply (for_crossings_ind (fun w' => ∃ rows, emitted w' = emitted w ++ rows)).
  - intros c t w' [rows E].
    destruct (crossing_event_emitted a0 block c t w') as [rows' E'].
    exists (rows ++ rows'). by rewrite E', E, app_assoc.
  - exists []. by rewrite app_nil_r.
Qed.

Lemma steady_accumulate_transitions timepoints assignments weights bin_pops block :
  steady (_accumulate_transitions timepoints assignments weights bin_pops block).
Proof.
  intros w Hl Hc.
  destruct (accumulate_transitions_loop timepoints assignments weights
              bin_pops block w) as (cs & H1 & H2 & H3 & H4).
  set (w1 := snd (for_crossings (self w) block cs [] w)) in *.
  destruct (for_crossings_count_inv (self w) block cs [] w) as (F & Hl1 & Hc1).
  { by split. }
  fold w1 in F, Hl1, Hc1.
  destruct (same_view w1 _ H1 H2 H3 H4 Hl1 Hc1) as (Hn & ? & ?).
  split; [by rewrite Hn, (fixed_n_bins _ _ F)|].
  split; [done|]. split; [done|]. split.
  - rewrite H1. apply for_crossings_shapes_kept. by destruct Hl.
  - rewrite H2. apply for_crossings_emitted.
Qed.

Lemma shapes_kept_cleared w : shapes_kept (hp w) (hp (cleared w)).
Proof.
  set (n := n_bins (self w)).
  set (h1 := snd (alloc1 (zeros1 n) (hp w))).
  set (h2 := snd (alloc1 (zeros1 n) h1)).
  set (h3 := snd (alloc2 (zeros2 n) h2)).
  set (h4 := snd (allocw (zerosw n) h3)).
  change (hp (cleared w)) with (snd (allocw (zerosw n) h4)).
  eapply shapes_kept_trans; [apply (shapes_kept_alloc1 _ (zeros1 n))|]. fold h1.
  eapply shapes_kept_trans; [apply (shapes_kept_alloc1 _ (zeros1 n))|]. fold h2.
  eapply shapes_kept_trans; [apply (shapes_kept_alloc2 _ (zeros2 n))|]. fold h3.
  eapply shapes_kept_trans; [apply (shapes_kept_allocw _ (zerosw n))|]. fold h4.
  apply (shapes_kept_allocw _ (zerosw n)).
Qed.

Lemma steady_clear_state : steady clear_state.
Proof.
  intros w [Hr Hm] Hc. rewrite clear_state_eq. simpl.
  split; [done|]. split.
  - split; [apply refs_ok_cleared|done].
  - split; [done|]. split; [apply shapes_kept_cleared|].
    exists []. by rewrite app_nil_r.
Qed.

Lemma steady_bind {A B} (m : M A) (k : A -> M B) :
  steady m -> (∀ a, steady (k a)) -> steady (bind m k).
Proof.
  intros Hm Hk w Hl Hc. unfold bind.
  destruct (Hm w Hl Hc) as (N1 & L1 & C1 & K1 & rows1 & E1).
  destruct (m w) as [[a|e] w1]; simpl in *.
  - destruct (Hk a w1 L1 C1) as (N2 & L2 & C2 & K2 & rows2 & E2).
    split; [congruence|]. split; [done|]. split; [done|].
    split; [by eapply shapes_kept_trans|].
    exists (rows1 ++ rows2). by rewrite E2, E1, app_assoc.
  - split; [done|]. split; [done|]. split; [done|]. split; [done|]. eauto.
Qed.

Lemma steady_start_accumulation a ws ps b : steady (start_accumulation a ws ps b).
Proof.
  unfold start_accumulation. apply steady_bind; [apply steady_clear_state|].
  intros _. apply steady_accumulate_transitions.
Qed.

Lemma steady_continue_accumulation a ws ps b : steady (continue_accumulation a ws ps b).
Proof.
  unfold continue_accumulation.
  apply steady_bind; [apply silent_steady, silent_get_self|]. intros acc.
  apply steady_bind.
  { apply silent_steady. destruct (last_bin acc); silent_steps. }
  intros lb. apply steady_bind; [apply silent_steady, silent_getitem|].
  intros row0. apply steady_bind.
  { apply silent_steady. case_bool_decide; silent_steps. }
  intros _. apply steady_accumulate_transitions.
Qed.

Lemma shaped1_alloc1 n h a :
  length a = n -> shaped1 n (snd (alloc1 a h)) (fst (alloc1 a h)).
Proof.
  intros H. unfold shaped1. simpl. rewrite list_lookup_middle by done.
  simpl. by rewrite H.
Qed.

Lemma shaped2_alloc2 n h m :
  matrix_ok n m -> shaped2 n (snd (alloc2 m h)) (fst (alloc2 m h)).
Proof.
  intros H. unfold shaped2. simpl. rewrite list_lookup_middle by done.
  simpl. by rewrite H.
Qed.

Lemma shapedw_allocw n h a :
  length a = n -> shapedw n (snd (allocw a h)) (fst (allocw a h)).
Proof.
  intros H. unfold shapedw. simpl. rewrite list_lookup_middle by done.
  simpl. by rewrite H.
Qed.

Lemma snapshot_shapes w :
  refs_ok (self w) (hp w) ->
  shapes_kept (hp w) (snd (snapshot w)) ∧
  snap_ok (n_bins (self w)) (snd (snapshot w)) (fst (snapshot w)).
Proof.
  intros Hr. unfold snapshot.
  set (a := self w) in *. set (n := n_bins a) in *.
  set (h1 := snd (alloc1 (read1 (hp w) (last_entry a)) (hp w))).
  set (h2 := snd (alloc1 (read1 h1 (last_exit a)) h1)).
  set (h3 := snd (alloc2 (read2 h2 (last_completion a)) h2)).
  set (h4 := snd (allocw (readw h3 (weight_last_exit a)) h3)).
  set (h5 := snd (allocw (readw h4 (bin_pops_last_exit a)) h4)).
  assert (K1 : shapes_kept (hp w) h1) by apply shapes_kept_alloc1.
  assert (K2 : shapes_kept h1 h2) by apply shapes_kept_alloc1.
  assert (K3 : shapes_kept h2 h3) by apply shapes_kept_alloc2.
  assert (K4 : shapes_kept h3 h4) by apply shapes_kept_allocw.
  assert (K5 : shapes_kept h4 h5) by apply shapes_kept_allocw.
  assert (R1 := refs_ok_kept _ _ _ K1 Hr).
  assert (R2 := refs_ok_kept _ _ _ K2 R1).
  assert (R3 := refs_ok_kept _ _ _ K3 R2).
  assert (R4 := refs_ok_kept _ _ _ K4 R3).
  assert (S1 : shaped1 n h1 (fst (alloc1 (read1 (hp w) (last_entry a)) (hp w)))).
  { apply shaped1_alloc1, shaped1_read. by destruct Hr as (_ & ? & _). }
  assert (S2 : shaped1 n h2 (fst (alloc1 (read1 h1 (last_exit a)) h1))).
  { apply shaped1_alloc1, shaped1_read. by destruct R1 as (? & _). }
  assert (S3 : shaped2 n h3 (fst (alloc2 (read2 h2 (last_completion a)) h2))).
  { apply shaped2_alloc2, shaped2_read. by destruct R2 as (_ & _ & ? & _). }
  assert (S4 : shapedw n h4 (fst (allocw (readw h3 (weight_last_exit a)) h3))).
  { apply shapedw_allocw, shapedw_read. by destruct R3 as (_ & _ & _ & ? & _). }
  assert (S5 : shapedw n h5 (fst (allocw (readw h4 (bin_pops_last_exit a)) h4))).
  { apply shapedw_allocw, shapedw_read. by destruct R4 as (_ & _ & _ & _ & ?). }
  change (shapes_kept (hp w) h5 ∧
          snap_ok n h5
            (StateDict (fst (alloc1 (read1 (hp w) (last_entry a)) (hp w)))
               (fst (alloc1 (read1 h1 (last_exit a)) h1))
               (fst (alloc2 (read2 h2 (last_completion a)) h2))
               (fst (allocw (readw h3 (weight_last_exit a)) h3))
               (fst (allocw (readw h4 (bin_pops_last_exit a)) h4))
               (timepoint a) (last_bin a) (last_bin_pop a))).
  split.
  - eauto using shapes_kept_trans.
  - destruct K2 as (K2a & _), K3 as (K3a & K3b & _),
      K4 as (K4a & K4b & K4c), K5 as (K5a & K5b & K5c).
    unfold snap_ok. simpl. repeat split; eauto 10.
Qed.

Lemma do_call_session_inv n c s :
  session_inv n s ->
  session_inv n (snd (do_call c s)) ∧
  (c ≠ Clear -> ∃ rows, emitted (now (snd (do_call c s))) = emitted (now s) ++ rows).
Proof.
  intros (Hn & Hl & Hc & Hs). destruct s as [w snaps]. simpl in *.
  assert (Hsteady : ∀ (m : M unit), steady m ->
            session_inv n (Session (snd (m w)) snaps) ∧
            ∃ rows, emitted (snd (m w)) = emitted w ++ rows).
  { intros m Hm. destruct (Hm w Hl Hc) as (N & L & C & K & E).
    split; [|done]. split; [simpl; congruence|]. split; [done|].
    split; [done|]. simpl. eapply Forall_impl; [exact Hs|].
    intros sd. by apply snap_ok_kept. }
  destruct c as [a ws ps b|a ws ps b| | | |k|]; unfold do_call;
    cbn [now snapshots].
  - destruct (Hsteady _ (steady_start_accumulation a ws ps b)) as [I E].
    destruct (start_accumulation a ws ps b w). simpl in *. done.
  - destruct (Hsteady _ (steady_continue_accumulation a ws ps b)) as [I E].
    destruct (continue_accumulation a ws ps b w). simpl in *. done.
  - destruct (Hsteady _ steady_clear_state) as [I E].
    destruct (clear_state w). simpl in *. done.
  - rewrite clear_eq. simpl. split; [|done].
    split; [done|]. split.
    + split; simpl; [apply refs_ok_cleared|]. apply matrix_ok_zeros2.
    + split.
      * intros i j Hi Hj. simpl in *. unfold zeros2.
        rewrite !lookup_total_replicate_2 by done. reflexivity.
      * simpl. eapply Forall_impl; [exact Hs|].
        intros sd. apply snap_ok_kept, shapes_kept_cleared.
  - rewrite get_state_eq. simpl.
    destruct Hl as [Hr Hm]. destruct (snapshot_shapes w Hr) as [K S].
    split.
    + split; [done|]. split; [split; [by eapply refs_ok_kept|done]|].
      split; [done|]. simpl. apply Forall_app. split.
      * eapply Forall_impl; [exact Hs|]. intros sd. by apply snap_ok_kept.
      * apply Forall_singleton. by rewrite <- Hn.
    + intros _. exists []. by rewrite app_nil_r.
  - destruct (snaps !! k) as [sd|] eqn:E; simpl.
    + split; [|intros _; exists []; by rewrite app_nil_r].
      split; [done|]. split.
      * destruct Hl as [Hr Hm]. split; [|done]. simpl.
        rewrite Forall_lookup in Hs. specialize (Hs _ _ E).
        destruct Hs as (S1 & S2 & S3 & S4 & S5).
        unfold refs_ok. simpl. rewrite Hn. done.
      * split; [done|]. done.
    + split; [done|]. intros _. exists []. by rewrite app_nil_r.
  - destruct (Hsteady _ (silent_steady _ silent_flush_transition_data)) as [I E].
    destruct (flush_transition_data w). simpl in *. done.
Qed.

Lemma session_inv_new n fpts cap : session_inv n (new_session n fpts cap).
Proof.
  unfold new_session, init.
  generalize (eq_refl : n_bins (blank n fpts cap) = n).
  generalize (eq_refl : emitted (World empty_heap (blank n fpts cap) []) = []).
  change (blank n fpts cap) with (self (World empty_heap (blank n fpts cap) [])) at 2.
  generalize (World empty_heap (blank n fpts cap) []). intros w He Hn.
  rewrite clear_eq. simpl. rewrite He.
  split; [done|]. split.
  - split; simpl; [apply refs_ok_cleared|apply matrix_ok_zeros2].
  - split; [|by apply Forall_nil].
    intros i j Hi Hj. simpl in *. unfold zeros2.
    rewrite !lookup_total_replicate_2 by done. reflexivity.
Qed.

Lemma run_session_inv n cs s : session_inv n s -> session_inv n (run cs s).
Proof.
  revert s. induction cs as [|c cs IH]; intros s Hs; simpl; [done|].
  apply IH. by apply do_call_session_inv.
Qed.

Lemma count_pair_le_length i j rows : (count_pair i j rows <= length rows)%nat.
Proof. unfold count_pair. apply length_filter. Qed.

(** C7.  After any sequence of [start_accumulation],
    [continue_accumulation], [clear_state], [clear], [get_state],
    [set_state] and flush calls on a new accumulator (calls that raise
    included), as long as fewer than [2^64] records have been emitted since
    construction or the last [clear()]: [n_trans[i][j]] is the number of
    emitted records with initial bin [i] and final bin [j]; and no call but
    [clear()] decreases an entry of [n_trans]. *)
Theorem C7_count_consistency nbins fpts cap cs i j :
  (i < nbins)%nat -> (j < nbins)%nat ->
  let s := run cs (new_session nbins fpts cap) in
  (Z.of_nat (length (emitted (now s))) < 2 ^ 64 ->
   (n_trans (self (now s)) !!! i) !!! j
   = Z.of_nat (count_pair i j (emitted (now s)))) ∧
  (∀ c, c ≠ Clear ->
     let s' := snd (do_call c s) in
     Z.of_nat (length (emitted (now s'))) < 2 ^ 64 ->
     (n_trans (self (now s)) !!! i) !!! j
     <= (n_trans (self (now s')) !!! i) !!! j).
Proof.
  intros Hi Hj s.
  assert (Hs : session_inv nbins s)
    by apply run_session_inv, session_inv_new.
  assert (Hcount : ∀ s0, session_inv nbins s0 ->
            Z.of_nat (length (emitted (now s0))) < 2 ^ 64 ->
            (n_trans (self (now s0)) !!! i) !!! j
            = Z.of_nat (count_pair i j (emitted (now s0)))).
  { intros s0 (Hn & _ & Hc & _) Hb.
    rewrite (Hc i j) by lia. apply wrap64_small.
    pose proof (count_pair_le_length i j (emitted (now s0))). lia. }
  split; [by apply Hcount|].
  intros c Hc s' Hb.
  destruct (do_call_session_inv nbins c s Hs) as [Hs' He].
  destruct (He Hc) as [rows E]. fold s' in Hs', E.
  rewrite (Hcount s' Hs' Hb), E, count_pair_app.
  rewrite Hcount; [lia|done|].
  rewrite E, length_app in Hb. lia.
Qed.

Lemma C7_count_consistency_witness :
  let cs := [Start scenario_assignments scenario_weights scenario_bin_pops 0;
             GetState; SetState 0] in
  (n_trans (self (now (run cs (new_session 3 true 524288)))) !!! 1%nat) !!! 2%nat
  = Z.of_nat (count_pair 1 2 (emitted (now (run cs (new_session 3 true 524288))))).
Proof.
  intros cs.
  destruct (C7_count_consistency 3 true 524288 cs 1 2) as [H _]; [lia|lia|].
  apply H. vm_compute. reflexivity.
Defined.

(** ** Crossing detection as a scan over the samples *)

(** The crossings of the samples that follow a sample with bin [b] and
    populations [p]; [t] is the timepoint of the first of them. *)
Fixpoint scan (t : Z) (b : nat) (p : list weight) (assignments : list nat)
    (weights : list weight) (bin_pops : list (list weight)) : list crossing :=
  match assignments, weights, bin_pops with
  | a :: assignments, w :: weights, p' :: bin_pops =>
      if (a =? b)%nat then scan (t + 1) a p' assignments weights bin_pops
      else Crossing t w b a p :: scan (t + 1) a p' assignments weights bin_pops
  | _, _, _ => []
  end.

Lemma arange_S lo n : arange lo (S n) = lo :: arange (lo + 1) n.
Proof.
  unfold arange. simpl. rewrite Z.add_0_r. f_equal.
  rewrite <- fmap_S_seq, <- list_fmap_compose. apply list_fmap_ext.
  intros _ k _. simpl. lia.
Qed.

Lemma length_arange lo n : length (arange lo n) = n.
Proof. unfold arange. by rewrite length_fmap, length_seq. Qed.

Lemma last_arange lo n : last (arange lo (S n)) = Some (lo + Z.of_nat n).
Proof.
  revert lo. induction n as [|n IH]; intros lo.
  - simpl. f_equal.
  - rewrite arange_S. rewrite last_cons, IH. f_equal. lia.
Qed.

Lemma to_1_cons2 {A} (x y : A) l : to_1 (x :: y :: l) = x :: to_1 (y :: l).
Proof. unfold to_1. simpl. by rewrite Nat.sub_0_r. Qed.

Lemma trans_occur_of_cons2 b a l :
  trans_occur_of (b :: a :: l) = negb (a =? b)%nat :: trans_occur_of (a :: l).
Proof. unfold trans_occur_of. by rewrite to_1_cons2. Qed.

Lemma crossings_of_cons2 t0 n b a l w0 w ws p p' ps :
  crossings_of (arange t0 (S (S n))) (b :: a :: l) (w0 :: w :: ws) (p :: p' :: ps)
  = (if (a =? b)%nat then [] else [Crossing (t0 + 1) w b a p])
    ++ crossings_of (arange (t0 + 1) (S n)) (a :: l) (w :: ws) (p' :: ps).
Proof.
  unfold crossings_of. rewrite trans_occur_of_cons2, !to_1_cons2.
  rewrite (arange_S t0), (arange_S (t0 + 1)).
  change (from_1 (t0 :: t0 + 1 :: arange (t0 + 1 + 1) n))
    with ((t0 + 1) :: from_1 ((t0 + 1) :: arange (t0 + 1 + 1) n)).
  change (from_1 (w0 :: w :: ws)) with (w :: from_1 (w :: ws)).
  change (from_1 (b :: a :: l)) with (a :: from_1 (a :: l)).
  by destruct (a =? b)%nat.
Qed.

Lemma crossings_of_scan t0 b assignments w0 weights p bin_pops :
  length weights = length assignments ->
  length bin_pops = length assignments ->
  crossings_of (arange t0 (S (length assignments))) (b :: assignments)
    (w0 :: weights) (p :: bin_pops)
  = scan (t0 + 1) b p assignments weights bin_pops.
Proof.
  revert t0 b w0 weights p bin_pops.
  induction assignments as [|a l IH]; intros t0 b w0 [|w ws] p [|p' ps] Hw Hp;
    try done.
  simpl in Hw, Hp. cbn [length]. rewrite crossings_of_cons2.
  rewrite IH by lia. simpl. by destruct (a =? b)%nat.
Qed.

(** Crossing timepoints increase: [timed T U cs] says they start at [T]
    or later, never decrease, and end at [U] or earlier. *)
Fixpoint timed (T U : Z) (cs : list crossing) : Prop :=
  match cs with
  | [] => True
  | c :: cs => T <= c_ti c <= U ∧ timed (c_ti c) U cs
  end.

Lemma scan_timed T U t b p assignments weights bin_pops :
  T <= t -> t + Z.of_nat (length assignments) <= U + 1 ->
  timed T U (scan t b p assignments weights bin_pops).
Proof.
  revert T t b p weights bin_pops.
  induction assignments as [|a l IH]; intros T t b p [|w ws] [|p' ps] HT HU;
    try done.
  simpl in *. destruct (a =? b)%nat.
  - apply IH; lia.
  - simpl. split; [lia|]. apply IH; lia.
Qed.

(** ** Durations *)

Lemma setitem1_raise l i v w :
  ¬ (i < length (read1 (hp w) l))%nat -> setitem1 l i v w = (Raise IndexError, w).
Proof.
  intros H. unfold setitem1, bind, get_heap, put_heap.
  by rewrite bool_decide_false.
Qed.

Lemma setitemw_raise l i v w :
  ¬ (i < length (readw (hp w) l))%nat -> setitemw l i v w = (Raise IndexError, w).
Proof.
  intros H. unfold setitemw, bind, get_heap, put_heap.
  by rewrite bool_decide_false.
Qed.

(** When lines 199-202 raise nothing, the indices were in range. *)
Lemma record_crossing_inv a0 c w w1 :
  refs_ok a0 (hp w) -> record_crossing a0 c w = (Ok tt, w1) ->
  ∃ v, c_ibinpops c !! c_ibin c = Some v ∧
       (c_ibin c < n_bins a0)%nat ∧ (c_fbin c < n_bins a0)%nat ∧
       w1 = World (crossed a0 c v (hp w)) (self w) (emitted w).
Proof.
  intros Hr E.
  destruct (c_ibinpops c !! c_ibin c) as [v|] eqn:Ev.
  2:{ unfold record_crossing in E.
      erewrite bind_raise in E by (unfold getitem; rewrite Ev; reflexivity).
      discriminate. }
  destruct (decide (c_ibin c < n_bins a0)%nat) as [Hi|Hi].
  2:{ unfold record_crossing in E.
      erewrite bind_ok in E by (unfold getitem; rewrite Ev; reflexivity).
      erewrite bind_raise in E.
      2:{ apply setitemw_raise. destruct Hr as (_ & _ & _ & _ & Hb).
          apply shapedw_read in Hb. lia. }
      discriminate. }
  destruct (decide (c_fbin c < n_bins a0)%nat) as [Hf|Hf].
  - rewrite (record_crossing_ok a0 c v w Hr Hi Hf Ev) in E.
    exists v. by simplify_eq.
  - exfalso. unfold record_crossing in E.
    set (h1 := writew (bin_pops_last_exit a0)
                 (<[c_ibin c := v]> (readw (hp w) (bin_pops_last_exit a0))) (hp w)).
    assert (K1 : shapes_kept (hp w) h1) by apply shapes_kept_setitemw.
    set (h2 := write1 (last_exit a0)
                 (<[c_ibin c := c_ti c]> (read1 h1 (last_exit a0))) h1).
    assert (K2 : shapes_kept h1 h2) by apply shapes_kept_setitem1.
    assert (R1 := refs_ok_kept _ _ _ K1 Hr).
    assert (R2 := refs_ok_kept _ _ _ K2 R1).
    destruct Hr as (_ & _ & _ & _ & Hb).
    destruct R1 as (He & _ & _ & _ & _).
    destruct R2 as (_ & Hn & _ & _ & _).
    apply shapedw_read in Hb. apply shaped1_read in He, Hn.
    erewrite bind_ok in E by (unfold getitem; rewrite Ev; reflexivity).
    erewrite bind_ok in E by (apply setitemw_ok; lia). fold h1 in E.
    erewrite bind_ok in E by (apply setitem1_ok; simpl; lia).
    simpl in E. fold h2 in E.
    erewrite bind_raise in E by (apply setitem1_raise; simpl; lia).
    discriminate.
Qed.

Lemma read1_write1_eq h l a :
  (l < length (idx1 h))%nat -> read1 (write1 l a h) l = a.
Proof. intros H. unfold read1, write1. simpl. by rewrite list_lookup_insert_eq. Qed.

Lemma read1_write1_ne h l k a : l ≠ k -> read1 (write1 l a h) k = read1 h k.
Proof. intros H. unfold read1, write1. simpl. by rewrite list_lookup_insert_ne. Qed.

Lemma shaped1_valid n h l : shaped1 n h l -> (l < length (idx1 h))%nat.
Proof.
  unfold shaped1. intros H. destruct (idx1 h !! l) eqn:E; [|done].
  by eapply lookup_lt_Some.
Qed.

(** The exit times after lines 199-202. *)
Lemma read1_crossed_last_exit a0 c v h :
  refs_ok a0 h -> last_exit a0 ≠ last_entry a0 ->
  read1 (crossed a0 c v h) (last_exit a0)
  = <[c_ibin c := c_ti c]> (read1 h (last_exit a0)).
Proof.
  intros Hr Hne. unfold crossed.
  change (read1 (writew ?l ?a ?h) ?k) with (read1 h k).
  rewrite read1_write1_ne by done.
  rewrite read1_write1_eq; [done|].
  destruct Hr as (H1 & _). by apply shaped1_valid in H1.
Qed.

(** The loop invariant for durations: no exit time lies after [T], and
    every record emitted so far has a positive duration. *)
Definition dur_inv (a0 : accumulator) (T : Z) (w : world) : Prop :=
  0 <= T ∧ fixed (self w) = fixed a0 ∧ refs_ok a0 (hp w) ∧
  last_exit a0 ≠ last_entry a0 ∧
  Forall (fun e => 0 <= e <= T) (read1 (hp w) (last_exit a0)) ∧
  Forall (fun r => 1 <= td_duration r) (emitted w).

Lemma dur_inv_mono a0 T U w : T <= U -> dur_inv a0 T w -> dur_inv a0 U w.
Proof.
  intros HTU (H0 & H1 & H2 & H3 & H4 & H5).
  split; [lia|]. split; [done|]. split; [done|]. split; [done|]. split; [|done].
  eapply Forall_impl; [exact H4|]. simpl. intros e ?. lia.
Qed.

Lemma completed_rows_duration a0 block c h col r :
  refs_ok a0 h -> length col = n_bins a0 ->
  Forall (fun e => 0 <= e <= c_ti c) (read1 h (last_exit a0)) ->
  c_ti c + 1 < 2 ^ 64 ->
  r ∈ completed_rows a0 block c h col ->
  ∃ i, td_initial_bin r = i ∧
       td_duration r = c_ti c - read1 h (last_exit a0) !!! i + 1 ∧
       1 <= td_duration r.
Proof.
  intros Hr Hc Hb Ht Hin.
  apply elem_of_completed_rows in Hin as (i & Hi & ->); [|done..].
  apply completed_lookup in Hi as (Hlt & _ & _); [|done..].
  exists i. split; [done|]. simpl.
  destruct Hr as (H1 & _). apply shaped1_read in H1.
  unfold durations_of.
  rewrite (list_lookup_total_fmap _ (read1 h (last_exit a0)) i) by lia.
  rewrite duration_wrap.
  destruct (lookup_lt_is_Some_2 (read1 h (last_exit a0)) i) as [e He]; [lia|].
  rewrite (list_lookup_total_correct _ _ _ He).
  rewrite Forall_lookup in Hb. specialize (Hb _ _ He). simpl in Hb.
  rewrite wrap64_small by lia. lia.
Qed.

Lemma crossing_event_dur a0 block c tdat w tdat' w' T :
  dur_inv a0 T w -> T <= c_ti c -> c_ti c + 1 < 2 ^ 64 ->
  crossing_event a0 block c tdat w = (Ok tdat', w') ->
  dur_inv a0 (c_ti c) w'.
Proof.
  intros (HT0 & Hfix & Hr & Hne & Hb & Hd) HT Ht E.
  destruct (crossing_event_cases a0 block c tdat w)
    as [(e & w1 & E' & _)|(w1 & col & a' & E1 & Hcol & E' & N)];
    rewrite E' in E; [discriminate|].
  injection E as _ <-.
  destruct (record_crossing_inv a0 c w w1 Hr E1) as (v & Hv & Hi & Hf & ->).
  simpl in *.
  apply non_io_fixed in N as [N1 _]. simpl in N1.
  assert (K : shapes_kept (hp w) (crossed a0 c v (hp w))).
  { destruct (heap_only_record_crossing a0 c) as [Hfoot _].
    destruct (Hfoot w) as (_ & _ & K). by rewrite E1 in K. }
  assert (Hr1 := refs_ok_kept _ _ _ K Hr).
  assert (Hlen : length col = n_bins a0).
  { destruct Hr1 as (_ & _ & H2 & _). apply shaped2_read in H2.
    apply length_mapM in Hcol. rewrite <- Hcol. by eapply matrix_ok_length. }
  assert (Hb1 : Forall (fun e => 0 <= e <= c_ti c)
                  (read1 (crossed a0 c v (hp w)) (last_exit a0))).
  { rewrite read1_crossed_last_exit by done.
    apply Forall_insert; [|simpl; lia].
    eapply Forall_impl; [exact Hb|]. simpl. intros e ?. lia. }
  split; [lia|]. split; [|split; [|split; [done|split]]]; cbn [hp self emitted].
  - rewrite N1. exact Hfix.
  - eapply refs_ok_kept; [|exact Hr1].
    eapply shapes_kept_set_masked.
    + by destruct Hr1 as (_ & _ & ? & _).
    + by apply length_completed.
  - exact Hb1.
  - apply Forall_app. split; [done|].
    apply Forall_forall. intros r Hin.
    destruct (completed_rows_duration a0 block c _ col r Hr1 Hlen Hb1 Ht Hin)
      as (_ & _ & _ & ?). done.
Qed.

Lemma for_crossings_dur a0 block cs tdat w tdat' w' T U :
  dur_inv a0 T w -> timed T U cs -> T <= U -> U + 1 < 2 ^ 64 ->
  for_crossings a0 block cs tdat w = (Ok tdat', w') ->
  dur_inv a0 U w'.
Proof.
  revert tdat w T. induction cs as [|c cs IH]; intros tdat w T Hinv Ht HTU HU E.
  - simpl in E. injection E as _ <-. by eapply dur_inv_mono.
  - simpl in E, Ht. destruct Ht as [Hc Ht]. unfold bind in E.
    destruct (crossing_event a0 block c tdat w) as [[t1|e] w1] eqn:E1;
      [|discriminate].
    eapply (IH t1 w1 (c_ti c)); [|done|lia|done|done].
    eapply crossing_event_dur; [exact Hinv|lia|lia|exact E1].
Qed.

(** What a normal return of [_accumulate_transitions] tells. *)
Lemma accumulate_transitions_inv timepoints assignments weights bin_pops block w w' :
  _accumulate_transitions timepoints assignments weights bin_pops block w
    = (Ok tt, w') ->
  (length timepoints - 1 = length assignments - 1)%nat ∧
  (length weights - 1 = length assignments - 1)%nat ∧
  (length bin_pops - 1 = length assignments - 1)%nat ∧
  ∃ tdat w1 a2 tp lb lastpops lbp,
    for_crossings (self w) block
      (crossings_of timepoints assignments weights bin_pops) [] w = (Ok tdat, w1) ∧
    non_io a2 = non_io (self w1) ∧
    last timepoints = Some tp ∧ last assignments = Some lb ∧
    last bin_pops = Some lastpops ∧ lastpops !! lb = Some lbp ∧
    w' = World (hp w1)
           (set_last_bin_pop (Some lbp) (set_last_bin (Some lb) (set_timepoint tp a2)))
           (emitted w1).
Proof.
  intros E.
  assert (L : (length timepoints - 1 = length assignments - 1)%nat ∧
              (length weights - 1 = length assignments - 1)%nat ∧
              (length bin_pops - 1 = length assignments - 1)%nat).
  { unfold _accumulate_transitions in E. fold (trans_occur_of assignments) in E.
    unfold bool_index in E.
    repeat (case_bool_decide;
            [ erewrite bind_ok in E by reflexivity
            | rewrite (bind_raise _ _ w IndexError w) in E by reflexivity;
              discriminate ]).
    rewrite length_trans_occur_of in *.
    rewrite ?length_from_1, ?length_to_1 in *. done. }
  destruct L as (L1 & L2 & L3). split; [done|]. split; [done|]. split; [done|].
  rewrite accumulate_transitions_eq in E by done.
  unfold bind at 1 in E.
  destruct (for_crossings _ _ _ _ _) as [[tdat|e] w1]; [|discriminate].
  destruct (record_transition_data_ok tdat w1) as (a2 & R & N).
  erewrite bind_ok in E by exact R.
  destruct (last timepoints) as [tp|] eqn:Etp.
  2:{ erewrite bind_raise in E by (unfold getlast; rewrite Etp; reflexivity).
      discriminate. }
  erewrite bind_ok in E by (unfold getlast; rewrite Etp; reflexivity).
  erewrite bind_ok in E by reflexivity.
  destruct (last assignments) as [lb|] eqn:Elb.
  2:{ erewrite bind_raise in E by (unfold getlast; rewrite Elb; reflexivity).
      discriminate. }
  erewrite bind_ok in E by (unfold getlast; rewrite Elb; reflexivity).
  erewrite bind_ok in E by reflexivity.
  destruct (last bin_pops) as [lastpops|] eqn:Elp.
  2:{ erewrite bind_raise in E by (unfold getlast; rewrite Elp; reflexivity).
      discriminate. }
  erewrite bind_ok in E by (unfold getlast; rewrite Elp; reflexivity).
  destruct (lastpops !! lb) as [lbp|] eqn:Elbp.
  2:{ erewrite bind_raise in E by (unfold getitem; rewrite Elbp; reflexivity).
      discriminate. }
  erewrite bind_ok in E by (unfold getitem; rewrite Elbp; reflexivity).
  unfold modify_self in E. simpl in E. injection E as <-.
  exists tdat, w1, a2, tp, lb, lastpops, lbp. done.
Qed.

Lemma crossings_of_timed t0 b assignments weights bin_pops T U :
  (length weights - 1 = length assignments)%nat ->
  (length bin_pops - 1 = length assignments)%nat ->
  T <= t0 + 1 -> t0 + Z.of_nat (length assignments) <= U ->
  timed T U (crossings_of (arange t0 (S (length assignments))) (b :: assignments)
               weights bin_pops).
Proof.
  intros Hw Hp HT HU. destruct assignments as [|a l].
  - unfold crossings_of. simpl. done.
  - destruct weights as [|w0 ws]; [simpl in Hw; lia|].
    destruct bin_pops as [|p ps]; [simpl in Hp; lia|].
    simpl in Hw, Hp.
    rewrite crossings_of_scan by (cbn [length]; lia).
    apply scan_timed; cbn [length] in *; lia.
Qed.

Lemma dur_inv_fixed a0 a1 T w :
  fixed a0 = fixed a1 -> dur_inv a0 T w -> dur_inv a1 T w.
Proof.
  intros F (H0 & H1 & H2 & H3 & H4 & H5).
  assert (E : last_exit a0 = last_exit a1 ∧ last_entry a0 = last_entry a1).
  { unfold fixed in F. by injection F. }
  destruct E as [E1 E2].
  split; [done|]. split; [congruence|]. split; [by eapply refs_ok_fixed|].
  split; [congruence|]. split; [by rewrite <- E1|done].
Qed.

Lemma accumulate_transitions_dur t0 b assignments weights bin_pops block w w' :
  dur_inv (self w) t0 w ->
  t0 + Z.of_nat (length assignments) + 1 < 2 ^ 64 ->
  _accumulate_transitions (arange t0 (S (length assignments))) (b :: assignments)
    weights bin_pops block w = (Ok tt, w') ->
  timepoint (self w') = t0 + Z.of_nat (length assignments) ∧
  dur_inv (self w') (timepoint (self w')) w'.
Proof.
  intros Hinv Hb E.
  apply accumulate_transitions_inv in E
    as (_ & L2 & L3 & tdat & w1 & a2 & tp & lb & lastpops & lbp
        & Eloop & N & Etp & _ & _ & _ & ->).
  simpl in L2, L3. rewrite Nat.sub_0_r in L2, L3.
  rewrite last_arange in Etp. injection Etp as <-.
  apply non_io_fixed in N as [N _].
  assert (H0 : 0 <= t0) by (by destruct Hinv).
  assert (D : dur_inv (self w) (t0 + Z.of_nat (length assignments)) w1).
  { eapply for_crossings_dur; [exact Hinv| |lia|lia|exact Eloop].
    apply crossings_of_timed; [done|done|lia|lia]. }
  split; [done|]. cbn [self timepoint set_last_bin_pop].
  set (a' := set_last_bin_pop _ _).
  assert (F' : fixed (self w) = fixed a').
  { destruct D as (_ & F & _). rewrite <- F, <- N. reflexivity. }
  apply (dur_inv_fixed (self w)); [done|].
  destruct D as (D0 & D1 & D2 & D3 & D4 & D5).
  split; [done|]. split; [cbn [self]; by rewrite <- F'|]. done.
Qed.

(** ** Durations along a session *)

(** The samples a call feeds to the accumulator. *)
Definition samples_of (c : call) : nat :=
  match c with
  | Start a _ _ _ | Continue a _ _ _ => length a
  | _ => 0%nat
  end.

Fixpoint samples (cs : list call) : nat :=
  match cs with
  | [] => 0%nat
  | c :: cs => (samples_of c + samples cs)%nat
  end.

(** A snapshot is sound when none of its exit times lies after its own
    cursor timepoint, as is every snapshot when [get_state] returns it. *)
Definition snapshot_sound (h : heap) (sd : state_dict) : bool :=
  (0 <=? sd_timepoint sd) &&
  forallb (fun e => (0 <=? e) && (e <=? sd_timepoint sd))
          (read1 h (sd_last_exit sd)).

(** Every [set_state] of the sequence restores a snapshot that is sound at
    the time of the call. *)
Fixpoint restores_sound (cs : list call) (s : session) : bool :=
  match cs with
  | [] => true
  | c :: cs =>
      match c with
      | SetState k =>
          match snapshots s !! k with
          | Some sd => snapshot_sound (hp (now s)) sd
          | None => true
          end
      | _ => true
      end && restores_sound cs (snd (do_call c s))
  end.

Definition dur_session (B : Z) (s : session) : Prop :=
  dur_inv (self (now s)) (timepoint (self (now s))) (now s) ∧
  timepoint (self (now s)) <= B ∧
  Forall (fun sd => sd_last_exit sd ≠ sd_last_entry sd ∧ sd_timepoint sd <= B)
         (snapshots s).

Lemma read1_cleared w :
  read1 (hp (cleared w)) (last_exit (self (cleared w))) = zeros1 (n_bins (self w)).
Proof.
  unfold read1, cleared. simpl.
  rewrite lookup_app_l by (rewrite length_app; simpl; lia).
  by rewrite list_lookup_middle.
Qed.

Lemma dur_inv_cleared w :
  Forall (fun r => 1 <= td_duration r) (emitted w) ->
  dur_inv (self (cleared w)) 0 (cleared w).
Proof.
  intros He. split; [done|]. split; [done|]. split; [apply refs_ok_cleared|].
  split; [simpl; lia|]. split; [|done].
  rewrite read1_cleared. unfold zeros1. apply Forall_replicate. lia.
Qed.

Lemma read1_snapshot w l :
  (l < length (idx1 (hp w)))%nat -> read1 (snd (snapshot w)) l = read1 (hp w) l.
Proof.
  intros H. unfold snapshot, read1. simpl.
  rewrite lookup_app_l by (rewrite length_app; simpl; lia).
  by rewrite lookup_app_l.
Qed.

Lemma snapshot_refs_distinct w :
  sd_last_exit (fst (snapshot w)) ≠ sd_last_entry (fst (snapshot w)) ∧
  sd_timepoint (fst (snapshot w)) = timepoint (self w).
Proof. unfold snapshot. simpl. rewrite length_app. simpl. split; [lia|done]. Qed.

Lemma snapshot_sound_spec h sd :
  snapshot_sound h sd = true ->
  0 <= sd_timepoint sd ∧
  Forall (fun e => 0 <= e <= sd_timepoint sd) (read1 h (sd_last_exit sd)).
Proof.
  unfold snapshot_sound. intros [H1 H2]%andb_true_iff.
  split; [by apply Z.leb_le|].
  apply Forall_forall. intros e He.
  rewrite forallb_forall in H2. apply list_elem_of_In in He.
  specialize (H2 e He). apply andb_true_iff in H2 as [A B].
  apply Z.leb_le in A, B. done.
Qed.

(** [continue_accumulation] is [_accumulate_transitions] on the segment
    with the synthetic leading sample, once the cursor checks have passed. *)
Lemma continue_accumulation_eq assignments weights bin_pops block w lb row0 :
  last_bin (self w) = Some lb -> bin_pops !! 0%nat = Some row0 ->
  (lb < length row0)%nat ->
  continue_accumulation assignments weights bin_pops block w =
  _accumulate_transitions
    (arange (timepoint (self w)) (S (length assignments)))
    (lb :: assignments) (0%float :: weights)
    (<[lb := default nan (last_bin_pop (self w))]> (zerosw (length row0)) :: bin_pops)
    block w.
Proof.
  intros Hlb Hrow Hlt. unfold continue_accumulation.
  erewrite bind_ok by reflexivity.
  erewrite bind_ok by (rewrite Hlb; reflexivity).
  erewrite bind_ok by (unfold getitem; rewrite Hrow; reflexivity).
  erewrite bind_ok.
  2:{ rewrite bool_decide_true; [reflexivity|].
      unfold zerosw. by rewrite length_replicate. }
  reflexivity.
Qed.

Lemma continue_accumulation_inv assignments weights bin_pops block w w' :
  continue_accumulation assignments weights bin_pops block w = (Ok tt, w') ->
  ∃ lb row0,
    last_bin (self w) = Some lb ∧ bin_pops !! 0%nat = Some row0 ∧
    (lb < length row0)%nat.
Proof.
  intros E. unfold continue_accumulation in E.
  erewrite bind_ok in E by reflexivity.
  destruct (last_bin (self w)) as [lb|] eqn:Hlb.
  2:{ erewrite bind_raise in E by reflexivity. discriminate. }
  erewrite bind_ok in E by reflexivity.
  destruct (bin_pops !! 0%nat) as [row0|] eqn:Hrow.
  2:{ erewrite bind_raise in E by (unfold getitem; rewrite Hrow; reflexivity).
      discriminate. }
  erewrite bind_ok in E by (unfold getitem; rewrite Hrow; reflexivity).
  destruct (decide (lb < length row0)%nat) as [Hlt|Hlt].
  - exists lb, row0. done.
  - erewrite bind_raise in E.
    2:{ rewrite bool_decide_false; [reflexivity|].
        unfold zerosw. by rewrite length_replicate. }
    discriminate.
Qed.

Lemma set_state_eq sd w :
  set_state sd w =
  (Ok tt,
   World (hp w)
     (set_last_bin_pop (sd_last_bin_pop sd)
        (set_last_bin (sd_last_bin sd)
           (set_timepoint (sd_timepoint sd)
              (set_bin_pops_last_exit (sd_bin_pops_last_exit sd)
                 (set_weight_last_exit (sd_weight_last_exit sd)
                    (set_last_completion (sd_last_completion sd)
                       (set_last_exit (sd_last_exit sd)
                          (set_last_entry (sd_last_entry sd) (self w)))))))))
     (emitted w)).
Proof. destruct w as [h a em]. reflexivity. Qed.

Lemma dur_session_mono B B' s : B <= B' -> dur_session B s -> dur_session B' s.
Proof.
  intros HB (H1 & H2 & H3). split; [done|]. split; [lia|].
  eapply Forall_impl; [exact H3|]. simpl. intros sd [? ?]. split; [done|lia].
Qed.

Lemma do_call_start_ok a ws ps b s :
  is_ok (fst (do_call (Start a ws ps b) s)) = true ->
  ∃ w', start_accumulation a ws ps b (now s) = (Ok tt, w') ∧
        snd (do_call (Start a ws ps b) s) = Session w' (snapshots s).
Proof.
  unfold do_call.
  destruct (start_accumulation a ws ps b (now s)) as [[[]|e] w'];
    cbn [fst snd is_ok]; [eauto|discriminate].
Qed.

Lemma do_call_continue_ok a ws ps b s :
  is_ok (fst (do_call (Continue a ws ps b) s)) = true ->
  ∃ w', continue_accumulation a ws ps b (now s) = (Ok tt, w') ∧
        snd (do_call (Continue a ws ps b) s) = Session w' (snapshots s).
Proof.
  unfold do_call.
  destruct (continue_accumulation a ws ps b (now s)) as [[[]|e] w'];
    cbn [fst snd is_ok]; [eauto|discriminate].
Qed.

Lemma start_accumulation_eq a ws ps b w :
  start_accumulation a ws ps b w =
  _accumulate_transitions (arange 0 (length a)) a ws ps b (cleared w).
Proof.
  unfold start_accumulation.
  erewrite bind_ok by apply clear_state_eq. reflexivity.
Qed.

Lemma accumulate_transitions_nonempty timepoints a ws ps b w w' :
  _accumulate_transitions timepoints a ws ps b w = (Ok tt, w') -> a ≠ [].
Proof.
  intros E ->.
  apply accumulate_transitions_inv in E
    as (_ & _ & _ & ? & ? & ? & ? & ? & ? & ? & _ & _ & _ & ? & _).
  discriminate.
Qed.

Lemma start_accumulation_dur a ws ps b w w' :
  Forall (fun r => 1 <= td_duration r) (emitted w) ->
  Z.of_nat (length a) + 1 < 2 ^ 64 ->
  start_accumulation a ws ps b w = (Ok tt, w') ->
  timepoint (self w') <= Z.of_nat (length a) ∧
  dur_inv (self w') (timepoint (self w')) w'.
Proof.
  intros Hem Hb E. rewrite start_accumulation_eq in E.
  assert (Hne := accumulate_transitions_nonempty _ _ _ _ _ _ _ E).
  destruct a as [|b0 a]; [done|]. clear Hne.
  destruct (accumulate_transitions_dur 0 b0 a ws ps b (cleared w) w')
    as [T D]; [by apply dur_inv_cleared|cbn [length] in Hb; lia|exact E|].
  split; [cbn [length]; lia|done].
Qed.

Lemma continue_accumulation_dur a ws ps b w w' :
  dur_inv (self w) (timepoint (self w)) w ->
  timepoint (self w) + Z.of_nat (length a) + 1 < 2 ^ 64 ->
  continue_accumulation a ws ps b w = (Ok tt, w') ->
  timepoint (self w') = timepoint (self w) + Z.of_nat (length a) ∧
  dur_inv (self w') (timepoint (self w')) w'.
Proof.
  intros Hd Hb E.
  destruct (continue_accumulation_inv _ _ _ _ _ _ E) as (lb & row0 & H1 & H2 & H3).
  rewrite (continue_accumulation_eq _ _ _ _ _ lb row0 H1 H2 H3) in E.
  exact (accumulate_transitions_dur _ _ _ _ _ _ _ _ Hd Hb E).
Qed.

Lemma do_call_dur n B c s :
  session_inv n s -> dur_session B s -> 0 <= B ->
  is_ok (fst (do_call c s)) = true -> restores_sound [c] s = true ->
  B + Z.of_nat (samples_of c) + 1 < 2 ^ 64 ->
  dur_session (B + Z.of_nat (samples_of c)) (snd (do_call c s)).
Proof.
  intros (Hn & [Hr Hm] & _ & Hsn) (Hd & Htp & Hsd) HB Hok Hsound Hbound.
  assert (Hsd' : ∀ B', B <= B' ->
            Forall (fun sd => sd_last_exit sd ≠ sd_last_entry sd ∧
                              sd_timepoint sd <= B') (snapshots s)).
  { intros B' HB'. eapply Forall_impl; [exact Hsd|]. simpl.
    intros sd [? ?]. split; [done|lia]. }
  assert (Hem : Forall (fun r => 1 <= td_duration r) (emitted (now s)))
    by (by destruct Hd as (_ & _ & _ & _ & _ & ?)).
  assert (H0 : 0 <= timepoint (self (now s))) by (by destruct Hd).
  destruct c as [a ws ps b|a ws ps b| | | |k|].
  - (* start_accumulation *)
    destruct (do_call_start_ok _ _ _ _ _ Hok) as (w' & E & ->).
    cbn [samples_of] in *.
    pose proof (fun Hb => start_accumulation_dur _ _ _ _ _ _ Hem Hb E) as HD.
    destruct HD as [T D]; [lia|].
    unfold dur_session. cbn [now snapshots].
    split; [done|]. split; [lia|]. apply Hsd'. lia.
  - (* continue_accumulation *)
    destruct (do_call_continue_ok _ _ _ _ _ Hok) as (w' & E & ->).
    cbn [samples_of] in *.
    pose proof (fun Hb => continue_accumulation_dur _ _ _ _ _ _ Hd Hb E) as HD.
    destruct HD as [T D]; [lia|].
    unfold dur_session. cbn [now snapshots].
    split; [done|]. split; [lia|]. apply Hsd'. lia.
  - (* clear_state *)
    unfold do_call. rewrite clear_state_eq. unfold dur_session.
    cbn [snd now snapshots samples_of].
    split; [by apply dur_inv_cleared|]. split; [simpl; lia|]. apply Hsd'. lia.
  - (* clear *)
    unfold do_call. rewrite clear_eq. unfold dur_session.
    cbn [snd now snapshots self hp emitted samples_of].
    split; [|split; [simpl; lia|apply Hsd'; lia]].
    destruct (dur_inv_cleared (now s) Hem) as (D0 & D1 & D2 & D3 & D4 & D5).
    split; [done|]. split; [done|]. split; [exact D2|]. split; [exact D3|].
    split; [exact D4|]. by apply Forall_nil.
  - (* get_state *)
    unfold do_call. rewrite get_state_eq. unfold dur_session.
    cbn [snd fst now snapshots self hp emitted samples_of].
    destruct (snapshot_shapes (now s) Hr) as [K S].
    destruct (snapshot_refs_distinct (now s)) as [Hne Ht].
    destruct Hd as (D0 & D1 & D2 & D3 & D4 & D5).
    split; [|split; [lia|]].
    + split; [done|]. split; [done|]. split; [by eapply refs_ok_kept|].
      split; [done|]. split; [|done]. cbn [hp].
      rewrite read1_snapshot; [done|].
      destruct Hr as (H1 & _). by apply shaped1_valid in H1.
    + apply Forall_app. split; [apply Hsd'; lia|].
      apply Forall_singleton. split; [done|]. rewrite Ht. lia.
  - (* set_state *)
    unfold do_call. cbn [restores_sound] in Hsound.
    destruct (snapshots s !! k) as [sd|] eqn:Ek.
    + rewrite set_state_eq. unfold dur_session.
      cbn [snd now snapshots self hp emitted samples_of].
      rewrite andb_true_r in Hsound.
      apply snapshot_sound_spec in Hsound as [S0 S1].
      rewrite Forall_lookup in Hsn, Hsd.
      destruct (Hsd _ _ Ek) as [Hne Hle].
      destruct (Hsn _ _ Ek) as (P1 & P2 & P3 & P4 & P5).
      split; [|split; [simpl; lia|apply Hsd'; lia]].
      split; [done|]. split; [done|]. split.
      { unfold refs_ok. simpl. rewrite Hn. done. }
      split; [done|]. split; [done|]. done.
    + unfold dur_session. cbn [snd now snapshots samples_of].
      split; [done|]. split; [lia|]. apply Hsd'. lia.
  - (* flush_transition_data *)
    unfold do_call.
    destruct (flush_transition_data_ok (now s)) as (a' & -> & N & _).
    unfold dur_session. cbn [snd now snapshots self hp emitted samples_of].
    assert (Ht : timepoint a' = timepoint (self (now s))).
    { unfold non_io in N. by injection N. }
    apply non_io_fixed in N as [N _].
    split; [|split; [lia|apply Hsd'; lia]].
    rewrite Ht. apply (dur_inv_fixed (self (now s))); [done|].
    destruct Hd as (D0 & D1 & D2 & D3 & D4 & D5).
    split; [done|]. split; [cbn [self]; congruence|]. done.
Qed.

Lemma run_dur n cs : ∀ B s,
  session_inv n s -> dur_session B s -> 0 <= B ->
  all_return cs s = true -> restores_sound cs s = true ->
  B + Z.of_nat (samples cs) + 1 < 2 ^ 64 ->
  dur_session (B + Z.of_nat (samples cs)) (run cs s).
Proof.
  induction cs as [|c cs IH]; intros B s Hs Hd HB Hok Hsound Hb.
  - simpl. by rewrite Z.add_0_r.
  - cbn [all_return restores_sound] in Hok, Hsound.
    apply andb_true_iff in Hok as [Hok1 Hok2].
    apply andb_true_iff in Hsound as [Hs1 Hs2].
    cbn [samples] in *. rewrite Nat2Z.inj_add in *.
    cbn [run]. rewrite Z.add_assoc. apply IH.
    + by apply do_call_session_inv.
    + apply (do_call_dur n); [done|done|done|done| |lia].
      cbn [restores_sound]. by rewrite Hs1.
    + lia.
    + done.
    + done.
    + lia.
Qed.

Lemma dur_session_new n fpts cap : dur_session 0 (new_session n fpts cap).
Proof.
  unfold new_session, init.
  generalize (eq_refl : emitted (World empty_heap (blank n fpts cap) []) = []).
  generalize (World empty_heap (blank n fpts cap) []). intros w He.
  rewrite clear_eq. unfold dur_session. cbn [snd now snapshots self hp emitted].
  split; [|split; [simpl; lia|by apply Forall_nil]].
  destruct (dur_inv_cleared w) as (D0 & D1 & D2 & D3 & D4 & D5).
  { rewrite He. by apply Forall_nil. }
  split; [done|]. split; [done|]. split; [exact D2|]. split; [exact D3|].
  split; [exact D4|]. done.
Qed.

(** A snapshot restored twice: the first restore hands the snapshot's own
    arrays to the accumulator, the continuation overwrites them, and the
    second restore brings back the old cursor with the new exit times. *)
Definition stale_restore_calls : list call :=
  [ Start [0; 1; 0]%nat (replicate 3 1%float) (onehot 4 <$> [0; 1; 0]%nat) 0;
    GetState;
    SetState 0;
    Continue [1; 2]%nat (replicate 2 1%float) (onehot 4 <$> [1; 2]%nat) 0;
    SetState 0;
    Continue [3]%nat [1%float] [onehot 4 3] 0 ].

(** C8.  On a new accumulator, along any sequence of calls that all return
    normally, in which every [set_state] restores a sound snapshot, and
    that feeds fewer than [2^64 - 1] samples, every record emitted (since
    construction or the last [clear()]) has duration at least 1.  The
    duration of a record [i -> fbin] completed at timepoint [t] is
    [t - last_exit[i] + 1], with [last_exit] as lines 199-202 leave it: the
    [uint64] expression does not wrap when no exit time lies after [t].
    The code at the failing input: along [stale_restore_calls] every call
    returns, the second [set_state] restores a snapshot whose exit time of
    bin 1 (4) lies after its timepoint (2), and the last record emitted,
    [1 -> 3] at timepoint 3, has duration [3 - 4 + 1 = 0]. *)
Theorem C8_duration_positive :
  (∀ nbins fpts cap cs,
     all_return cs (new_session nbins fpts cap) = true ->
     restores_sound cs (new_session nbins fpts cap) = true ->
     Z.of_nat (samples cs) + 1 < 2 ^ 64 ->
     Forall (fun r => 1 <= td_duration r)
            (emitted (now (run cs (new_session nbins fpts cap))))) ∧
  (∀ w block c tdat,
     live_ok w -> (c_fbin c < n_bins (self w))%nat ->
     Forall (fun e => 0 <= e <= c_ti c) (read1 (hp w) (last_exit (self w))) ->
     c_ti c + 1 < 2 ^ 64 ->
     ∃ rows w',
       complete_transitions (self w) block c tdat w = (Ok (tdat ++ rows), w') ∧
       emitted w' = emitted w ++ rows ∧
       ∀ r, r ∈ rows ->
         td_duration r
         = c_ti c - read1 (hp w) (last_exit (self w)) !!! td_initial_bin r + 1) ∧
  (all_return stale_restore_calls (new_session 4 true 524288) = true ∧
   restores_sound stale_restore_calls (new_session 4 true 524288) = false ∧
   (fun r => (td_timepoint r, td_initial_bin r, td_final_bin r, td_duration r))
     <$> last (emitted (now (run stale_restore_calls (new_session 4 true 524288))))
   = Some (3, 1%nat, 3%nat, 0)).
Proof.
  split; [|split]; [| |vm_compute; repeat split; reflexivity].
  - intros nbins fpts cap cs Hok Hsound Hb.
    destruct (run_dur nbins cs 0 (new_session nbins fpts cap))
      as ((_ & _ & _ & _ & _ & H) & _); try done.
    + apply session_inv_new.
    + apply dur_session_new.
  - intros w block c tdat [Hr _] Hf Hb Ht.
    destruct (complete_transitions_ok (self w) block c tdat w Hr Hf)
      as (col & _ & Hlen & _ & E).
    exists (completed_rows (self w) block c (hp w) col),
           (completed_world (self w) block c col w).
    split; [exact E|]. split; [reflexivity|].
    intros r Hin.
    destruct (completed_rows_duration _ block c _ col r Hr Hlen Hb Ht Hin)
      as (i & <- & -> & _). reflexivity.
Qed.

(** A session with a branch point: the scenario, a snapshot, one branch,
    the snapshot restored, another branch. *)
Definition branching_calls : list call :=
  [ Start scenario_assignments scenario_weights scenario_bin_pops 0;
    GetState;
    Continue [1; 2]%nat [1%float; 1%float] [onehot 3 1; onehot 3 2] 1;
    SetState 0;
    Continue [0; 2]%nat [1%float; 1%float] [onehot 3 0; onehot 3 2] 1;
    Flush ].

Lemma C8_duration_positive_witness :
  Forall (fun r => 1 <= td_duration r)
         (emitted (now (run branching_calls (new_session 3 true 524288)))).
Proof.
  apply (proj1 C8_duration_positive); vm_compute; reflexivity.
Defined.

(** ** Well-formed segments run to completion *)

(** Parallel arrays of one length, bins below [n], population rows of
    width [n]. *)
Definition segment_ok (n : nat) (assignments : list nat) (weights : list weight)
    (bin_pops : list (list weight)) : Prop :=
  length weights = length assignments ∧ length bin_pops = length assignments ∧
  Forall (fun b => (b < n)%nat) assignments ∧
  Forall (fun row : list weight => length row = n) bin_pops.

Definition crossing_ok (n : nat) (c : crossing) : Prop :=
  (c_ibin c < n)%nat ∧ (c_fbin c < n)%nat ∧
  (c_ibin c < length (c_ibinpops c))%nat.

Lemma crossing_event_ok a0 block c tdat w :
  refs_ok a0 (hp w) -> crossing_ok (n_bins a0) c ->
  ∃ tdat' w', crossing_event a0 block c tdat w = (Ok tdat', w').
Proof.
  intros Hr (Hi & Hf & Hp).
  destruct (lookup_lt_is_Some_2 (c_ibinpops c) (c_ibin c) Hp) as [v Hv].
  unfold crossing_event.
  erewrite bind_ok by (by apply record_crossing_ok).
  set (w1 := World (crossed a0 c v (hp w)) (self w) (emitted w)).
  assert (Hr1 : refs_ok a0 (hp w1)).
  { destruct (heap_only_record_crossing a0 c) as [Hfoot _].
    destruct (Hfoot w) as (_ & _ & K).
    rewrite (record_crossing_ok a0 c v w Hr Hi Hf Hv) in K.
    by eapply refs_ok_kept. }
  destruct (complete_transitions_ok a0 block c tdat w1 Hr1 Hf)
    as (col & _ & _ & _ & E).
  erewrite bind_ok by exact E.
  case_bool_decide.
  - destruct (record_transition_data_ok
                (tdat ++ completed_rows a0 block c (hp w1) col)
                (completed_world a0 block c col w1)) as (a' & R & _).
    erewrite bind_ok by exact R. eauto.
  - erewrite bind_ok by reflexivity. eauto.
Qed.

Lemma for_crossings_ok a0 block cs tdat w :
  refs_ok a0 (hp w) -> Forall (crossing_ok (n_bins a0)) cs ->
  ∃ tdat' w', for_crossings a0 block cs tdat w = (Ok tdat', w').
Proof.
  revert tdat w. induction cs as [|c cs IH]; intros tdat w Hr Hcs.
  - simpl. eauto.
  - apply Forall_cons in Hcs as [Hc Hcs].
    destruct (crossing_event_ok a0 block c tdat w Hr Hc) as (t1 & w1 & E1).
    cbn [for_crossings]. erewrite bind_ok by exact E1.
    apply IH; [|done].
    eapply refs_ok_kept; [|exact Hr].
    pose proof (crossing_event_shapes_kept a0 block c tdat w Hr) as K.
    by rewrite E1 in K.
Qed.

Lemma scan_crossing_ok n t b p assignments weights bin_pops :
  (b < n)%nat -> length p = n ->
  Forall (fun b => (b < n)%nat) assignments ->
  Forall (fun row : list weight => length row = n) bin_pops ->
  Forall (crossing_ok n) (scan t b p assignments weights bin_pops).
Proof.
  revert t b p weights bin_pops.
  induction assignments as [|a l IH]; intros t b p [|w ws] [|p' ps] Hb Hp Ha Hps;
    try (by apply Forall_nil).
  apply Forall_cons in Ha as [Ha Hl]. apply Forall_cons in Hps as [Hp' Hps].
  simpl. destruct (a =? b)%nat.
  - by apply IH.
  - apply Forall_cons. split; [|by apply IH].
    unfold crossing_ok. simpl. split; [done|]. split; [done|lia].
Qed.

(** ** The loop does not depend on the buffer, the cursor or [tdat] *)

(** Two states that the detection loop cannot tell apart. *)
Definition sim (w w' : world) : Prop :=
  hp w = hp w' ∧ emitted w = emitted w' ∧ n_trans (self w) = n_trans (self w').

(** Two crossings that the loop body cannot tell apart: of the departure
    populations only the entry of the departure bin is read. *)
Definition ceq (c c' : crossing) : Prop :=
  c_ti c = c_ti c' ∧ c_weight c = c_weight c' ∧ c_ibin c = c_ibin c' ∧
  c_fbin c = c_fbin c' ∧
  c_ibinpops c !! c_ibin c = c_ibinpops c' !! c_ibin c'.

(** The loop body without the in-loop write and without [tdat]. *)
Definition event_core (a0 : accumulator) (block : Z) (c : crossing) : M unit :=
  record_crossing a0 c ;;;
  _ <- complete_transitions a0 block c [] ;;
  ret tt.

Lemma sim_refl w : sim w w.
Proof. by repeat split. Qed.

Lemma sim_trans w1 w2 w3 : sim w1 w2 -> sim w2 w3 -> sim w1 w3.
Proof. intros (A1 & A2 & A3) (B1 & B2 & B3). repeat split; congruence. Qed.

Lemma sim_sym w1 w2 : sim w1 w2 -> sim w2 w1.
Proof. intros (A1 & A2 & A3). repeat split; congruence. Qed.

Lemma crossing_event_core a0 block c tdat w :
  is_ok (fst (crossing_event a0 block c tdat w))
  = is_ok (fst (event_core a0 block c w)) ∧
  sim (snd (crossing_event a0 block c tdat w)) (snd (event_core a0 block c w)).
Proof.
  unfold crossing_event, event_core.
  destruct (record_crossing a0 c w) as [[[]|e] w1] eqn:E1.
  - rewrite (bind_ok (record_crossing a0 c) _ w tt w1 E1).
    rewrite (bind_ok (record_crossing a0 c) _ w tt w1 E1).
    pose proof (complete_transitions_eq a0 block c tdat w1) as E2.
    pose proof (complete_transitions_eq a0 block c [] w1) as E3.
    destruct (mapM _ _) as [col|].
    + cbv zeta in E2, E3.
      rewrite (bind_ok (complete_transitions a0 block c tdat) _ w1 _ _ E2).
      rewrite (bind_ok (complete_transitions a0 block c []) _ w1 _ _ E3).
      fold (completed_world a0 block c col w1).
      case_bool_decide.
      * destruct (record_transition_data_ok
                    (tdat ++ completed_rows a0 block c (hp w1) col)
                    (completed_world a0 block c col w1)) as (a' & R & N).
        erewrite bind_ok by exact R. cbn [fst snd is_ok ret].
        split; [done|]. apply non_io_fixed in N as [_ N].
        split; [done|]. split; [done|]. exact N.
      * erewrite bind_ok by reflexivity. cbn [fst snd is_ok ret].
        split; [done|]. apply sim_refl.
    + rewrite (bind_raise (complete_transitions a0 block c tdat) _ w1 _ _ E2).
      rewrite (bind_raise (complete_transitions a0 block c []) _ w1 _ _ E3).
      split; [done|]. apply sim_refl.
  - rewrite (bind_raise (record_crossing a0 c) _ w e w1 E1).
    rewrite (bind_raise (record_crossing a0 c) _ w e w1 E1).
    split; [done|]. apply sim_refl.
Qed.

Lemma event_core_sim a0 block c w w' :
  sim w w' ->
  is_ok (fst (event_core a0 block c w)) = is_ok (fst (event_core a0 block c w')) ∧
  sim (snd (event_core a0 block c w)) (snd (event_core a0 block c w')).
Proof.
  intros (Hh & He & Hn). unfold event_core.
  destruct (heap_only_record_crossing a0 c) as [Hfoot Hdet].
  destruct (Hfoot w) as (S1 & E1 & _). destruct (Hfoot w') as (S2 & E2 & _).
  destruct (Hdet w w' Hh) as [R1 R2].
  destruct (record_crossing a0 c w) as [[[]|e] w1] eqn:L1;
    destruct (record_crossing a0 c w') as [[[]|e'] w1'] eqn:L2;
    cbn [fst snd] in *; try discriminate.
  - erewrite bind_ok by exact L1. erewrite (bind_ok _ _ w') by exact L2.
    pose proof (complete_transitions_eq a0 block c [] w1) as C1.
    pose proof (complete_transitions_eq a0 block c [] w1') as C2.
    rewrite <- R2 in C2.
    destruct (mapM _ _) as [col|].
    + cbv zeta in C1, C2.
      erewrite bind_ok by exact C1. erewrite (bind_ok _ _ w1') by exact C2.
      cbn [fst snd is_ok ret]. split; [done|].
      split; [done|]. cbn [emitted self hp]. split; [congruence|].
      cbn [n_trans set_n_trans]. congruence.
    + erewrite bind_raise by exact C1. erewrite (bind_raise _ _ w1') by exact C2.
      cbn [fst snd]. split; [done|]. split; [done|]. split; congruence.
  - erewrite bind_raise by exact L1. erewrite (bind_raise _ _ w') by exact L2.
    cbn [fst snd]. split; [done|]. split; [done|]. split; congruence.
Qed.

Lemma event_core_congr a0 a0' block c c' w :
  fixed a0 = fixed a0' -> ceq c c' ->
  event_core a0 block c w = event_core a0' block c' w.
Proof.
  intros F (H1 & H2 & H3 & H4 & H5).
  destruct a0, a0'. unfold fixed in F. simpl in F.
  injection F as -> -> -> -> -> -> -> ->.
  destruct c as [ti wt ib fb pp], c' as [ti' wt' ib' fb' pp'].
  simpl in H1, H2, H3, H4, H5. subst ti' wt' ib' fb'.
  unfold event_core, record_crossing, complete_transitions, tdat_tuple, getitem.
  cbn [c_ti c_weight c_ibin c_fbin c_ibinpops last_exit last_entry
       last_completion weight_last_exit bin_pops_last_exit n_bins calc_fpts].
  rewrite H5. reflexivity.
Qed.

Lemma for_crossings_sim a0 a0' block cs cs' :
  fixed a0 = fixed a0' -> Forall2 ceq cs cs' ->
  ∀ tdat tdat' w w', sim w w' ->
    is_ok (fst (for_crossings a0 block cs tdat w))
    = is_ok (fst (for_crossings a0' block cs' tdat' w')) ∧
    sim (snd (for_crossings a0 block cs tdat w))
        (snd (for_crossings a0' block cs' tdat' w')).
Proof.
  intros F Hcs. induction Hcs as [|c c' cs cs' Hc Hcs IH];
    intros tdat tdat' w w' Hsim.
  - simpl. done.
  - cbn [for_crossings]. unfold bind.
    destruct (crossing_event_core a0 block c tdat w) as [A1 A2].
    destruct (crossing_event_core a0' block c' tdat' w') as [B1 B2].
    destruct (event_core_sim a0 block c w w' Hsim) as [C1 C2].
    rewrite (event_core_congr a0 a0' block c c' w' F Hc) in C1, C2.
    assert (Hok : is_ok (fst (crossing_event a0 block c tdat w))
                  = is_ok (fst (crossing_event a0' block c' tdat' w')))
      by congruence.
    assert (Hs : sim (snd (crossing_event a0 block c tdat w))
                     (snd (crossing_event a0' block c' tdat' w'))).
    { eapply sim_trans; [exact A2|]. eapply sim_trans; [exact C2|].
      by apply sim_sym. }
    destruct (crossing_event a0 block c tdat w) as [[t1|e1] w1];
      destruct (crossing_event a0' block c' tdat' w') as [[t1'|e1'] w1'];
      cbn [fst snd is_ok] in *; try discriminate.
    + by apply IH.
    + done.
Qed.

Lemma for_crossings_app a0 block cs1 cs2 tdat w :
  for_crossings a0 block (cs1 ++ cs2) tdat w =
  (t1 <- for_crossings a0 block cs1 tdat ;; for_crossings a0 block cs2 t1) w.
Proof.
  revert tdat w. induction cs1 as [|c cs1 IH]; intros tdat w.
  - reflexivity.
  - cbn [app for_crossings]. unfold bind.
    destruct (crossing_event a0 block c tdat w) as [[t1|e] w1]; [|done].
    rewrite IH. reflexivity.
Qed.

Lemma last_cons_default {A} (x : A) l : last (x :: l) = Some (default x (last l)).
Proof.
  revert x. induction l as [|y l IH]; intros x; [done|].
  rewrite last_cons. rewrite IH. done.
Qed.

Lemma scan_app t b p as1 ws1 ps1 as2 ws2 ps2 :
  length ws1 = length as1 -> length ps1 = length as1 ->
  scan t b p (as1 ++ as2) (ws1 ++ ws2) (ps1 ++ ps2) =
  scan t b p as1 ws1 ps1
  ++ scan (t + Z.of_nat (length as1)) (default b (last as1))
       (default p (last ps1)) as2 ws2 ps2.
Proof.
  revert t b p ws1 ps1.
  induction as1 as [|a l IH]; intros t b p [|w ws] [|p' ps] Hw Hp; try done.
  - simpl. by rewrite Z.add_0_r.
  - simpl in Hw, Hp. cbn [app scan].
    rewrite IH by lia. rewrite !last_cons_default. cbn [default].
    replace (t + 1 + Z.of_nat (length l)) with (t + Z.of_nat (length (a :: l)))
      by (cbn [length]; lia).
    destruct (a =? b)%nat; reflexivity.
Qed.

Lemma ceq_refl c : ceq c c.
Proof. by repeat split. Qed.

Lemma scan_ceq t b p p' assignments weights bin_pops :
  p !! b = p' !! b ->
  Forall2 ceq (scan t b p assignments weights bin_pops)
              (scan t b p' assignments weights bin_pops).
Proof.
  intros Hp. destruct assignments as [|a l], weights as [|w ws],
    bin_pops as [|q ps]; try apply Forall2_nil_2.
  cbn [scan]. destruct (a =? b)%nat.
  - apply Forall_Forall2_diag, Forall_forall. intros c _. apply ceq_refl.
  - constructor; [by repeat split|].
    apply Forall_Forall2_diag, Forall_forall. intros c _. apply ceq_refl.
Qed.

(** On a well-formed segment [_accumulate_transitions] returns normally:
    the loop runs over the scan, the records are handed to the buffer and
    the cursor moves to the last sample. *)
Lemma accumulate_transitions_ok t0 b assignments w0 weights p bin_pops block w :
  refs_ok (self w) (hp w) ->
  (b < n_bins (self w))%nat -> length p = n_bins (self w) ->
  segment_ok (n_bins (self w)) assignments weights bin_pops ->
  ∃ tdat w1 a2 lbp,
    for_crossings (self w) block (scan (t0 + 1) b p assignments weights bin_pops)
      [] w = (Ok tdat, w1) ∧
    non_io a2 = non_io (self w1) ∧
    default p (last bin_pops) !! default b (last assignments) = Some lbp ∧
    _accumulate_transitions (arange t0 (S (length assignments))) (b :: assignments)
      (w0 :: weights) (p :: bin_pops) block w =
    (Ok tt,
     World (hp w1)
       (set_last_bin_pop (Some lbp)
          (set_last_bin (Some (default b (last assignments)))
             (set_timepoint (t0 + Z.of_nat (length assignments)) a2)))
       (emitted w1)).
Proof.
  intros Hr Hb Hp (Hw & Hps & Ha & Hrows).
  destruct (for_crossings_ok (self w) block
              (scan (t0 + 1) b p assignments weights bin_pops) [] w Hr)
    as (tdat & w1 & Eloop).
  { by apply scan_crossing_ok. }
  destruct (record_transition_data_ok tdat w1) as (a2 & R & N).
  assert (Hlb : (default b (last assignments) < n_bins (self w))%nat).
  { destruct (last assignments) as [x|] eqn:E; simpl; [|done].
    rewrite Forall_forall in Ha. apply Ha. eapply list_elem_of_lookup_2.
    rewrite last_lookup in E. exact E. }
  assert (Hlp : length (default p (last bin_pops)) = n_bins (self w)).
  { destruct (last bin_pops) as [x|] eqn:E; simpl; [|done].
    rewrite Forall_forall in Hrows. apply Hrows. eapply list_elem_of_lookup_2.
    rewrite last_lookup in E. exact E. }
  destruct (lookup_lt_is_Some_2 (default p (last bin_pops))
              (default b (last assignments))) as [lbp Hlbp]; [lia|].
  exists tdat, w1, a2, lbp. split; [done|]. split; [done|]. split; [done|].
  rewrite accumulate_transitions_eq by (cbn [length]; rewrite ?length_arange; lia).
  rewrite crossings_of_scan by done.
  erewrite bind_ok by exact Eloop.
  erewrite bind_ok by exact R.
  erewrite bind_ok by (unfold getlast; rewrite last_arange; reflexivity).
  erewrite bind_ok by reflexivity.
  erewrite bind_ok by (unfold getlast; rewrite last_cons_default; reflexivity).
  erewrite bind_ok by reflexivity.
  erewrite bind_ok by (unfold getlast; rewrite last_cons_default; reflexivity).
  erewrite bind_ok by (unfold getitem; rewrite Hlbp; reflexivity).
  reflexivity.
Qed.

Lemma for_crossings_fixed a0 block cs tdat w :
  fixed (self (snd (for_crossings a0 block cs tdat w))) = fixed (self w).
Proof.
  apply (for_crossings_ind (fun w' => fixed (self w') = fixed (self w)) a0 block);
    [|done].
  intros c t w' K. by rewrite crossing_event_fixed.
Qed.

Lemma last_app_default {A} (x : A) l1 l2 :
  default x (last (l1 ++ l2)) = default (default x (last l1)) (last l2).
Proof.
  destruct l2 as [|y l2 _] using rev_ind.
  - by rewrite app_nil_r.
  - by rewrite app_assoc, !last_snoc.
Qed.

Lemma segment_ok_app n a1 ws1 ps1 a2 ws2 ps2 :
  segment_ok n a1 ws1 ps1 -> segment_ok n a2 ws2 ps2 ->
  segment_ok n (a1 ++ a2) (ws1 ++ ws2) (ps1 ++ ps2).
Proof.
  intros (W1 & P1 & A1 & R1) (W2 & P2 & A2 & R2).
  unfold segment_ok. rewrite !length_app, !Forall_app. repeat split; (lia || done).
Qed.

(** The cursor left by a segment: time of its last sample, that sample's
    bin, and the bin's population. *)
Definition cursor (a : accumulator) := (timepoint a, last_bin a, last_bin_pop a).

(** C6. Continuation equivalence: for non-empty, well-formed chunks,
    [start_accumulation] on the first followed by [continue_accumulation]
    on the second returns normally, and so does one [start_accumulation]
    on their concatenation; both runs append the same records in the same
    order and end with the same [n_trans], the same cursor
    (timepoint, last bin, last bin population) and the same tracking
    arrays. *)
Theorem C6_continuation_equivalence a1 ws1 ps1 a2 ws2 ps2 block w :
  segment_ok (n_bins (self w)) a1 ws1 ps1 ->
  segment_ok (n_bins (self w)) a2 ws2 ps2 ->
  a1 ≠ [] -> a2 ≠ [] ->
  ∃ w12 w',
    (start_accumulation a1 ws1 ps1 block ;;;
     continue_accumulation a2 ws2 ps2 block) w = (Ok tt, w12) ∧
    start_accumulation (a1 ++ a2) (ws1 ++ ws2) (ps1 ++ ps2) block w = (Ok tt, w') ∧
    emitted w12 = emitted w' ∧
    n_trans (self w12) = n_trans (self w') ∧
    cursor (self w12) = cursor (self w') ∧
    hp w12 = hp w' ∧ fixed (self w12) = fixed (self w').
Proof.
  intros S1 S2 N1 N2.
  pose proof (segment_ok_app _ _ _ _ _ _ _ S1 S2) as S12.
  destruct a1 as [|b as1]; [done|]. clear N1.
  destruct S1 as (Hw1 & Hp1 & Ha1 & Hr1).
  destruct ws1 as [|w0 ws1]; [done|]. destruct ps1 as [|p ps1]; [done|].
  apply Forall_cons in Ha1 as [Hb Ha1]. apply Forall_cons in Hr1 as [Hp Hr1].
  cbn [length] in Hw1, Hp1.
  assert (S1 : segment_ok (n_bins (self (cleared w))) as1 ws1 ps1).
  { repeat split; (lia || done). }
  (* the first chunk *)
  destruct (accumulate_transitions_ok 0 b as1 w0 ws1 p ps1 block (cleared w)
              (refs_ok_cleared w) Hb Hp S1)
    as (tdat1 & w1 & s1 & lbp1 & L1 & M1 & P1 & E1).
  set (lb1 := default b (last as1)) in *.
  set (lp1 := default p (last ps1)) in *.
  set (wA := World (hp w1) _ (emitted w1)) in E1.
  assert (F1 : fixed (self w1) = fixed (self (cleared w))).
  { pose proof (for_crossings_fixed (self (cleared w)) block
                  (scan (0 + 1) b p as1 ws1 ps1) [] (cleared w)) as F.
    by rewrite L1 in F. }
  apply non_io_fixed in M1 as [M1 C1].
  assert (FA : fixed (self wA) = fixed (self (cleared w))).
  { by rewrite <- F1, <- M1. }
  assert (nA : n_bins (self wA) = n_bins (self w)).
  { by apply fixed_n_bins in FA. }
  assert (HrA : refs_ok (self wA) (hp wA)).
  { apply (refs_ok_fixed (self (cleared w))); [done|].
    pose proof (for_crossings_shapes_kept (self (cleared w)) block
                  (scan (0 + 1) b p as1 ws1 ps1) [] (cleared w)
                  (refs_ok_cleared w)) as K.
    rewrite L1 in K. eapply refs_ok_kept; [exact K|apply refs_ok_cleared]. }
  assert (Hlb1 : (lb1 < n_bins (self w))%nat).
  { apply lookup_lt_Some in P1.
    assert (length lp1 = n_bins (self w)); [|lia].
    subst lp1. destruct (last ps1) as [x|] eqn:E; simpl; [|done].
    rewrite Forall_forall in Hr1. apply Hr1. eapply list_elem_of_lookup_2.
    rewrite last_lookup in E. exact E. }
  (* the second chunk, continued from the cursor *)
  assert (∃ row0, ps2 !! 0%nat = Some row0 ∧ length row0 = n_bins (self w))
    as (row0 & Hrow0 & Lrow0).
  { destruct S2 as (_ & Hp2 & _ & Hr2). destruct ps2 as [|row0 ps2'].
    - destruct a2; [done|]. simpl in Hp2. lia.
    - apply Forall_cons in Hr2 as [? _]. by exists row0. }
  set (aug := <[lb1 := lbp1]> (zerosw (n_bins (self w)))).
  assert (Laug : length aug = n_bins (self wA)).
  { subst aug. rewrite length_insert. unfold zerosw. rewrite length_replicate.
    by rewrite nA. }
  assert (Paug : aug !! lb1 = Some lbp1).
  { subst aug. apply list_lookup_insert_eq. unfold zerosw.
    by rewrite length_replicate. }
  assert (S2A : segment_ok (n_bins (self wA)) a2 ws2 ps2) by (by rewrite nA).
  assert (HlbA : (lb1 < n_bins (self wA))%nat) by (by rewrite nA).
  destruct (accumulate_transitions_ok (0 + Z.of_nat (length as1)) lb1 a2 0%float
              ws2 aug ps2 block wA HrA HlbA Laug S2A)
    as (tdat2 & w2 & s2 & lbp2 & L2 & M2 & P2 & E2).
  set (wB := World (hp w2) _ (emitted w2)) in E2.
  assert (C : continue_accumulation a2 ws2 ps2 block wA = (Ok tt, wB)).
  { rewrite (continue_accumulation_eq a2 ws2 ps2 block wA lb1 row0);
      [|reflexivity|exact Hrow0|lia].
    rewrite Lrow0. exact E2. }
  (* the concatenation in one call *)
  destruct (accumulate_transitions_ok 0 b (as1 ++ a2) w0 (ws1 ++ ws2) p
              (ps1 ++ ps2) block (cleared w) (refs_ok_cleared w) Hb Hp)
    as (tdat3 & w3 & s3 & lbp3 & L3 & M3 & P3 & E3).
  { apply segment_ok_app; [exact S1|exact S2]. }
  set (wC := World (hp w3) _ (emitted w3)) in E3.
  exists wB, wC. split.
  { rewrite (bind_ok _ _ w tt wA); [exact C|].
    rewrite start_accumulation_eq. exact E1. }
  split.
  { rewrite start_accumulation_eq. cbn [app length]. exact E3. }
  (* the single loop is the first loop followed by a copy of the second *)
  rewrite scan_app in L3 by lia. fold lb1 lp1 in L3.
  rewrite for_crossings_app in L3.
  rewrite (bind_ok _ _ _ _ _ L1) in L3.
  replace (0 + 1 + Z.of_nat (length as1)) with (0 + Z.of_nat (length as1) + 1)
    in L3 by lia.
  destruct (for_crossings_sim (self (cleared w)) (self wA) block
              (scan (0 + Z.of_nat (length as1) + 1) lb1 lp1 a2 ws2 ps2)
              (scan (0 + Z.of_nat (length as1) + 1) lb1 aug a2 ws2 ps2)
              (eq_sym FA) (scan_ceq _ lb1 lp1 aug a2 ws2 ps2 (eq_trans P1 (eq_sym Paug)))
              tdat1 [] w1 wA)
    as [_ (Sh & Se & Sn)].
  { repeat split; [reflexivity..|]. by rewrite <- C1. }
  rewrite L3, L2 in Sh, Se, Sn. cbn [snd] in Sh, Se, Sn.
  pose proof (for_crossings_fixed (self (cleared w)) block
                (scan (0 + Z.of_nat (length as1) + 1) lb1 lp1 a2 ws2 ps2)
                tdat1 w1) as F3.
  rewrite L3 in F3. cbn [snd] in F3.
  pose proof (for_crossings_fixed (self wA) block
                (scan (0 + Z.of_nat (length as1) + 1) lb1 aug a2 ws2 ps2)
                [] wA) as F2.
  rewrite L2 in F2. cbn [snd] in F2.
  apply non_io_fixed in M2 as [M2 C2]. apply non_io_fixed in M3 as [M3 C3].
  assert (∃ q, last ps2 = Some q) as [q Hq].
  { destruct S2 as (_ & Hp2 & _). destruct ps2 as [|x l _] using rev_ind.
    - destruct a2; [done|]. simpl in Hp2. lia.
    - rewrite last_snoc. eauto. }
  assert (lbp2 = lbp3) as <-.
  { rewrite !last_app_default in P3. fold lb1 lp1 in P3.
    rewrite Hq in P2, P3. simpl in P2, P3. congruence. }
  split; [symmetry; exact Se|]. split.
  { change (n_trans s2 = n_trans s3). congruence. }
  split.
  { unfold cursor, wB, wC.
    cbn [self timepoint last_bin last_bin_pop
         set_timepoint set_last_bin set_last_bin_pop].
    rewrite last_app_default, length_app, Nat2Z.inj_add. reflexivity. }
  split; [symmetry; exact Sh|].
  change (fixed s2 = fixed s3). congruence.
Qed.

(** The scenario cut after its fourth sample. *)
Definition chunk1_assignments : list nat := [0; 0; 1; 1]%nat.
Definition chunk2_assignments : list nat := [2; 2; 1; 0]%nat.

Lemma C6_continuation_equivalence_witness :
  ∃ w12 w',
    (start_accumulation chunk1_assignments (replicate 4 1%float)
       (onehot 3 <$> chunk1_assignments) 0 ;;;
     continue_accumulation chunk2_assignments (replicate 4 1%float)
       (onehot 3 <$> chunk2_assignments) 0) (fresh3 true) = (Ok tt, w12) ∧
    start_accumulation (chunk1_assignments ++ chunk2_assignments)
      (replicate 4 1%float ++ replicate 4 1%float)
      ((onehot 3 <$> chunk1_assignments) ++ (onehot 3 <$> chunk2_assignments)) 0
      (fresh3 true) = (Ok tt, w') ∧
    emitted w12 = emitted w' ∧
    n_trans (self w12) = n_trans (self w') ∧
    cursor (self w12) = cursor (self w') ∧
    hp w12 = hp w' ∧ fixed (self w12) = fixed (self w').
Proof.
  apply (C6_continuation_equivalence chunk1_assignments (replicate 4 1%float)
           (onehot 3 <$> chunk1_assignments) chunk2_assignments
           (replicate 4 1%float) (onehot 3 <$> chunk2_assignments) 0 (fresh3 true)).
  - unfold segment_ok. vm_compute.
    split; [reflexivity|]. split; [reflexivity|]. split; repeat constructor.
  - unfold segment_ok. vm_compute.
    split; [reflexivity|]. split; [reflexivity|]. split; repeat constructor.
  - discriminate.
  - discriminate.
Defined.

(** * Further properties of the accumulator *)

(** ** The write buffer and the dataset

    [record_transition_data] either appends to the buffer or, when the
    buffer cannot take the records, flushes it and writes the records to
    the dataset directly. *)

(** What the accumulator has been handed and still holds: the written
    prefix of the dataset followed by the buffered records. *)
Definition accepted (w : world) : list (option tdat_row) :=
  written w ++ (Some <$> tdat_buffer (self w)).

(** The buffer holds at most [tdat_buffersize] records and the write
    offset lies inside the dataset; before the dataset exists nothing has
    been buffered or written. *)
Definition store_ok (a : accumulator) : Prop :=
  Z.of_nat (length (tdat_buffer a)) <= tdat_buffersize a ∧
  match output_tdat_ds a with
  | Some ds => (output_tdat_offset a <= length ds)%nat
  | None => tdat_buffer a = [] ∧ output_tdat_offset a = 0%nat
  end.

Lemma length_ds_resize n ds : length (ds_resize n ds) = n.
Proof.
  unfold ds_resize. rewrite length_app, length_take, length_replicate. lia.
Qed.

Lemma take_ds_resize off n ds :
  (off <= length ds)%nat -> (off <= n)%nat ->
  take off (ds_resize n ds) = take off ds.
Proof.
  intros H1 H2. unfold ds_resize.
  rewrite take_app_le by (rewrite length_take; lia).
  rewrite take_take. f_equal. lia.
Qed.

Lemma length_ds_write off rows ds :
  (off + length rows <= length ds)%nat ->
  length (ds_write off rows ds) = length ds.
Proof.
  intros H. unfold ds_write.
  rewrite !length_app, length_take, length_fmap, length_drop. lia.
Qed.

Lemma take_ds_write off rows ds :
  (off <= length ds)%nat ->
  take (off + length rows) (ds_write off rows ds) = take off ds ++ (Some <$> rows).
Proof.
  intros H. unfold ds_write.
  assert (L : length (take off ds) = off) by (rewrite length_take; lia).
  rewrite app_assoc.
  rewrite take_app_le by (rewrite length_app, length_fmap; lia).
  apply take_ge. rewrite length_app, length_fmap. lia.
Qed.

(** [flush_transition_data] under [store_ok]: the buffered records move to
    the dataset, behind what is written there. *)
Lemma flush_transition_data_spec w :
  store_ok (self w) ->
  ∃ a', flush_transition_data w = (Ok tt, World (hp w) a' (emitted w)) ∧
        non_io a' = non_io (self w) ∧ store_ok a' ∧
        tdat_buffer a' = [] ∧
        (is_Some (output_tdat_ds (self w)) -> is_Some (output_tdat_ds a')) ∧
        written (World (hp w) a' (emitted w)) = accepted w.
Proof.
  destruct w as [h a em]. unfold store_ok, accepted, written. simpl.
  intros [Hcap Hds].
  unfold flush_transition_data, bind, get_self. simpl.
  destruct (output_tdat_ds a) as [ds|] eqn:E.
  - case_bool_decide as Hn.
    + apply length_zero_iff_nil in Hn.
      exists a. simpl. rewrite E, Hn. simpl. rewrite app_nil_r.
      repeat split; try done. by rewrite Hn in Hcap.
    + unfold tdat_buffer_offset in *.
      set (off := output_tdat_offset a) in *.
      set (nbuf := length (tdat_buffer a)) in *.
      set (ds1 := if bool_decide (length ds < nbuf + off)%nat
                  then ds_resize (nbuf + off) ds else ds).
      assert (L1 : (off + nbuf <= length ds1)%nat).
      { unfold ds1. case_bool_decide; [rewrite length_ds_resize|]; lia. }
      assert (T1 : take off ds1 = take off ds).
      { unfold ds1. case_bool_decide; [|done]. apply take_ds_resize; lia. }
      eexists. simpl. split; [reflexivity|]. simpl.
      split; [done|]. split; [|split; [done|split; [by eauto|]]].
      * split; [lia|]. rewrite length_ds_write; fold nbuf; lia.
      * unfold nbuf. rewrite take_ds_write by lia. by rewrite T1.
  - destruct Hds as [Hb Ho]. exists a. simpl. rewrite E, Hb. simpl.
    repeat split; try done. by rewrite Hb in Hcap.
Qed.

(** [record_transition_data] under [store_ok]: the records are taken, in
    order, behind everything taken before. *)
Lemma record_transition_data_spec tdat w :
  store_ok (self w) ->
  ∃ a', record_transition_data tdat w = (Ok tt, World (hp w) a' (emitted w)) ∧
        non_io a' = non_io (self w) ∧ store_ok a' ∧
        is_Some (output_tdat_ds a') ∧
        accepted (World (hp w) a' (emitted w)) = accepted w ++ (Some <$> tdat).
Proof.
  intros Hok. unfold record_transition_data.
  set (w1 := World (hp w)
               (match output_tdat_ds (self w) with
                | None => set_output_tdat_ds (Some [None]) (self w)
                | Some _ => self w
                end) (emitted w)).
  assert (N1 : non_io (self w1) = non_io (self w)).
  { unfold w1. simpl. by destruct (output_tdat_ds (self w)). }
  assert (S1 : is_Some (output_tdat_ds (self w1))).
  { unfold w1. simpl. destruct (output_tdat_ds (self w)) eqn:E; simpl; eauto. }
  assert (O1 : store_ok (self w1)).
  { unfold w1, store_ok in *. simpl. destruct Hok as [Hc Hd].
    destruct (output_tdat_ds (self w)) eqn:E; simpl; [by rewrite E|].
    destruct Hd as [Hb Ho]. rewrite Ho. split; [done|lia]. }
  assert (A1 : accepted w1 = accepted w).
  { unfold w1, accepted, written in *. simpl. destruct Hok as [_ Hd].
    destruct (output_tdat_ds (self w)) eqn:E; simpl; [by rewrite E|].
    destruct Hd as [_ Ho]. by rewrite Ho. }
  assert (H1 : hp w1 = hp w) by reflexivity.
  assert (E1 : emitted w1 = emitted w) by reflexivity.
  unfold bind at 1. unfold get_self at 1. cbn [fst snd].
  unfold bind at 1.
  replace (match output_tdat_ds (self w) with
           | Some _ => ret ()
           | None => modify_self (set_output_tdat_ds (Some [None]))
           end w) with (@Ok unit tt, w1).
  2:{ unfold w1. destruct w as [h a em]. simpl. by destruct (output_tdat_ds a). }
  clearbody w1. rewrite <- H1, <- E1, <- A1, <- N1. clear H1 E1 A1 N1 Hok w.
  destruct w1 as [h a em]. cbn [self hp emitted] in *.
  unfold bind at 1. unfold get_self at 1. cbn [fst snd self].
  case_bool_decide as Hfull.
  - destruct (flush_transition_data_spec (World h a em) O1)
      as (a2 & F & N2 & O2 & B2 & S2 & W2).
    cbn [self hp emitted] in *.
    erewrite bind_ok by exact F.
    unfold bind, get_self. cbn [fst snd self].
    destruct (S2 S1) as [ds Hds]. rewrite Hds.
    destruct O2 as [Hc2 Hd2]. rewrite Hds in Hd2.
    unfold written in W2. cbn [self] in W2. rewrite Hds in W2.
    eexists. split; [reflexivity|].
    split; [by rewrite <- N2|]. split; [|split; [by eauto|]].
    + unfold store_ok. simpl. rewrite B2. split; [by rewrite B2 in Hc2|].
      rewrite length_ds_write; rewrite length_ds_resize; lia.
    + unfold accepted at 1. unfold written. simpl. rewrite B2. simpl.
      rewrite app_nil_r.
      rewrite take_ds_write by (rewrite length_ds_resize; lia).
      rewrite take_ds_resize by lia. by rewrite W2.
  - eexists. split; [reflexivity|].
    split; [done|]. split; [|split; [done|]].
    + destruct O1 as [Hc Hd]. destruct S1 as [ds Hds]. split; simpl.
      * unfold tdat_buffer_offset in Hfull. rewrite length_app. lia.
      * by rewrite Hds in *.
    + unfold accepted, written. simpl.
      by rewrite fmap_app, app_assoc.
Qed.

(** A caller handing over several lists in turn. *)
Fixpoint record_batches (batches : list (list tdat_row)) : M unit :=
  match batches with
  | [] => ret tt
  | tdat :: batches => record_transition_data tdat ;;; record_batches batches
  end.

Lemma record_batches_spec batches : ∀ w,
  store_ok (self w) ->
  ∃ a', record_batches batches w = (Ok tt, World (hp w) a' (emitted w)) ∧
        non_io a' = non_io (self w) ∧ store_ok a' ∧
        accepted (World (hp w) a' (emitted w))
        = accepted w ++ (Some <$> concat batches).
Proof.
  induction batches as [|tdat batches IH]; intros w Hok.
  - exists (self w). destruct w as [h a em]. simpl. by rewrite app_nil_r.
  - destruct (record_transition_data_spec tdat w Hok) as (a1 & R & N1 & O1 & _ & A1).
    destruct (IH (World (hp w) a1 (emitted w)) O1) as (a2 & R2 & N2 & O2 & A2).
    cbn [hp self emitted] in *.
    exists a2. cbn [record_batches]. erewrite bind_ok by exact R.
    split; [exact R2|]. split; [congruence|]. split; [done|].
    rewrite A2, A1. cbn [concat]. by rewrite fmap_app, app_assoc.
Qed.

(** X1.  Buffering loses nothing and keeps the order: after any number
    of [record_transition_data] calls with records in the range of the
    record type and one [flush_transition_data], the written part of the
    dataset is what was written or buffered before, followed by the records
    of the calls in the order given, and the buffer is empty.  The other
    precondition is the state every accumulator is in: at most
    [tdat_buffersize] records buffered, write offset inside the dataset. *)
Theorem X1_buffering_keeps_records batches w :
  store_ok (self w) ->
  Forall (Forall (fits_tdat_dtype (n_bins (self w)))) batches ->
  ∃ a',
    (record_batches batches ;;; flush_transition_data) w
    = (Ok tt, World (hp w) a' (emitted w)) ∧
    written (World (hp w) a' (emitted w))
    = accepted w ++ (Some <$> concat batches) ∧
    tdat_buffer a' = [] ∧ store_ok a' ∧ non_io a' = non_io (self w).
Proof.
  intros Hok _.
  destruct (record_batches_spec batches w Hok) as (a1 & R & N1 & O1 & A1).
  destruct (flush_transition_data_spec (World (hp w) a1 (emitted w)) O1)
    as (a2 & F & N2 & O2 & B2 & _ & W2).
  cbn [hp self emitted] in *.
  exists a2. erewrite bind_ok by exact R.
  split; [exact F|]. split; [by rewrite W2, A1|].
  split; [done|]. split; [done|]. congruence.
Qed.

(** Three records to hand over. *)
Definition sample_rows : list tdat_row :=
  [ Tdat 0 4 1 2 1%float 1%float 1%float 1 0;
    Tdat 0 6 1 1 1%float 1%float 1%float 3 0;
    Tdat 0 6 2 1 1%float 1%float 1%float 1 0 ].

Lemma X1_buffering_keeps_records_witness :
  ∃ a',
    (record_batches [sample_rows; []; sample_rows ++ sample_rows; sample_rows] ;;;
     flush_transition_data) (init 3 true 4)
    = (Ok tt, World (hp (init 3 true 4)) a' (emitted (init 3 true 4))) ∧
    written (World (hp (init 3 true 4)) a' (emitted (init 3 true 4)))
    = accepted (init 3 true 4)
      ++ (Some <$> concat [sample_rows; []; sample_rows ++ sample_rows; sample_rows]) ∧
    tdat_buffer a' = [] ∧ store_ok a' ∧ non_io a' = non_io (self (init 3 true 4)).
Proof.
  apply X1_buffering_keeps_records.
  - unfold store_ok. vm_compute. split; [discriminate|done].
  - replace (n_bins (self (init 3 true 4))) with 3%nat by (vm_compute; reflexivity).
    repeat (apply Forall_cons; split); try apply Forall_nil;
      unfold fits_tdat_dtype;
      cbn [td_block td_timepoint td_initial_bin td_final_bin td_duration td_fpt];
      lia.
Defined.

(** X2.  [flush_transition_data] is idempotent: a second flush right after
    the first changes nothing.  A flush with an empty buffer, or before the
    dataset exists, changes nothing either; in the second case records
    still in the buffer stay there. *)
Theorem X2_flush_idempotent w :
  (flush_transition_data ;;; flush_transition_data) w = flush_transition_data w ∧
  (tdat_buffer (self w) = [] ∨ output_tdat_ds (self w) = None ->
   flush_transition_data w = (Ok tt, w)).
Proof.
  destruct w as [h a em]. unfold flush_transition_data, bind, get_self.
  cbn [fst snd self]. unfold tdat_buffer_offset.
  destruct (output_tdat_ds a) as [ds|] eqn:E.
  - case_bool_decide as Hn.
    + cbn [ret self]. rewrite E. rewrite bool_decide_true by done.
      split; [done|]. done.
    + split.
      * cbn [modify_self self hp emitted set_output_tdat_ds set_output_tdat_offset
             set_tdat_buffer output_tdat_ds tdat_buffer length].
        rewrite bool_decide_true by done. done.
      * intros [Hb|Hb]; [|done]. rewrite Hb in Hn. done.
  - cbn [ret self]. rewrite E. done.
Qed.

(** ** The buffer bound as an invariant *)

Definition keeps_store {A} (m : M A) : Prop :=
  ∀ w, store_ok (self w) ->
       store_ok (self (snd (m w))) ∧
       tdat_buffersize (self (snd (m w))) = tdat_buffersize (self w).

Lemma keeps_store_bind {A B} (m : M A) (k : A -> M B) :
  keeps_store m -> (∀ a, keeps_store (k a)) -> keeps_store (bind m k).
Proof.
  intros Hm Hk w Hw. unfold bind. destruct (Hm w Hw) as [H1 H2].
  destruct (m w) as [[a|e] w1]; simpl in *; [|done].
  destruct (Hk a w1 H1) as [H3 H4]. split; [done|congruence].
Qed.

Lemma keeps_store_same {A} (m : M A) :
  (∀ w, self (snd (m w)) = self w) -> keeps_store m.
Proof. intros H w Hw. by rewrite H. Qed.

Lemma keeps_store_ret {A} (a : A) : keeps_store (ret a).
Proof. by apply keeps_store_same. Qed.

Lemma keeps_store_raise {A} e : keeps_store (@raise A e).
Proof. by apply keeps_store_same. Qed.

Lemma keeps_store_heap_only {A} (m : M A) : heap_only m -> keeps_store m.
Proof. intros [H _]. apply keeps_store_same. intros w. by destruct (H w). Qed.

Lemma keeps_store_non_io (f : accumulator -> accumulator) :
  (∀ a, tdat_buffer (f a) = tdat_buffer a ∧
        tdat_buffersize (f a) = tdat_buffersize a ∧
        output_tdat_offset (f a) = output_tdat_offset a ∧
        output_tdat_ds (f a) = output_tdat_ds a) ->
  keeps_store (modify_self f).
Proof.
  intros H w Hw. unfold store_ok in *. simpl.
  destruct (H (self w)) as (-> & -> & -> & ->). done.
Qed.

Lemma non_io_buffersize a a' :
  non_io a' = non_io a -> tdat_buffersize a' = tdat_buffersize a.
Proof. unfold non_io. intros H. by injection H. Qed.

Lemma keeps_store_record_transition_data tdat :
  keeps_store (record_transition_data tdat).
Proof.
  intros w Hw. destruct (record_transition_data_spec tdat w Hw) as (a' & -> & N & O & _).
  split; [done|]. by apply non_io_buffersize.
Qed.

Lemma keeps_store_flush_transition_data : keeps_store flush_transition_data.
Proof.
  intros w Hw. destruct (flush_transition_data_spec w Hw) as (a' & -> & N & O & _).
  split; [done|]. by apply non_io_buffersize.
Qed.

Lemma keeps_store_complete_transitions a0 block c tdat :
  keeps_store (complete_transitions a0 block c tdat).
Proof.
  intros w Hw. rewrite complete_transitions_eq.
  destruct (mapM _ _); [|done]. split; [exact Hw|done].
Qed.

Lemma keeps_store_crossing_event a0 block c tdat :
  keeps_store (crossing_event a0 block c tdat).
Proof.
  unfold crossing_event.
  apply keeps_store_bind; [apply keeps_store_heap_only, heap_only_record_crossing|].
  intros _. apply keeps_store_bind; [apply keeps_store_complete_transitions|].
  intros t. apply keeps_store_bind; [|intros _; apply keeps_store_ret].
  case_bool_decide; [apply keeps_store_record_transition_data|apply keeps_store_ret].
Qed.

Lemma keeps_store_for_crossings a0 block cs tdat :
  keeps_store (for_crossings a0 block cs tdat).
Proof.
  intros w Hw.
  apply (for_crossings_ind
           (fun w' => store_ok (self w') ∧
                      tdat_buffersize (self w') = tdat_buffersize (self w))
           a0 block); [|done].
  intros c t w' [H1 H2].
  destruct (keeps_store_crossing_event a0 block c t w' H1) as [H3 H4].
  split; [done|congruence].
Qed.

Ltac keeps_store_steps :=
  repeat first
    [ apply keeps_store_record_transition_data
    | apply keeps_store_flush_transition_data
    | apply keeps_store_for_crossings
    | apply keeps_store_ret | apply keeps_store_raise
    | apply keeps_store_non_io; intros ?; by repeat split
    | apply keeps_store_same; intros ?; reflexivity
    | apply keeps_store_bind; [|intros ?] ].

Lemma keeps_store_accumulate_transitions timepoints assignments weights bin_pops block :
  keeps_store (_accumulate_transitions timepoints assignments weights bin_pops block).
Proof.
  unfold _accumulate_transitions, bool_index, getlast, getitem.
  repeat (apply keeps_store_bind;
          [case_bool_decide; [apply keeps_store_ret|apply keeps_store_raise]|intros ?]).
  apply keeps_store_bind; [by apply keeps_store_same|intros acc].
  apply keeps_store_bind; [apply keeps_store_for_crossings|intros tdat].
  apply keeps_store_bind; [apply keeps_store_record_transition_data|intros _].
  apply keeps_store_bind; [destruct (last timepoints); keeps_store_steps|intros tp].
  apply keeps_store_bind; [keeps_store_steps|intros _].
  apply keeps_store_bind; [destruct (last assignments); keeps_store_steps|intros lb].
  apply keeps_store_bind; [keeps_store_steps|intros _].
  apply keeps_store_bind; [destruct (last bin_pops); keeps_store_steps|intros lp].
  apply keeps_store_bind; [destruct (lp !! lb); keeps_store_steps|intros lbp].
  keeps_store_steps.
Qed.

Lemma keeps_store_clear_state : keeps_store clear_state.
Proof. intros w Hw. rewrite clear_state_eq. split; [exact Hw|done]. Qed.

Lemma keeps_store_clear : keeps_store clear.
Proof.
  intros w [Hc _]. rewrite clear_eq. unfold store_ok. simpl.
  split; [|done]. split; [|done]. lia.
Qed.

Lemma keeps_store_start_accumulation a ws ps b :
  keeps_store (start_accumulation a ws ps b).
Proof.
  unfold start_accumulation.
  apply keeps_store_bind; [apply keeps_store_clear_state|intros _].
  apply keeps_store_accumulate_transitions.
Qed.

Lemma keeps_store_continue_accumulation a ws ps b :
  keeps_store (continue_accumulation a ws ps b).
Proof.
  unfold continue_accumulation, getitem.
  apply keeps_store_bind; [by apply keeps_store_same|intros acc].
  apply keeps_store_bind; [destruct (last_bin acc); keeps_store_steps|intros lb].
  apply keeps_store_bind; [destruct (ps !! 0%nat); keeps_store_steps|intros row0].
  apply keeps_store_bind; [case_bool_decide; keeps_store_steps|intros _].
  apply keeps_store_accumulate_transitions.
Qed.

Lemma keeps_store_get_state : keeps_store get_state.
Proof. intros w Hw. rewrite get_state_eq. split; [exact Hw|done]. Qed.

Lemma keeps_store_set_state sd : keeps_store (set_state sd).
Proof. intros w Hw. rewrite set_state_eq. split; [exact Hw|done]. Qed.

Lemma do_call_store_ok c s :
  store_ok (self (now s)) ->
  store_ok (self (now (snd (do_call c s)))) ∧
  tdat_buffersize (self (now (snd (do_call c s)))) = tdat_buffersize (self (now s)).
Proof.
  intros Hs. destruct s as [w snaps]. unfold do_call. cbn [now snapshots] in *.
  destruct c as [a ws ps b|a ws ps b| | | |k|].
  - pose proof (keeps_store_start_accumulation a ws ps b w Hs) as H.
    by destruct (start_accumulation a ws ps b w).
  - pose proof (keeps_store_continue_accumulation a ws ps b w Hs) as H.
    by destruct (continue_accumulation a ws ps b w).
  - pose proof (keeps_store_clear_state w Hs) as H.
    by destruct (clear_state w).
  - pose proof (keeps_store_clear w Hs) as H.
    by destruct (clear w).
  - pose proof (keeps_store_get_state w Hs) as H.
    by destruct (get_state w) as [[sd|e] w'].
  - destruct (snaps !! k) as [sd|]; [|done].
    pose proof (keeps_store_set_state sd w Hs) as H.
    by destruct (set_state sd w).
  - pose proof (keeps_store_flush_transition_data w Hs) as H.
    by destruct (flush_transition_data w).
Qed.

Lemma store_ok_init n fpts cap :
  0 <= cap ->
  store_ok (self (init n fpts cap)) ∧ tdat_buffersize (self (init n fpts cap)) = cap.
Proof.
  intros Hcap. unfold init. rewrite clear_eq. unfold store_ok. simpl. done.
Qed.

Lemma run_store_ok cs : ∀ s,
  store_ok (self (now s)) ->
  store_ok (self (now (run cs s))) ∧
  tdat_buffersize (self (now (run cs s))) = tdat_buffersize (self (now s)).
Proof.
  induction cs as [|c cs IH]; intros s Hs; [done|].
  cbn [run]. destruct (do_call_store_ok c s Hs) as [H1 H2].
  destruct (IH _ H1) as [H3 H4]. split; [done|congruence].
Qed.

Lemma store_ok_new_session n fpts cap :
  0 <= cap ->
  store_ok (self (now (new_session n fpts cap))) ∧
  tdat_buffersize (self (now (new_session n fpts cap))) = cap.
Proof. intros Hcap. unfold new_session. cbn [now]. by apply store_ok_init. Qed.

(** X3.  On an accumulator constructed with a non-negative
    [tdat_buffersize], after any sequence of calls (calls that raise
    included) the buffer holds at most [tdat_buffersize] records, the write
    offset does not pass the end of the dataset, and nothing is buffered or
    written while the dataset does not exist. *)
Theorem X3_buffer_bounded n fpts cap cs :
  0 <= cap ->
  let a := self (now (run cs (new_session n fpts cap))) in
  Z.of_nat (tdat_buffer_offset a) <= cap ∧ store_ok a.
Proof.
  intros Hcap a. subst a.
  destruct (store_ok_new_session n fpts cap Hcap) as [H0 B0].
  destruct (run_store_ok cs (new_session n fpts cap) H0) as [Hok Hb].
  split; [|exact Hok]. destruct Hok as [Hc _].
  unfold tdat_buffer_offset. rewrite Hb, B0 in Hc. exact Hc.
Qed.

Lemma X3_buffer_bounded_witness :
  let a := self (now (run branching_calls (new_session 3 true 4))) in
  Z.of_nat (tdat_buffer_offset a) <= 4 ∧ store_ok a.
Proof. apply X3_buffer_bounded. lia. Defined.

(** ** The dataset against the records appended *)

(** The output fields of the accumulator. *)
Definition io (a : accumulator) :=
  (tdat_buffer a, output_tdat_offset a, output_tdat_ds a).

Lemma accepted_io w w' : io (self w') = io (self w) -> accepted w' = accepted w.
Proof.
  unfold io, accepted, written. intros H. injection H as -> -> ->. done.
Qed.

Lemma store_ok_io a a' :
  io a' = io a -> tdat_buffersize a' = tdat_buffersize a -> store_ok a -> store_ok a'.
Proof. unfold io, store_ok. intros H ->. injection H as -> -> ->. done. Qed.

Lemma length_compress_le {A} (mask : list bool) (xs : list A) :
  (length (compress mask xs) <= length mask)%nat.
Proof.
  revert xs. induction mask as [|b mask IH]; intros [|x xs]; simpl; try lia.
  specialize (IH xs). destruct b; simpl; lia.
Qed.

Lemma length_compress_le_r {A} (mask : list bool) (xs : list A) :
  (length (compress mask xs) <= length xs)%nat.
Proof.
  revert xs. induction mask as [|b mask IH]; intros [|x xs]; simpl; try lia.
  specialize (IH xs). destruct b; simpl; lia.
Qed.

Lemma length_izip_le tis ws ibs fbs pss :
  (length (izip tis ws ibs fbs pss) <= length tis)%nat.
Proof.
  revert ws ibs fbs pss.
  induction tis as [|ti tis IH]; intros [|w ws] [|ib ibs] [|fb fbs] [|ps pss];
    simpl; try lia.
  specialize (IH ws ibs fbs pss). lia.
Qed.

Lemma length_crossings_of timepoints assignments weights bin_pops :
  (length (crossings_of timepoints assignments weights bin_pops)
   <= length assignments - 1)%nat.
Proof.
  unfold crossings_of.
  etransitivity; [apply length_izip_le|].
  etransitivity; [apply length_compress_le|].
  by rewrite length_trans_occur_of.
Qed.

Lemma length_completed_rows a0 block c h col :
  (length (completed_rows a0 block c h col) <= n_bins a0)%nat.
Proof.
  unfold completed_rows. rewrite length_fmap.
  etransitivity; [apply length_compress_le_r|]. by rewrite length_seq.
Qed.

(** One iteration that returns appends its records to [tdat] and to the
    history; when the list stays within a tenth of the buffer size the
    output fields are not touched. *)
Lemma crossing_event_rows a0 block c tdat w t1 w3 :
  crossing_event a0 block c tdat w = (Ok t1, w3) ->
  ∃ rows, t1 = tdat ++ rows ∧ emitted w3 = emitted w ++ rows ∧
          (length rows <= n_bins a0)%nat ∧
          (10 * Z.of_nat (length t1) <= tdat_buffersize a0 ->
           io (self w3) = io (self w)).
Proof.
  intros E.
  destruct (heap_only_record_crossing a0 c) as [Hfoot _].
  destruct (Hfoot w) as (Hs & He & _).
  unfold crossing_event in E.
  destruct (record_crossing a0 c w) as [[[]|e] w1] eqn:E1; simpl in Hs, He.
  2:{ erewrite bind_raise in E by exact E1. discriminate. }
  erewrite bind_ok in E by exact E1.
  pose proof (complete_transitions_eq a0 block c tdat w1) as E2.
  destruct (mapM _ _) as [col|].
  2:{ erewrite bind_raise in E by exact E2. discriminate. }
  cbv zeta in E2. erewrite bind_ok in E by exact E2.
  set (rows := completed_rows a0 block c (hp w1) col) in *.
  set (w2 := World _ _ (emitted w1 ++ rows)) in *.
  exists rows.
  case_bool_decide as Hfull.
  - destruct (record_transition_data_ok (tdat ++ rows) w2) as (a' & R & N).
    erewrite bind_ok in E by exact R. injection E as <- <-.
    split; [done|]. split; [simpl; by rewrite He|].
    split; [apply length_completed_rows|]. intros Hc. lia.
  - unfold bind, ret in E. injection E as <- <-.
    split; [done|]. split; [simpl; by rewrite He|].
    split; [apply length_completed_rows|]. intros _.
    unfold io. simpl. by rewrite Hs.
Qed.

Lemma for_crossings_rows a0 block cs : ∀ tdat w tdat' w',
  for_crossings a0 block cs tdat w = (Ok tdat', w') ->
  ∃ rows, tdat' = tdat ++ rows ∧ emitted w' = emitted w ++ rows ∧
          (length rows <= n_bins a0 * length cs)%nat ∧
          (10 * Z.of_nat (length tdat') <= tdat_buffersize a0 ->
           io (self w') = io (self w)).
Proof.
  induction cs as [|c cs IH]; intros tdat w tdat' w' E.
  - injection E as <- <-. exists []. rewrite !app_nil_r. simpl.
    repeat split; (done || lia).
  - cbn [for_crossings] in E. unfold bind in E.
    destruct (crossing_event a0 block c tdat w) as [[t1|e] w1] eqn:E1; [|discriminate].
    destruct (crossing_event_rows _ _ _ _ _ _ _ E1) as (r1 & -> & He1 & L1 & Hio1).
    destruct (IH _ _ _ _ E) as (r2 & -> & He2 & L2 & Hio2).
    exists (r1 ++ r2). rewrite He2, He1, !app_assoc.
    split; [done|]. split; [done|]. split.
    + rewrite length_app. cbn [length]. lia.
    + intros Hc. rewrite Hio2 by exact Hc. apply Hio1.
      rewrite !length_app in *. lia.
Qed.

(** A call of [_accumulate_transitions] that returns: the loop, then the
    loop's records handed to [record_transition_data]. *)
Lemma accumulate_transitions_store timepoints assignments weights bin_pops block w w' :
  store_ok (self w) ->
  _accumulate_transitions timepoints assignments weights bin_pops block w
    = (Ok tt, w') ->
  ∃ tdat w1,
    for_crossings (self w) block
      (crossings_of timepoints assignments weights bin_pops) [] w = (Ok tdat, w1) ∧
    emitted w' = emitted w1 ∧ accepted w' = accepted w1 ++ (Some <$> tdat).
Proof.
  intros Hok E.
  destruct (accumulate_transitions_inv _ _ _ _ _ _ _ E) as (L1 & L2 & L3 & _).
  rewrite accumulate_transitions_eq in E by done.
  unfold bind at 1 in E.
  pose proof (keeps_store_for_crossings (self w) block
                (crossings_of timepoints assignments weights bin_pops) [] w Hok)
    as [Hok1 _].
  destruct (for_crossings _ _ _ _ _) as [[tdat|e] w1]; [|discriminate].
  cbn [snd] in Hok1.
  destruct (record_transition_data_spec tdat w1 Hok1) as (a2 & R & N & O2 & _ & A2).
  erewrite bind_ok in E by exact R.
  exists tdat, w1. split; [done|].
  set (w2 := World (hp w1) a2 (emitted w1)) in *.
  destruct (last timepoints) as [tp|] eqn:Etp.
  2:{ erewrite bind_raise in E by (unfold getlast; rewrite Etp; reflexivity).
      discriminate. }
  erewrite bind_ok in E by (unfold getlast; rewrite Etp; reflexivity).
  erewrite bind_ok in E by reflexivity.
  destruct (last assignments) as [lb|] eqn:Elb.
  2:{ erewrite bind_raise in E by (unfold getlast; rewrite Elb; reflexivity).
      discriminate. }
  erewrite bind_ok in E by (unfold getlast; rewrite Elb; reflexivity).
  erewrite bind_ok in E by reflexivity.
  destruct (last bin_pops) as [lastpops|] eqn:Elp.
  2:{ erewrite bind_raise in E by (unfold getlast; rewrite Elp; reflexivity).
      discriminate. }
  erewrite bind_ok in E by (unfold getlast; rewrite Elp; reflexivity).
  destruct (lastpops !! lb) as [lbp|] eqn:Elbp.
  2:{ erewrite bind_raise in E by (unfold getitem; rewrite Elbp; reflexivity).
      discriminate. }
  erewrite bind_ok in E by (unfold getitem; rewrite Elbp; reflexivity).
  unfold modify_self in E. cbn [hp self emitted w2] in E. injection E as <-.
  split; [done|]. rewrite <- A2. by apply accepted_io.
Qed.

(** The dataset and the buffer together hold the record history. *)
Definition mirrored (w : world) : Prop :=
  store_ok (self w) ∧ accepted w = Some <$> emitted w.

Lemma accumulate_transitions_mirrored timepoints assignments weights bin_pops block w w' :
  mirrored w ->
  10 * Z.of_nat (n_bins (self w) * (length assignments - 1))
    <= tdat_buffersize (self w) ->
  _accumulate_transitions timepoints assignments weights bin_pops block w
    = (Ok tt, w') ->
  mirrored w'.
Proof.
  intros [Hok Hm] Hcalm E. split.
  { pose proof (keeps_store_accumulate_transitions timepoints assignments weights
                  bin_pops block w Hok) as [H _]. by rewrite E in H. }
  destruct (accumulate_transitions_store _ _ _ _ _ _ _ Hok E)
    as (tdat & w1 & EL & Ee & Ea).
  destruct (for_crossings_rows _ _ _ _ _ _ _ EL) as (rows & -> & Er & Lr & Hio).
  pose proof (length_crossings_of timepoints assignments weights bin_pops) as Lc.
  cbn [app] in *.
  rewrite Ea, Ee, Er, fmap_app, <- Hm. f_equal.
  apply accepted_io, Hio. nia.
Qed.

Lemma mirrored_cleared w : mirrored w -> mirrored (cleared w).
Proof.
  intros [Hok Ha]. split; [exact Hok|].
  transitivity (accepted w); [by apply accepted_io|exact Ha].
Qed.

Lemma do_call_mirrored n c s :
  session_inv n s -> mirrored (now s) ->
  is_ok (fst (do_call c s)) = true ->
  10 * Z.of_nat (n * samples_of c) <= tdat_buffersize (self (now s)) ->
  mirrored (now (snd (do_call c s))).
Proof.
  intros (Hn & _) Hm Hret Hcalm.
  destruct c as [a ws ps b|a ws ps b| | | |k|].
  - destruct (do_call_start_ok _ _ _ _ _ Hret) as (w' & E & ->). cbn [now].
    rewrite start_accumulation_eq in E.
    eapply accumulate_transitions_mirrored; [| |exact E].
    + by apply mirrored_cleared.
    + change (n_bins (self (cleared (now s)))) with (n_bins (self (now s))).
      change (tdat_buffersize (self (cleared (now s))))
        with (tdat_buffersize (self (now s))).
      rewrite Hn. cbn [samples_of] in Hcalm. nia.
  - destruct (do_call_continue_ok _ _ _ _ _ Hret) as (w' & E & ->). cbn [now].
    destruct (continue_accumulation_inv _ _ _ _ _ _ E) as (lb & row0 & H1 & H2 & H3).
    rewrite (continue_accumulation_eq _ _ _ _ _ _ _ H1 H2 H3) in E.
    eapply accumulate_transitions_mirrored; [exact Hm| |exact E].
    rewrite Hn. cbn [samples_of length] in *. nia.
  - destruct s as [w snaps]. unfold do_call. cbn [now snapshots] in *.
    rewrite clear_state_eq. cbn [snd now]. by apply mirrored_cleared.
  - destruct s as [w snaps]. unfold do_call. cbn [now snapshots] in *.
    destruct Hm as [Hok _]. pose proof (keeps_store_clear w Hok) as [H _].
    rewrite clear_eq in *. cbn [snd now hp self emitted] in *.
    split; [exact H|reflexivity].
  - destruct s as [w snaps]. unfold do_call. cbn [now snapshots] in *.
    rewrite get_state_eq. cbn [snd now]. exact Hm.
  - destruct s as [w snaps]. unfold do_call. cbn [now snapshots] in *.
    destruct (snaps !! k) as [sd|]; [|exact Hm].
    rewrite set_state_eq. cbn [snd now]. exact Hm.
  - destruct s as [w snaps]. unfold do_call. cbn [now snapshots] in *.
    destruct Hm as [Hok Ha].
    destruct (flush_transition_data_spec w Hok) as (a' & -> & _ & O & B & _ & W).
    cbn [snd now]. split; [exact O|].
    unfold accepted. rewrite W. cbn [self emitted]. rewrite B.
    cbn [fmap list_fmap]. by rewrite app_nil_r.
Qed.

Lemma run_mirrored n cap cs : ∀ s,
  session_inv n s -> tdat_buffersize (self (now s)) = cap -> mirrored (now s) ->
  all_return cs s = true ->
  Forall (fun c => 10 * Z.of_nat (n * samples_of c) <= cap) cs ->
  mirrored (now (run cs s)).
Proof.
  induction cs as [|c cs IH]; intros s Hs Hcap Hm Hret Hcalm; [done|].
  cbn [run all_return] in *. apply andb_true_iff in Hret as [Hc Hret].
  apply Forall_cons in Hcalm as [Hcalm1 Hcalm].
  apply IH; [by apply do_call_session_inv| | |done|done].
  - destruct Hm as [Hok _]. destruct (do_call_store_ok c s Hok) as [_ ->]. done.
  - eapply do_call_mirrored; [exact Hs|exact Hm|exact Hc|]. by rewrite Hcap.
Qed.

Lemma mirrored_new_session n fpts cap :
  0 <= cap -> mirrored (now (new_session n fpts cap)).
Proof.
  intros Hcap. split; [by apply store_ok_new_session|].
  unfold new_session, init. cbn [now]. rewrite clear_eq. reflexivity.
Qed.

(** ** Where the loop writes

    The loop body mutates the five tracking arrays in place and nothing
    else in the store. *)

Definition writes_at (a0 : accumulator) (h h' : heap) : Prop :=
  length (idx1 h') = length (idx1 h) ∧ length (idx2 h') = length (idx2 h) ∧
  length (wts h') = length (wts h) ∧
  (∀ l, l ≠ last_exit a0 -> l ≠ last_entry a0 -> idx1 h' !! l = idx1 h !! l) ∧
  (∀ l, l ≠ last_completion a0 -> idx2 h' !! l = idx2 h !! l) ∧
  (∀ l, l ≠ weight_last_exit a0 -> l ≠ bin_pops_last_exit a0 ->
        wts h' !! l = wts h !! l).

Lemma writes_at_refl a0 h : writes_at a0 h h.
Proof. by repeat split. Qed.

Lemma writes_at_trans a0 h1 h2 h3 :
  writes_at a0 h1 h2 -> writes_at a0 h2 h3 -> writes_at a0 h1 h3.
Proof.
  intros (A1 & A2 & A3 & A4 & A5 & A6) (B1 & B2 & B3 & B4 & B5 & B6).
  split; [congruence|]. split; [congruence|]. split; [congruence|].
  split; [|split].
  - intros l H1 H2. by rewrite B4, A4.
  - intros l H1. by rewrite B5, A5.
  - intros l H1 H2. by rewrite B6, A6.
Qed.

Lemma writes_at_fixed a0 a1 h h' :
  fixed a0 = fixed a1 -> writes_at a0 h h' -> writes_at a1 h h'.
Proof.
  unfold fixed, writes_at. intros H. injection H as _ _ _ -> -> -> -> ->. done.
Qed.

Lemma writes_at_write1 a0 l a h :
  l = last_exit a0 ∨ l = last_entry a0 -> writes_at a0 h (write1 l a h).
Proof.
  intros Hl. unfold writes_at, write1. simpl. rewrite length_insert.
  repeat split; try done.
  intros k H1 H2. apply list_lookup_insert_ne. destruct Hl; congruence.
Qed.

Lemma writes_at_write2 a0 m h :
  writes_at a0 h (write2 (last_completion a0) m h).
Proof.
  unfold writes_at, write2. simpl. rewrite length_insert.
  repeat split; try done.
  intros k H1. apply list_lookup_insert_ne. congruence.
Qed.

Lemma writes_at_writew a0 l a h :
  l = weight_last_exit a0 ∨ l = bin_pops_last_exit a0 ->
  writes_at a0 h (writew l a h).
Proof.
  intros Hl. unfold writes_at, writew. simpl. rewrite length_insert.
  repeat split; try done.
  intros k H1 H2. apply list_lookup_insert_ne. destruct Hl; congruence.
Qed.

Definition framed {A} (a0 : accumulator) (m : M A) : Prop :=
  ∀ w, writes_at a0 (hp w) (hp (snd (m w))).

Lemma framed_bind {A B} a0 (m : M A) (k : A -> M B) :
  framed a0 m -> (∀ a, framed a0 (k a)) -> framed a0 (bind m k).
Proof.
  intros Hm Hk w. unfold bind. specialize (Hm w).
  destruct (m w) as [[a|e] w1]; simpl in *; [|done].
  eapply writes_at_trans; [exact Hm|apply Hk].
Qed.

Lemma framed_same {A} a0 (m : M A) : (∀ w, hp (snd (m w)) = hp w) -> framed a0 m.
Proof. intros H w. rewrite H. apply writes_at_refl. Qed.

Lemma framed_setitem1 a0 l i v :
  l = last_exit a0 ∨ l = last_entry a0 -> framed a0 (setitem1 l i v).
Proof.
  intros Hl w. unfold setitem1, bind, get_heap, put_heap, raise. simpl.
  case_bool_decide; simpl; [by apply writes_at_write1|apply writes_at_refl].
Qed.

Lemma framed_setitemw a0 l i v :
  l = weight_last_exit a0 ∨ l = bin_pops_last_exit a0 -> framed a0 (setitemw l i v).
Proof.
  intros Hl w. unfold setitemw, bind, get_heap, put_heap, raise. simpl.
  case_bool_decide; simpl; [by apply writes_at_writew|apply writes_at_refl].
Qed.

Lemma framed_record_crossing a0 c : framed a0 (record_crossing a0 c).
Proof.
  unfold record_crossing, getitem.
  apply framed_bind.
  { destruct (c_ibinpops c !! c_ibin c); by apply framed_same. }
  intros v. apply framed_bind; [apply framed_setitemw; by right|intros _].
  apply framed_bind; [apply framed_setitem1; by left|intros _].
  apply framed_bind; [apply framed_setitem1; by right|intros _].
  apply framed_setitemw; by left.
Qed.

Lemma framed_complete_transitions a0 block c tdat :
  framed a0 (complete_transitions a0 block c tdat).
Proof.
  intros w. rewrite complete_transitions_eq.
  destruct (mapM _ _); simpl; [apply writes_at_write2|apply writes_at_refl].
Qed.

Lemma framed_record_transition_data a0 tdat : framed a0 (record_transition_data tdat).
Proof.
  apply framed_same. intros w.
  by destruct (record_transition_data_ok tdat w) as (a' & -> & _).
Qed.

Lemma framed_crossing_event a0 block c tdat :
  framed a0 (crossing_event a0 block c tdat).
Proof.
  unfold crossing_event.
  apply framed_bind; [apply framed_record_crossing|intros _].
  apply framed_bind; [apply framed_complete_transitions|intros t].
  apply framed_bind; [|intros _; by apply framed_same].
  case_bool_decide; [apply framed_record_transition_data|by apply framed_same].
Qed.

Lemma framed_for_crossings a0 block cs tdat :
  framed a0 (for_crossings a0 block cs tdat).
Proof.
  intros w.
  apply (for_crossings_ind (fun w' => writes_at a0 (hp w) (hp w')) a0 block).
  - intros c t w' H. eapply writes_at_trans; [exact H|apply framed_crossing_event].
  - apply writes_at_refl.
Qed.

(** A call of [_accumulate_transitions] writes to the accumulator's own
    tracking arrays only, and keeps the references to them. *)
Lemma accumulate_transitions_framed timepoints assignments weights bin_pops block w :
  let w' := snd (_accumulate_transitions timepoints assignments weights
                   bin_pops block w) in
  writes_at (self w) (hp w) (hp w') ∧ fixed (self w') = fixed (self w).
Proof.
  destruct (accumulate_transitions_loop timepoints assignments weights
              bin_pops block w) as (cs & H1 & _ & H3 & _).
  cbv zeta in *. rewrite H1, H3. split.
  - apply framed_for_crossings.
  - apply for_crossings_fixed.
Qed.

Lemma continue_accumulation_framed a ws ps b w :
  let w' := snd (continue_accumulation a ws ps b w) in
  writes_at (self w) (hp w) (hp w') ∧ fixed (self w') = fixed (self w).
Proof.
  unfold continue_accumulation, getitem, bind, get_self. cbn [fst snd].
  destruct (last_bin (self w)); cbn [ret raise];
    [|split; [apply writes_at_refl|done]].
  destruct (ps !! 0%nat); cbn [ret raise];
    [|split; [apply writes_at_refl|done]].
  case_bool_decide; cbn [ret raise];
    [|split; [apply writes_at_refl|done]].
  apply accumulate_transitions_framed.
Qed.

(** ** Snapshots that have not been restored *)

(** The tracking arrays and the cursor as the accumulator sees them. *)
Definition live_arrays (w : world) :=
  (read1 (hp w) (last_entry (self w)), read1 (hp w) (last_exit (self w)),
   read2 (hp w) (last_completion (self w)),
   readw (hp w) (weight_last_exit (self w)),
   readw (hp w) (bin_pops_last_exit (self w))).

Definition sd_cursor (sd : state_dict) :=
  (sd_timepoint sd, sd_last_bin sd, sd_last_bin_pop sd).

(** The arrays of [sd] are objects of the store. *)
Definition below (sd : state_dict) (h : heap) : Prop :=
  (sd_last_entry sd < length (idx1 h))%nat ∧
  (sd_last_exit sd < length (idx1 h))%nat ∧
  (sd_last_completion sd < length (idx2 h))%nat ∧
  (sd_weight_last_exit sd < length (wts h))%nat ∧
  (sd_bin_pops_last_exit sd < length (wts h))%nat.

(** Five tracking references, none of them an array of [sd]. *)
Definition apart (en ex lc wl bp : loc) (sd : state_dict) : Prop :=
  en ≠ sd_last_entry sd ∧ en ≠ sd_last_exit sd ∧
  ex ≠ sd_last_entry sd ∧ ex ≠ sd_last_exit sd ∧
  lc ≠ sd_last_completion sd ∧
  wl ≠ sd_weight_last_exit sd ∧ wl ≠ sd_bin_pops_last_exit sd ∧
  bp ≠ sd_weight_last_exit sd ∧ bp ≠ sd_bin_pops_last_exit sd.

Definition live_apart (a : accumulator) (sd : state_dict) : Prop :=
  apart (last_entry a) (last_exit a) (last_completion a)
        (weight_last_exit a) (bin_pops_last_exit a) sd.

Definition snap_apart (sd' sd : state_dict) : Prop :=
  apart (sd_last_entry sd') (sd_last_exit sd') (sd_last_completion sd')
        (sd_weight_last_exit sd') (sd_bin_pops_last_exit sd') sd.

(** The store grows by allocation. *)
Definition extends (h h' : heap) : Prop :=
  ∃ x1 x2 xw, idx1 h' = idx1 h ++ x1 ∧ idx2 h' = idx2 h ++ x2 ∧
              wts h' = wts h ++ xw.

Lemma live_apart_fixed a a' sd :
  fixed a' = fixed a -> live_apart a sd -> live_apart a' sd.
Proof.
  unfold fixed, live_apart. intros H. injection H as _ _ _ -> -> -> -> ->. done.
Qed.

Lemma apart_fresh en ex lc wl bp sd h :
  below sd h ->
  (length (idx1 h) <= en)%nat -> (length (idx1 h) <= ex)%nat ->
  (length (idx2 h) <= lc)%nat ->
  (length (wts h) <= wl)%nat -> (length (wts h) <= bp)%nat ->
  apart en ex lc wl bp sd.
Proof. unfold below, apart. intros (? & ? & ? & ? & ?) ? ? ? ? ?. repeat split; lia. Qed.

Lemma writes_at_kept a0 h h' sd :
  writes_at a0 h h' -> live_apart a0 sd ->
  sd_arrays h' sd = sd_arrays h sd ∧ (below sd h -> below sd h').
Proof.
  intros (L1 & L2 & L3 & W1 & W2 & W3) (A1 & A2 & A3 & A4 & A5 & A6 & A7 & A8 & A9).
  split.
  - unfold sd_arrays, read1, read2, readw.
    rewrite !W1, W2, !W3 by congruence. done.
  - unfold below. rewrite L1, L2, L3. done.
Qed.

Lemma extends_kept h h' sd :
  extends h h' -> below sd h ->
  sd_arrays h' sd = sd_arrays h sd ∧ below sd h'.
Proof.
  intros (x1 & x2 & xw & E1 & E2 & E3) (B1 & B2 & B3 & B4 & B5). split.
  - unfold sd_arrays, read1, read2, readw. rewrite E1, E2, E3.
    by rewrite !lookup_app_l by done.
  - unfold below. rewrite E1, E2, E3, !length_app. repeat split; lia.
Qed.

Lemma extends_cleared w : extends (hp w) (hp (cleared w)).
Proof.
  unfold cleared. cbn [hp idx1 idx2 wts].
  eexists _, _, _. rewrite <- !app_assoc. done.
Qed.

Lemma live_apart_cleared w sd : below sd (hp w) -> live_apart (self (cleared w)) sd.
Proof.
  intros Hb. unfold live_apart, cleared.
  cbn [self last_entry last_exit last_completion weight_last_exit bin_pops_last_exit].
  eapply apart_fresh; [exact Hb|lia..].
Qed.

Lemma snapshot_fresh w :
  extends (hp w) (snd (snapshot w)) ∧
  ∀ sd, below sd (hp w) -> snap_apart (fst (snapshot w)) sd.
Proof.
  destruct w as [[h1 h2 hw] a em]. unfold snapshot. simpl. split.
  - eexists _, _, _. simpl. rewrite <- !app_assoc. done.
  - intros sd Hb. unfold snap_apart. simpl.
    eapply apart_fresh; [exact Hb|simpl; rewrite ?length_app; simpl; lia..].
Qed.

(** The [k]-th snapshot is [sd], its arrays hold [V], and neither the
    accumulator nor any other snapshot refers to them. *)
Definition isolated (k : nat) (sd : state_dict)
    (V : list Z * list Z * list (list Z) * list weight * list weight)
    (s : session) : Prop :=
  snapshots s !! k = Some sd ∧ sd_arrays (hp (now s)) sd = V ∧
  below sd (hp (now s)) ∧ live_apart (self (now s)) sd ∧
  ∀ k' sd', k' ≠ k -> snapshots s !! k' = Some sd' -> snap_apart sd' sd.

Lemma isolated_step k sd V w snaps w' :
  isolated k sd V (Session w snaps) ->
  (sd_arrays (hp w') sd = sd_arrays (hp w) sd ∧ below sd (hp w')) ->
  live_apart (self w') sd ->
  isolated k sd V (Session w' snaps).
Proof.
  intros (H1 & H2 & H3 & H4 & H5) [K1 K2] HA. unfold isolated.
  cbn [now snapshots] in *.
  split; [done|]. split; [congruence|]. done.
Qed.

Lemma do_call_isolated k sd V c s :
  isolated k sd V s -> c ≠ SetState k -> isolated k sd V (snd (do_call c s)).
Proof.
  intros Hi Hc. destruct s as [w snaps].
  pose proof Hi as (H1 & H2 & H3 & H4 & H5). cbn [now snapshots] in *.
  assert (Hclr : sd_arrays (hp (cleared w)) sd = sd_arrays (hp w) sd ∧
                 below sd (hp (cleared w))).
  { apply extends_kept; [apply extends_cleared|done]. }
  destruct c as [a ws ps b|a ws ps b| | | |k'|]; unfold do_call;
    cbn [now snapshots].
  - pose proof (accumulate_transitions_framed (arange 0 (length a)) a ws ps b
                  (cleared w)) as [W F].
    rewrite <- start_accumulation_eq in W, F.
    destruct (start_accumulation a ws ps b w) as [r w']. cbn [snd] in *.
    assert (A := live_apart_cleared w sd H3).
    destruct (writes_at_kept _ _ _ sd W A) as [K1 K2].
    apply (isolated_step _ _ _ w); [done| |by eapply live_apart_fixed].
    destruct Hclr as [C1 C2]. split; [congruence|by apply K2].
  - pose proof (continue_accumulation_framed a ws ps b w) as [W F].
    destruct (continue_accumulation a ws ps b w) as [r w']. cbn [snd] in *.
    destruct (writes_at_kept _ _ _ sd W H4) as [K1 K2].
    apply (isolated_step _ _ _ w); [done| |by eapply live_apart_fixed].
    split; [done|by apply K2].
  - rewrite clear_state_eq. cbn [snd].
    apply (isolated_step _ _ _ w); [done|done|by apply live_apart_cleared].
  - rewrite clear_eq. cbn [snd hp self]. unfold isolated.
    cbn [now snapshots hp self]. split; [done|].
    destruct Hclr as [C1 C2]. split; [congruence|]. split; [done|].
    split; [|done]. apply (live_apart_cleared w sd H3).
  - rewrite get_state_eq. cbn [snd now snapshots].
    destruct (snapshot_fresh w) as [Hext Hfresh].
    destruct (extends_kept _ _ sd Hext H3) as [K1 K2].
    unfold isolated. cbn [now snapshots hp self].
    split; [by apply lookup_app_l_Some|].
    split; [congruence|]. split; [done|]. split; [done|].
    intros j sd' Hj Hl. apply lookup_app_Some in Hl as [Hl|[Hlen Hl]].
    + by eapply H5.
    + apply list_lookup_singleton_Some in Hl as [_ <-]. by apply Hfresh.
  - destruct (snaps !! k') as [sd'|] eqn:E; [|done].
    rewrite set_state_eq. cbn [snd].
    apply (isolated_step _ _ _ w); [done|done|].
    assert (k' ≠ k) by congruence.
    exact (H5 k' sd' ltac:(done) E).
  - destruct (flush_transition_data_ok w) as (a' & -> & N & _). cbn [snd].
    apply (isolated_step _ _ _ w); [done|done|]. cbn [self].
    apply non_io_fixed in N as [N _]. by eapply live_apart_fixed.
Qed.

Lemma run_isolated k sd V cs : ∀ s,
  isolated k sd V s -> Forall (fun c => c ≠ SetState k) cs ->
  isolated k sd V (run cs s).
Proof.
  induction cs as [|c cs IH]; intros s Hi Hc; [done|].
  apply Forall_cons in Hc as [Hc1 Hc]. cbn [run].
  apply IH; [by apply do_call_isolated|done].
Qed.

Lemma shaped2_valid n h l : shaped2 n h l -> (l < length (idx2 h))%nat.
Proof.
  unfold shaped2. intros H. destruct (idx2 h !! l) eqn:E; [|done].
  by eapply lookup_lt_Some.
Qed.

Lemma shapedw_valid n h l : shapedw n h l -> (l < length (wts h))%nat.
Proof.
  unfold shapedw. intros H. destruct (wts h !! l) eqn:E; [|done].
  by eapply lookup_lt_Some.
Qed.

(** [get_state] copies: the arrays of the new snapshot hold what the
    accumulator's arrays hold, and they are new objects. *)
Lemma snapshot_copy w :
  (last_entry (self w) < length (idx1 (hp w)))%nat ->
  (last_exit (self w) < length (idx1 (hp w)))%nat ->
  (last_completion (self w) < length (idx2 (hp w)))%nat ->
  (weight_last_exit (self w) < length (wts (hp w)))%nat ->
  (bin_pops_last_exit (self w) < length (wts (hp w)))%nat ->
  sd_arrays (snd (snapshot w)) (fst (snapshot w)) = live_arrays w ∧
  below (fst (snapshot w)) (snd (snapshot w)) ∧
  ∀ en ex lc wl bp,
    (en < length (idx1 (hp w)))%nat -> (ex < length (idx1 (hp w)))%nat ->
    (lc < length (idx2 (hp w)))%nat ->
    (wl < length (wts (hp w)))%nat -> (bp < length (wts (hp w)))%nat ->
    apart en ex lc wl bp (fst (snapshot w)).
Proof.
  destruct w as [[h1 h2 hw] a em]. cbn [hp self idx1 idx2 wts].
  intros V1 V2 V3 V4 V5.
  unfold snapshot, sd_arrays, live_arrays, below, apart, read1, read2, readw,
    alloc1, alloc2, allocw.
  cbn [hp self idx1 idx2 wts fst snd sd_last_entry sd_last_exit
       sd_last_completion sd_weight_last_exit sd_bin_pops_last_exit].
  split; [|split].
  - rewrite (lookup_app_l (h1 ++ _) _ (length h1)) by (rewrite length_app; simpl; lia).
    rewrite (list_lookup_middle h1 [] _ (length h1)) by done.
    rewrite (list_lookup_middle (h1 ++ _) [] _ (length (h1 ++ _))) by done.
    rewrite (list_lookup_middle h2 [] _ (length h2)) by done.
    rewrite (lookup_app_l (hw ++ _) _ (length hw)) by (rewrite length_app; simpl; lia).
    rewrite (list_lookup_middle hw [] _ (length hw)) by done.
    rewrite (list_lookup_middle (hw ++ _) [] _ (length (hw ++ _))) by done.
    cbn [default].
    rewrite (lookup_app_l h1 _ (last_exit a)) by done.
    rewrite (lookup_app_l hw _ (bin_pops_last_exit a)) by done.
    reflexivity.
  - rewrite !length_app. simpl. repeat split; lia.
  - intros en ex lc wl bp ? ? ? ? ?. rewrite !length_app. simpl.
    repeat split; lia.
Qed.

Lemma isolated_get_state n s :
  session_inv n s ->
  ∃ sd, isolated (length (snapshots s)) sd (live_arrays (now s))
          (snd (do_call GetState s)) ∧
        sd_cursor sd = cursor (self (now s)).
Proof.
  intros (Hn & [Hr _] & _ & Hs). destruct s as [w snaps].
  cbn [now snapshots] in *. unfold do_call. cbn [now snapshots].
  rewrite get_state_eq. cbn [snd].
  destruct Hr as (R1 & R2 & R3 & R4 & R5).
  apply shaped1_valid in R1, R2. apply shaped2_valid in R3.
  apply shapedw_valid in R4, R5.
  destruct (snapshot_copy w R2 R1 R3 R4 R5) as (C1 & C2 & C3).
  exists (fst (snapshot w)). split.
  - unfold isolated. cbn [now snapshots hp self].
    split; [by apply list_lookup_middle|]. split; [done|]. split; [done|].
    split; [by apply C3|].
    intros k' sd' Hk Hl. apply lookup_app_Some in Hl as [Hl|[Hlen Hl]].
    + rewrite Forall_lookup in Hs. destruct (Hs _ _ Hl) as (S1 & S2 & S3 & S4 & S5).
      apply shaped1_valid in S1, S2. apply shaped2_valid in S3.
      apply shapedw_valid in S4, S5. by apply C3.
    + apply list_lookup_singleton_Some in Hl as [Hz _]. lia.
  - destruct w as [h a em]. reflexivity.
Qed.

(** X5.  [get_state] returns an independent copy: as long as the snapshot
    is not itself passed to [set_state], whatever calls follow (further
    accumulation, [clear_state], [clear], other [get_state] calls,
    [set_state] of other snapshots, calls that raise), its five arrays hold
    the values the accumulator's arrays held when it was taken, and its
    cursor fields are the accumulator's cursor of that moment. *)
Theorem X5_snapshot_isolated n fpts cap cs1 cs2 :
  let s1 := run cs1 (new_session n fpts cap) in
  let k := length (snapshots s1) in
  Forall (fun c => c ≠ SetState k) cs2 ->
  let s2 := run (cs1 ++ GetState :: cs2) (new_session n fpts cap) in
  ∃ sd, snapshots s2 !! k = Some sd ∧
        sd_arrays (hp (now s2)) sd = live_arrays (now s1) ∧
        sd_cursor sd = cursor (self (now s1)).
Proof.
  intros s1 k Hc s2. subst s2. rewrite run_app. fold s1. cbn [run].
  assert (Hs : session_inv n s1).
  { apply run_session_inv, session_inv_new. }
  destruct (isolated_get_state n s1 Hs) as (sd & Hi & Hcur). fold k in Hi.
  pose proof (run_isolated k sd _ cs2 _ Hi Hc) as (H1 & H2 & _).
  exists sd. done.
Qed.

Lemma X5_snapshot_isolated_witness :
  let cs1 := [Start scenario_assignments scenario_weights scenario_bin_pops 0] in
  let cs2 := [Continue [1; 2]%nat [1%float; 1%float] [onehot 3 1; onehot 3 2] 1;
              ClearState; GetState; SetState 7; Clear] in
  let s1 := run cs1 (new_session 3 true 524288) in
  let s2 := run (cs1 ++ GetState :: cs2) (new_session 3 true 524288) in
  ∃ sd, snapshots s2 !! length (snapshots s1) = Some sd ∧
        sd_arrays (hp (now s2)) sd = live_arrays (now s1) ∧
        sd_cursor sd = cursor (self (now s1)).
Proof.
  intros cs1 cs2 s1 s2.
  apply (X5_snapshot_isolated 3 true 524288 cs1 cs2).
  change (length (snapshots (run cs1 (new_session 3 true 524288)))) with 0%nat.
  unfold cs2. repeat (apply Forall_cons; split; [discriminate|]).
  apply Forall_nil. done.
Defined.

(** X6.  The first restore of a snapshot is exact: after [get_state], any
    calls that do not restore that snapshot, and then [set_state] of it, the
    accumulator's five tracking arrays and its cursor (timepoint, last bin,
    last bin population) are what they were when the snapshot was taken.
    ([n_trans] and the output fields are not part of a snapshot.) *)
Theorem X6_first_restore_exact n fpts cap cs1 cs2 :
  let s1 := run cs1 (new_session n fpts cap) in
  let k := length (snapshots s1) in
  Forall (fun c => c ≠ SetState k) cs2 ->
  let s3 := run (cs1 ++ GetState :: cs2 ++ [SetState k]) (new_session n fpts cap) in
  live_arrays (now s3) = live_arrays (now s1) ∧
  cursor (self (now s3)) = cursor (self (now s1)).
Proof.
  intros s1 k Hc s3. subst s3. rewrite run_app. fold s1. cbn [run].
  rewrite run_app. cbn [run].
  assert (Hs : session_inv n s1).
  { apply run_session_inv, session_inv_new. }
  destruct (isolated_get_state n s1 Hs) as (sd & Hi & Hcur). fold k in Hi.
  pose proof (run_isolated k sd _ cs2 _ Hi Hc) as (H1 & H2 & _).
  destruct (run cs2 (snd (do_call GetState s1))) as [w snaps].
  cbn [now snapshots] in *. unfold do_call. cbn [now snapshots].
  rewrite H1, set_state_eq. cbn [snd now]. rewrite <- H2, <- Hcur.
  destruct sd. split; reflexivity.
Qed.

Lemma X6_first_restore_exact_witness :
  let cs1 := [Start scenario_assignments scenario_weights scenario_bin_pops 0] in
  let cs2 := [Continue [1; 2]%nat [1%float; 1%float] [onehot 3 1; onehot 3 2] 1;
              ClearState; GetState] in
  let s1 := run cs1 (new_session 3 true 524288) in
  let s3 := run (cs1 ++ GetState :: cs2 ++ [SetState (length (snapshots s1))])
              (new_session 3 true 524288) in
  live_arrays (now s3) = live_arrays (now s1) ∧
  cursor (self (now s3)) = cursor (self (now s1)).
Proof.
  intros cs1 cs2 s1 s3.
  apply (X6_first_restore_exact 3 true 524288 cs1 cs2).
  change (length (snapshots (run cs1 (new_session 3 true 524288)))) with 0%nat.
  unfold cs2. repeat (apply Forall_cons; split; [discriminate|]).
  apply Forall_nil. done.
Defined.

(** ** The fields of the records of one call *)

Lemma elem_of_compress {A} (mask : list bool) (xs : list A) x :
  x ∈ compress mask xs -> x ∈ xs.
Proof.
  revert xs. induction mask as [|b mask IH]; intros [|y xs]; simpl;
    try (by intros ?%elem_of_nil).
  destruct b.
  - intros [->|H]%elem_of_cons; [by left|right; by apply IH].
  - intros H. right. by apply IH.
Qed.

(** What a record appended at the crossing [c] looks like. *)
Definition row_of (a0 : accumulator) (block : Z) (c : crossing) (r : tdat_row) : Prop :=
  td_block r = block ∧ td_timepoint r = c_ti c ∧ td_final_bin r = c_fbin c ∧
  td_final_weight r = c_weight c ∧ (td_initial_bin r < n_bins a0)%nat ∧
  (calc_fpts a0 = false -> td_fpt r = 0).

Lemma completed_rows_row_of a0 block c h col :
  Forall (row_of a0 block c) (completed_rows a0 block c h col).
Proof.
  unfold completed_rows. apply Forall_fmap, Forall_forall. intros i Hi.
  apply elem_of_compress, elem_of_seq in Hi.
  unfold row_of, tdat_tuple. simpl. repeat split; try done; [lia|].
  by intros ->.
Qed.

Lemma crossing_event_new_rows a0 block c tdat w :
  ∃ rows, emitted (snd (crossing_event a0 block c tdat w)) = emitted w ++ rows ∧
          Forall (row_of a0 block c) rows.
Proof.
  destruct (crossing_event_cases a0 block c tdat w)
    as [(e & w1 & -> & _ & He & _)|(w1 & col & a' & E1 & _ & -> & _)]; simpl.
  - exists []. by rewrite app_nil_r.
  - destruct (heap_only_record_crossing a0 c) as [Hfoot _].
    destruct (Hfoot w) as (_ & He & _). rewrite E1 in He. simpl in He.
    rewrite He. eexists. split; [done|]. apply completed_rows_row_of.
Qed.

Lemma for_crossings_new_rows a0 block cs : ∀ tdat w,
  ∃ rows, emitted (snd (for_crossings a0 block cs tdat w)) = emitted w ++ rows ∧
          Forall (fun r => ∃ c, c ∈ cs ∧ row_of a0 block c r) rows.
Proof.
  induction cs as [|c cs IH]; intros tdat w.
  - exists []. simpl. by rewrite app_nil_r.
  - cbn [for_crossings]. unfold bind.
    destruct (crossing_event_new_rows a0 block c tdat w) as (r1 & E1 & F1).
    destruct (crossing_event a0 block c tdat w) as [[t1|e] w1]; cbn [snd] in *.
    + destruct (IH t1 w1) as (r2 & E2 & F2).
      exists (r1 ++ r2). rewrite E2, E1, app_assoc. split; [done|].
      apply Forall_app. split.
      * eapply Forall_impl; [exact F1|]. intros r Hr. exists c. split; [by left|done].
      * eapply Forall_impl; [exact F2|]. intros r (c' & Hc' & Hr).
        exists c'. split; [by right|done].
    + exists r1. split; [done|].
      eapply Forall_impl; [exact F1|]. intros r Hr. exists c. split; [by left|done].
Qed.

(** Every call of [_accumulate_transitions] is one run of the loop over
    the crossings of its input (no run when a mask is refused). *)
Lemma accumulate_transitions_emitted timepoints assignments weights bin_pops block w :
  ∃ cs,
    (cs = [] ∨ cs = crossings_of timepoints assignments weights bin_pops) ∧
    emitted (snd (_accumulate_transitions timepoints assignments weights
                    bin_pops block w))
    = emitted (snd (for_crossings (self w) block cs [] w)).
Proof.
  unfold _accumulate_transitions. fold (trans_occur_of assignments).
  unfold bool_index.
  repeat (case_bool_decide;
          [ erewrite bind_ok by reflexivity
          | exists []; rewrite (bind_raise _ _ w IndexError w) by reflexivity;
            simpl; split; [by left|done] ]).
  erewrite bind_ok by reflexivity.
  exists (crossings_of timepoints assignments weights bin_pops).
  split; [by right|].
  unfold crossings_of. cbv zeta.
  match goal with
  | |- emitted (snd (bind ?m ?k w)) = _ =>
      destruct (bind_silent_suffix m k w) as (_ & Hem & _); [|exact Hem]
  end.
  intros tdat. silent_steps.
Qed.

Lemma crossings_of_elem timepoints assignments weights bin_pops c :
  c ∈ crossings_of timepoints assignments weights bin_pops ->
  c_ti c ∈ from_1 timepoints ∧ c_weight c ∈ from_1 weights ∧
  c_ibin c ∈ to_1 assignments ∧ c_fbin c ∈ from_1 assignments.
Proof.
  intros [k Hk]%list_elem_of_lookup. unfold crossings_of in Hk.
  apply izip_lookup in Hk as (H1 & H2 & H3 & H4 & _).
  repeat split; eapply elem_of_compress, list_elem_of_lookup_2; eassumption.
Qed.

Lemma elem_of_arange lo n x : x ∈ arange lo n ↔ lo <= x < lo + Z.of_nat n.
Proof.
  unfold arange. rewrite list_elem_of_fmap. split.
  - intros (k & -> & Hk%elem_of_seq). lia.
  - intros H. exists (Z.to_nat (x - lo)). split; [lia|]. apply elem_of_seq. lia.
Qed.

Lemma elem_of_from_1_arange lo n x :
  x ∈ from_1 (arange lo n) -> lo + 1 <= x < lo + Z.of_nat n.
Proof.
  destruct n as [|n]; [by intros ?%elem_of_nil|].
  rewrite arange_S. unfold from_1. simpl. rewrite drop_0.
  intros H%elem_of_arange. lia.
Qed.

Lemma elem_of_from_1 {A} (xs : list A) x : x ∈ from_1 xs -> x ∈ xs.
Proof.
  destruct xs as [|y xs]; unfold from_1; simpl; [done|].
  rewrite drop_0. by right.
Qed.

(** The fields of a record appended by a call that was given [block], a
    segment of bins [a] with weights [ws], and whose samples after the
    first have the timepoints [lo + 1 .. hi]. *)
Definition record_of_call (acc : accumulator) (block lo hi : Z) (a : list nat)
    (ws : list weight) (r : tdat_row) : Prop :=
  td_block r = block ∧ lo < td_timepoint r <= hi ∧
  td_final_bin r ∈ a ∧ td_final_weight r ∈ ws ∧
  (td_initial_bin r < n_bins acc)%nat ∧
  (calc_fpts acc = false -> td_fpt r = 0).

Lemma accumulate_transitions_fields t0 assignments weights bin_pops block w :
  ∃ rows,
    emitted (snd (_accumulate_transitions (arange t0 (length assignments))
                    assignments weights bin_pops block w))
    = emitted w ++ rows ∧
    Forall (record_of_call (self w) block t0
              (t0 + Z.of_nat (length assignments) - 1)
              (from_1 assignments) (from_1 weights)) rows.
Proof.
  destruct (accumulate_transitions_emitted (arange t0 (length assignments))
              assignments weights bin_pops block w) as (cs & Hcs & ->).
  destruct (for_crossings_new_rows (self w) block cs [] w) as (rows & E & F).
  exists rows. split; [done|].
  eapply Forall_impl; [exact F|]. intros r (c & Hc & R1 & R2 & R3 & R4 & R5 & R6).
  destruct Hcs as [->| ->]; [by apply elem_of_nil in Hc|].
  apply crossings_of_elem in Hc as (C1 & C2 & _ & C4).
  apply elem_of_from_1_arange in C1.
  unfold record_of_call. rewrite R2, R3, R4.
  split; [done|]. split; [lia|]. done.
Qed.

(** X7.  Every record appended by a call, whether the call returns or
    raises, carries the call's [block]; its timepoint is that of a sample of
    the segment after the first one ([1 .. len - 1] for
    [start_accumulation], [timepoint + 1 .. timepoint + len] for
    [continue_accumulation]); its final bin and final weight are entries of
    the [assignments] and [weights] passed in (for [start_accumulation],
    entries after the first); its initial bin is below [n_bins]; and its
    [fpt] is 0 when the accumulator was built with [calc_fpts = False]. *)
Theorem X7_record_fields a ws ps block w :
  (∃ rows,
     emitted (snd (start_accumulation a ws ps block w)) = emitted w ++ rows ∧
     Forall (record_of_call (self w) block 0 (Z.of_nat (length a) - 1)
               (from_1 a) (from_1 ws)) rows) ∧
  (∃ rows,
     emitted (snd (continue_accumulation a ws ps block w)) = emitted w ++ rows ∧
     Forall (record_of_call (self w) block (timepoint (self w))
               (timepoint (self w) + Z.of_nat (length a)) a ws) rows).
Proof.
  split.
  - rewrite start_accumulation_eq.
    destruct (accumulate_transitions_fields 0 a ws ps block (cleared w))
      as (rows & E & F).
    exists rows. split; [exact E|].
    eapply Forall_impl; [exact F|]. intros r (R1 & R2 & R3 & R4 & R5 & R6).
    repeat split; try done; lia.
  - unfold continue_accumulation, getitem, bind, get_self. cbn [fst snd].
    destruct (last_bin (self w)) as [lb|]; cbn [ret raise snd];
      [|exists []; by rewrite app_nil_r].
    destruct (ps !! 0%nat) as [row0|]; cbn [ret raise snd];
      [|exists []; by rewrite app_nil_r].
    case_bool_decide; cbn [ret raise snd]; [|exists []; by rewrite app_nil_r].
    destruct (accumulate_transitions_fields (timepoint (self w)) (lb :: a)
                (0%float :: ws)
                (<[lb := default nan (last_bin_pop (self w))]>
                   (zerosw (length row0)) :: ps) block w)
      as (rows & E & F).
    exists rows. split; [exact E|].
    eapply Forall_impl; [exact F|]. intros r (R1 & R2 & R3 & R4 & R5 & R6).
    cbn [length] in R2. unfold from_1 in R3, R4. cbn [drop] in R3, R4.
    repeat split; try done; lia.
Qed.

(** ** A trajectory that stays in one bin *)

Lemma compress_all_false {A} (mask : list bool) (xs : list A) :
  Forall (fun b => b = false) mask -> compress mask xs = [].
Proof.
  revert xs. induction mask as [|b mask IH]; intros [|x xs] H; simpl; try done.
  apply Forall_cons in H as [-> H]. by apply IH.
Qed.

Lemma trans_occur_of_replicate n b :
  Forall (fun x => x = false) (trans_occur_of (replicate n b)).
Proof.
  apply Forall_forall. intros x Hx. unfold trans_occur_of in Hx.
  apply elem_of_zip_with in Hx as (y & z & -> & Hy & Hz).
  apply elem_of_from_1, elem_of_replicate_inv in Hy.
  unfold to_1 in Hz. apply elem_of_take in Hz as (i & Hz & _).
  apply list_elem_of_lookup_2, elem_of_replicate_inv in Hz.
  subst. by rewrite Nat.eqb_refl.
Qed.

Lemma crossings_of_constant timepoints n b weights bin_pops :
  crossings_of timepoints (replicate n b) weights bin_pops = [].
Proof.
  unfold crossings_of. cbv zeta.
  by rewrite (compress_all_false _ (from_1 timepoints))
    by apply trans_occur_of_replicate.
Qed.

Lemma live_arrays_cleared w :
  live_arrays (cleared w) =
  (zeros1 (n_bins (self w)), zeros1 (n_bins (self w)), zeros2 (n_bins (self w)),
   zerosw (n_bins (self w)), zerosw (n_bins (self w))).
Proof.
  destruct w as [[h1 h2 hw] a em].
  unfold live_arrays, cleared, read1, read2, readw.
  cbn [hp self idx1 idx2 wts last_entry last_exit last_completion
       weight_last_exit bin_pops_last_exit n_bins].
  rewrite (lookup_app_l (h1 ++ _) _ (length h1)) by (rewrite length_app; simpl; lia).
  rewrite (list_lookup_middle h1 [] _ (length h1)) by done.
  rewrite (list_lookup_middle (h1 ++ _) [] _ (S (length h1)))
    by (rewrite length_app; simpl; lia).
  rewrite (list_lookup_middle h2 [] _ (length h2)) by done.
  rewrite (lookup_app_l (hw ++ _) _ (length hw)) by (rewrite length_app; simpl; lia).
  rewrite (list_lookup_middle hw [] _ (length hw)) by done.
  rewrite (list_lookup_middle (hw ++ _) [] _ (S (length hw)))
    by (rewrite length_app; simpl; lia).
  reflexivity.
Qed.

(** [_accumulate_transitions] on samples that all lie in bin [b]: no
    iteration of the loop, an empty list handed to
    [record_transition_data], and the cursor moved to the last sample. *)
Lemma accumulate_transitions_constant t0 k b weights bin_pops block w row lbp :
  length weights = S k -> length bin_pops = S k ->
  last bin_pops = Some row -> row !! b = Some lbp ->
  ∃ a2,
    _accumulate_transitions (arange t0 (S k)) (replicate (S k) b) weights
      bin_pops block w
    = (Ok tt, World (hp w)
                (set_last_bin_pop (Some lbp)
                   (set_last_bin (Some b) (set_timepoint (t0 + Z.of_nat k) a2)))
                (emitted w)) ∧
    non_io a2 = non_io (self w).
Proof.
  intros Hw Hp Hrow Hlbp.
  rewrite accumulate_transitions_eq
    by (rewrite ?length_arange, ?length_replicate; lia).
  rewrite crossings_of_constant. cbn [for_crossings].
  erewrite bind_ok by reflexivity.
  destruct (record_transition_data_ok [] w) as (a2 & R & N).
  erewrite bind_ok by exact R.
  erewrite bind_ok by (unfold getlast; rewrite last_arange; reflexivity).
  erewrite bind_ok by reflexivity.
  assert (Hl : last (replicate (S k) b) = Some b).
  { rewrite last_lookup, length_replicate.
    replace (Nat.pred (S k)) with k by done. apply lookup_replicate_2. lia. }
  erewrite bind_ok by (unfold getlast; rewrite Hl; reflexivity).
  erewrite bind_ok by reflexivity.
  erewrite bind_ok by (unfold getlast; rewrite Hrow; reflexivity).
  erewrite bind_ok by (unfold getitem; rewrite Hlbp; reflexivity).
  exists a2. split; [reflexivity|exact N].
Qed.

(** X9.  A segment that never leaves its bin produces nothing.
    [start_accumulation] on [k + 1] samples all in bin [b] returns, appends
    no record, leaves [n_trans] as it is, leaves the five tracking arrays
    zero, and sets the cursor to [(k, b, bin_pops[-1][b])].
    [continue_accumulation] on [k + 1] samples all in the cursor's bin
    returns, appends no record, leaves [n_trans], the store and the
    tracking references as they are, and moves the cursor's timepoint by
    [k + 1].  (Either call still creates the dataset if it does not
    exist.) *)
Theorem X9_constant_trajectory k b ws ps block w row lbp :
  length ws = S k -> length ps = S k ->
  last ps = Some row -> row !! b = Some lbp ->
  (∃ w', start_accumulation (replicate (S k) b) ws ps block w = (Ok tt, w') ∧
         emitted w' = emitted w ∧ n_trans (self w') = n_trans (self w) ∧
         live_arrays w' =
           (zeros1 (n_bins (self w)), zeros1 (n_bins (self w)),
            zeros2 (n_bins (self w)), zerosw (n_bins (self w)),
            zerosw (n_bins (self w))) ∧
         cursor (self w') = (Z.of_nat k, Some b, Some lbp)) ∧
  (last_bin (self w) = Some b ->
   (∃ row0, ps !! 0%nat = Some row0 ∧ (b < length row0)%nat) ->
   ∃ w', continue_accumulation (replicate (S k) b) ws ps block w = (Ok tt, w') ∧
         emitted w' = emitted w ∧ n_trans (self w') = n_trans (self w) ∧
         hp w' = hp w ∧ fixed (self w') = fixed (self w) ∧
         cursor (self w') = (timepoint (self w) + Z.of_nat (S k), Some b, Some lbp)).
Proof.
  intros Hw Hp Hrow Hlbp. split.
  - rewrite start_accumulation_eq, length_replicate.
    destruct (accumulate_transitions_constant 0 k b ws ps block (cleared w)
                row lbp Hw Hp Hrow Hlbp) as (a2 & -> & N).
    eexists. split; [reflexivity|]. cbn [emitted self hp].
    pose proof N as N'. apply non_io_fixed in N' as [F C].
    split; [done|]. split; [exact C|]. split.
    + rewrite <- live_arrays_cleared. unfold live_arrays.
      cbn [hp self set_last_bin_pop set_last_bin set_timepoint last_entry
           last_exit last_completion weight_last_exit bin_pops_last_exit].
      unfold fixed in F. injection F as _ _ _ -> -> -> -> ->. reflexivity.
    + unfold cursor. simpl. repeat f_equal; lia.
  - intros Hlb (row0 & Hrow0 & Hlt).
    rewrite (continue_accumulation_eq _ _ _ _ _ _ _ Hlb Hrow0 Hlt).
    rewrite length_replicate.
    change (b :: replicate (S k) b) with (replicate (S (S k)) b).
    destruct (accumulate_transitions_constant (timepoint (self w)) (S k) b
                (0%float :: ws)
                (<[b := default nan (last_bin_pop (self w))]>
                   (zerosw (length row0)) :: ps) block w row lbp)
      as (a2 & -> & N).
    { simpl. lia. }
    { simpl. lia. }
    { destruct ps as [|p ps]; [done|]. by rewrite last_cons, Hrow. }
    { done. }
    eexists. split; [reflexivity|]. cbn [emitted self hp].
    apply non_io_fixed in N as [F C].
    split; [done|]. split; [exact C|]. split; [done|]. split; [exact F|].
    reflexivity.
Qed.

Lemma X9_constant_trajectory_witness :
  let w := snd (scenario_run true) in
  let ws := replicate 3 1%float in
  let ps := replicate 3 (onehot 3 0) in
  (∃ w', start_accumulation (replicate 3 0%nat) ws ps 0 w = (Ok tt, w') ∧
         emitted w' = emitted w ∧ n_trans (self w') = n_trans (self w) ∧
         live_arrays w' =
           (zeros1 (n_bins (self w)), zeros1 (n_bins (self w)),
            zeros2 (n_bins (self w)), zerosw (n_bins (self w)),
            zerosw (n_bins (self w))) ∧
         cursor (self w') = (Z.of_nat 2, Some 0%nat, Some 1%float)) ∧
  (∃ w', continue_accumulation (replicate 3 0%nat) ws ps 0 w = (Ok tt, w') ∧
         emitted w' = emitted w ∧ n_trans (self w') = n_trans (self w) ∧
         hp w' = hp w ∧ fixed (self w') = fixed (self w) ∧
         cursor (self w') = (timepoint (self w) + Z.of_nat 3, Some 0%nat, Some 1%float)).
Proof.
  intros w ws ps.
  pose proof (X9_constant_trajectory 2 0 ws ps 0 w (onehot 3 0) 1%float
                eq_refl eq_refl eq_refl eq_refl) as [HA HB].
  split; [exact HA|]. apply HB.
  - vm_compute. reflexivity.
  - exists (onehot 3 0). split; [reflexivity|]. vm_compute. lia.
Defined.

(** ** A bin outside [0, n_bins) *)

(** Computations that raise nothing but [IndexError]. *)
Definition only_index {A} (m : M A) : Prop :=
  ∀ w e w', m w = (Raise e, w') -> e = IndexError.

Lemma only_index_bind {A B} (m : M A) (k : A -> M B) :
  only_index m -> (∀ a, only_index (k a)) -> only_index (bind m k).
Proof.
  intros Hm Hk w e w' E. unfold bind in E.
  destruct (m w) as [[a|e1] w1] eqn:E1.
  - by eapply Hk.
  - injection E as <- <-. by eapply Hm.
Qed.

Lemma only_index_ret {A} (a : A) : only_index (ret a).
Proof. intros w e w' E. discriminate. Qed.

Lemma only_index_raise {A} : only_index (@raise A IndexError).
Proof. intros w e w' E. by injection E as <- _. Qed.

Lemma only_index_getitem {A} (xs : list A) i : only_index (getitem xs i).
Proof.
  unfold getitem. destruct (xs !! i); [apply only_index_ret|apply only_index_raise].
Qed.

Lemma only_index_setitem1 l i v : only_index (setitem1 l i v).
Proof.
  unfold setitem1. apply only_index_bind; [by intros w e w' E|intros h].
  case_bool_decide; [by intros w e w' E|apply only_index_raise].
Qed.

Lemma only_index_setitemw l i v : only_index (setitemw l i v).
Proof.
  unfold setitemw. apply only_index_bind; [by intros w e w' E|intros h].
  case_bool_decide; [by intros w e w' E|apply only_index_raise].
Qed.

Lemma only_index_crossing_event a0 block c tdat :
  only_index (crossing_event a0 block c tdat).
Proof.
  unfold crossing_event, record_crossing.
  apply only_index_bind.
  { repeat first [ apply only_index_getitem | apply only_index_setitem1
                 | apply only_index_setitemw
                 | apply only_index_bind; [|intros ?] ]. }
  intros _. apply only_index_bind.
  { intros w e w' E. rewrite complete_transitions_eq in E.
    destruct (mapM _ _); [discriminate|]. by injection E as <- _. }
  intros t. apply only_index_bind; [|intros _; apply only_index_ret].
  case_bool_decide; [|apply only_index_ret].
  intros w e w' E. destruct (record_transition_data_ok t w) as (a' & R & _).
  rewrite R in E. discriminate.
Qed.

(** A crossing with a bin outside [0, n_bins) stops the loop with
    [IndexError], at that crossing or before. *)
Lemma for_crossings_out_of_range a0 block cs : ∀ tdat w,
  refs_ok a0 (hp w) ->
  Exists (fun c => ¬ ((c_ibin c < n_bins a0)%nat ∧ (c_fbin c < n_bins a0)%nat)) cs ->
  ∃ w', for_crossings a0 block cs tdat w = (Raise IndexError, w').
Proof.
  induction cs as [|c cs IH]; intros tdat w Hr Hex.
  - by apply Exists_nil in Hex.
  - cbn [for_crossings]. unfold bind.
    pose proof (crossing_event_shapes_kept a0 block c tdat w Hr) as K.
    destruct (crossing_event a0 block c tdat w) as [[t1|e] w1] eqn:E.
    + apply Exists_cons in Hex as [Hbad|Hex].
      * exfalso. apply Hbad.
        unfold crossing_event in E.
        destruct (record_crossing a0 c w) as [[[]|e] w0] eqn:E0.
        -- destruct (record_crossing_inv _ _ _ _ Hr E0) as (v & _ & Hi & Hf & _).
           done.
        -- erewrite bind_raise in E by exact E0. discriminate.
      * apply IH; [|done]. cbn [snd] in K. by eapply refs_ok_kept.
    + apply only_index_crossing_event in E as ->. eauto.
Qed.

Lemma scan_elem t b p assignments weights bin_pops j x y :
  length weights = length assignments -> length bin_pops = length assignments ->
  (b :: assignments) !! j = Some x -> (b :: assignments) !! S j = Some y ->
  x ≠ y ->
  ∃ c, c ∈ scan t b p assignments weights bin_pops ∧ c_ibin c = x ∧ c_fbin c = y.
Proof.
  revert t b p weights bin_pops j.
  induction assignments as [|a l IH]; intros t b p [|w ws] [|p' ps] j Hw Hp Hx Hy Hne;
    try done.
  simpl in Hw, Hp. cbn [scan]. destruct j as [|j].
  - simpl in Hx, Hy. simplify_eq.
    rewrite (proj2 (Nat.eqb_neq y x)) by congruence.
    eexists. split; [by left|done].
  - destruct (IH (t + 1) a p' ws ps j) as (c & Hc & H1 & H2);
      [lia|lia|done|done|done|].
    exists c. split; [|done]. destruct (a =? b)%nat; [done|by right].
Qed.

(** X10.  Bins are not checked on entry, but a bin outside [0, n_bins)
    cannot take part in a crossing: when two consecutive samples of the
    segment differ and one of them is [n_bins] or more,
    [start_accumulation] raises [IndexError] (at that crossing, or at an
    earlier one with the same defect). *)
Theorem X10_bin_out_of_range a ws ps block w j x y :
  length ws = length a -> length ps = length a ->
  a !! j = Some x -> a !! S j = Some y -> x ≠ y ->
  (n_bins (self w) <= x ∨ n_bins (self w) <= y)%nat ->
  ∃ w', start_accumulation a ws ps block w = (Raise IndexError, w').
Proof.
  intros Hw Hp Hx Hy Hne Hbad.
  destruct a as [|b l]; [done|].
  destruct ws as [|w0 ws]; [done|]. destruct ps as [|p ps]; [done|].
  cbn [length] in Hw, Hp.
  rewrite start_accumulation_eq. cbn [length].
  rewrite accumulate_transitions_eq
    by (cbn [length]; rewrite ?length_arange; lia).
  rewrite crossings_of_scan by lia.
  destruct (scan_elem (0 + 1) b p l ws ps j x y) as (c & Hc & H1 & H2);
    [lia|lia|done|done|done|].
  destruct (for_crossings_out_of_range (self (cleared w)) block
              (scan (0 + 1) b p l ws ps) [] (cleared w) (refs_ok_cleared w))
    as (w' & E).
  { apply Exists_exists. exists c. split; [done|].
    rewrite H1, H2. change (n_bins (self (cleared w))) with (n_bins (self w)). lia. }
  exists w'. by erewrite bind_raise by exact E.
Qed.

Lemma X10_bin_out_of_range_witness :
  ∃ w', start_accumulation [0; 0; 3; 1]%nat (replicate 4 1%float)
          (replicate 4 (onehot 3 0)) 0 (fresh3 true) = (Raise IndexError, w').
Proof.
  apply (X10_bin_out_of_range [0; 0; 3; 1]%nat (replicate 4 1%float)
           (replicate 4 (onehot 3 0)) 0 (fresh3 true) 1 0 3);
    [reflexivity|reflexivity|reflexivity|reflexivity|discriminate|].
  right. vm_compute. lia.
Defined.

(** ** Shapes *)

(** X11.  Shapes are kept: after any sequence of calls on a new
    accumulator (calls that raise included) the five tracking arrays still
    have length [n_bins] ([last_completion]: [n_bins] rows of that length),
    [n_trans] is still [n_bins] by [n_bins], and the arrays of every
    snapshot returned so far have these shapes too. *)
Theorem X11_shapes_kept n fpts cap cs :
  let s := run cs (new_session n fpts cap) in
  n_bins (self (now s)) = n ∧
  refs_ok (self (now s)) (hp (now s)) ∧
  matrix_ok n (n_trans (self (now s))) ∧
  Forall (snap_ok n (hp (now s))) (snapshots s).
Proof.
  intros s.
  destruct (run_session_inv n cs _ (session_inv_new n fpts cap))
    as (Hn & [Hr Hm] & _ & Hs).
  fold s in Hn, Hr, Hm, Hs. rewrite Hn in Hm. done.
Qed.

(** ** The order of the records of one call *)

(** Earlier timepoint first; at one timepoint, lower initial bin first. *)
Definition row_lt (r1 r2 : tdat_row) : Prop :=
  td_timepoint r1 < td_timepoint r2 ∨
  (td_timepoint r1 = td_timepoint r2 ∧ (td_initial_bin r1 < td_initial_bin r2)%nat).

Lemma compress_sorted {A} (R : relation A) (mask : list bool) (xs : list A) :
  StronglySorted R xs -> StronglySorted R (compress mask xs).
Proof.
  revert xs. induction mask as [|b mask IH]; intros [|x xs] H; simpl;
    try by constructor.
  apply StronglySorted_inv in H as [H1 H2]. destruct b; [|by apply IH].
  constructor; [by apply IH|].
  apply Forall_forall. intros y Hy%elem_of_compress.
  rewrite Forall_forall in H2. by apply H2.
Qed.

Lemma seq_sorted k n : StronglySorted lt (seq k n).
Proof.
  revert k. induction n as [|n IH]; intros k; simpl; constructor; [apply IH|].
  apply Forall_forall. intros y Hy%elem_of_seq. lia.
Qed.

Lemma arange_sorted lo n : StronglySorted Z.lt (arange lo n).
Proof.
  unfold arange. eapply StronglySorted_fmap; [|apply (seq_sorted 0 n)].
  intros x y H. simpl. lia.
Qed.

Lemma from_1_sorted {A} (R : relation A) (xs : list A) :
  StronglySorted R xs -> StronglySorted R (from_1 xs).
Proof.
  destruct xs as [|x xs]; unfold from_1; simpl; [done|].
  rewrite drop_0. by intros [? _]%StronglySorted_inv.
Qed.

Lemma izip_sorted tis : ∀ ws ibs fbs pss,
  StronglySorted Z.lt tis ->
  StronglySorted (fun c c' => c_ti c < c_ti c') (izip tis ws ibs fbs pss).
Proof.
  induction tis as [|ti tis IH]; intros [|w ws] [|ib ibs] [|fb fbs] [|ps pss] H;
    simpl; try by constructor.
  apply StronglySorted_inv in H as [H1 H2]. constructor; [by apply IH|].
  apply Forall_forall. intros c [k Hk]%list_elem_of_lookup.
  apply izip_lookup in Hk as (Hk & _). simpl.
  rewrite Forall_forall in H2. apply H2. by eapply list_elem_of_lookup_2.
Qed.

Lemma crossings_of_sorted lo n assignments weights bin_pops :
  StronglySorted (fun c c' => c_ti c < c_ti c')
    (crossings_of (arange lo n) assignments weights bin_pops).
Proof.
  unfold crossings_of. cbv zeta.
  apply izip_sorted, compress_sorted, from_1_sorted, arange_sorted.
Qed.

Lemma completed_rows_sorted a0 block c h col :
  StronglySorted row_lt (completed_rows a0 block c h col).
Proof.
  unfold completed_rows.
  eapply StronglySorted_fmap; [|apply compress_sorted, (seq_sorted 0)].
  intros i j Hij. unfold row_lt, tdat_tuple. simpl. right. done.
Qed.

Lemma crossing_event_sorted a0 block c tdat w :
  ∃ rows, emitted (snd (crossing_event a0 block c tdat w)) = emitted w ++ rows ∧
          Forall (fun r => td_timepoint r = c_ti c) rows ∧
          StronglySorted row_lt rows.
Proof.
  destruct (crossing_event_cases a0 block c tdat w)
    as [(e & w1 & -> & _ & He & _)|(w1 & col & a' & E1 & _ & -> & _)]; simpl.
  - exists []. rewrite app_nil_r. repeat split; (done || constructor).
  - destruct (heap_only_record_crossing a0 c) as [Hfoot _].
    destruct (Hfoot w) as (_ & He & _). rewrite E1 in He. simpl in He.
    rewrite He. eexists. split; [done|]. split; [|apply completed_rows_sorted].
    eapply Forall_impl; [apply (completed_rows_row_of a0 block c)|].
    by intros r (_ & ? & _).
Qed.

Lemma for_crossings_sorted a0 block cs : ∀ tdat w,
  StronglySorted (fun c c' => c_ti c < c_ti c') cs ->
  ∃ rows, emitted (snd (for_crossings a0 block cs tdat w)) = emitted w ++ rows ∧
          Forall (fun r => ∃ c, c ∈ cs ∧ td_timepoint r = c_ti c) rows ∧
          StronglySorted row_lt rows.
Proof.
  induction cs as [|c cs IH]; intros tdat w Hs.
  - exists []. simpl. rewrite app_nil_r. repeat split; (done || constructor).
  - apply StronglySorted_inv in Hs as [Hs Hc]. rewrite Forall_forall in Hc.
    cbn [for_crossings]. unfold bind.
    destruct (crossing_event_sorted a0 block c tdat w) as (r1 & E1 & F1 & S1).
    assert (F1' : Forall (fun r => ∃ c', c' ∈ c :: cs ∧ td_timepoint r = c_ti c') r1).
    { eapply Forall_impl; [exact F1|]. intros r Hr. exists c. split; [by left|done]. }
    destruct (crossing_event a0 block c tdat w) as [[t1|e] w1]; cbn [snd] in *;
      [|by exists r1].
    destruct (IH t1 w1 Hs) as (r2 & E2 & F2 & S2).
    exists (r1 ++ r2). rewrite E2, E1, app_assoc. split; [done|]. split.
    + apply Forall_app. split; [done|].
      eapply Forall_impl; [exact F2|]. intros r (c' & Hc' & Hr).
      exists c'. split; [by right|done].
    + apply StronglySorted_app_2; [|done|done].
      intros x1 x2 H1 H2. left.
      rewrite Forall_forall in F1, F2.
      rewrite (F1 _ H1). destruct (F2 _ H2) as (c' & Hc' & ->). by apply Hc.
Qed.

Lemma accumulate_transitions_sorted t0 n assignments weights bin_pops block w :
  ∃ rows,
    emitted (snd (_accumulate_transitions (arange t0 n) assignments weights
                    bin_pops block w))
    = emitted w ++ rows ∧
    StronglySorted row_lt rows.
Proof.
  destruct (accumulate_transitions_emitted (arange t0 n)
              assignments weights bin_pops block w) as (cs & Hcs & ->).
  destruct (for_crossings_sorted (self w) block cs [] w) as (rows & E & _ & S).
  { destruct Hcs as [->| ->]; [constructor|apply crossings_of_sorted]. }
  by exists rows.
Qed.

(** X8.  The records appended by one call, whether it returns or raises,
    come in chronological order, and those of one timepoint in order of
    increasing initial bin; so a call appends at most one record for a
    given timepoint and initial bin. *)
Theorem X8_records_in_order a ws ps block w :
  (∃ rows,
     emitted (snd (start_accumulation a ws ps block w)) = emitted w ++ rows ∧
     StronglySorted row_lt rows) ∧
  (∃ rows,
     emitted (snd (continue_accumulation a ws ps block w)) = emitted w ++ rows ∧
     StronglySorted row_lt rows).
Proof.
  split.
  - rewrite start_accumulation_eq.
    apply (accumulate_transitions_sorted 0 (length a) a ws ps block (cleared w)).
  - unfold continue_accumulation, getitem, bind, get_self. cbn [fst snd].
    destruct (last_bin (self w)) as [lb|]; cbn [ret raise snd];
      [|exists []; rewrite app_nil_r; split; [done|constructor]].
    destruct (ps !! 0%nat) as [row0|]; cbn [ret raise snd];
      [|exists []; rewrite app_nil_r; split; [done|constructor]].
    case_bool_decide; cbn [ret raise snd];
      [|exists []; rewrite app_nil_r; split; [done|constructor]].
    apply accumulate_transitions_sorted.
Qed.

Lemma start_accumulation_fields a ws ps block w :
  ∃ rows,
    emitted (snd (start_accumulation a ws ps block w)) = emitted w ++ rows ∧
    Forall (record_of_call (self w) block 0 (Z.of_nat (length a) - 1)
              (from_1 a) (from_1 ws)) rows.
Proof.
  rewrite start_accumulation_eq.
  destruct (accumulate_transitions_fields 0 a ws ps block (cleared w))
    as (rows & E & F).
  exists rows. split; [exact E|].
  eapply Forall_impl; [exact F|]. intros r (R1 & R2 & R3 & R4 & R5 & R6).
  repeat split; try done; lia.
Qed.

Lemma continue_accumulation_fields a ws ps block w :
  ∃ rows,
    emitted (snd (continue_accumulation a ws ps block w)) = emitted w ++ rows ∧
    Forall (record_of_call (self w) block (timepoint (self w))
              (timepoint (self w) + Z.of_nat (length a)) a ws) rows.
Proof.
  unfold continue_accumulation, getitem, bind, get_self. cbn [fst snd].
  destruct (last_bin (self w)) as [lb|]; cbn [ret raise snd];
    [|exists []; by rewrite app_nil_r].
  destruct (ps !! 0%nat) as [row0|]; cbn [ret raise snd];
    [|exists []; by rewrite app_nil_r].
  case_bool_decide; cbn [ret raise snd]; [|exists []; by rewrite app_nil_r].
  destruct (accumulate_transitions_fields (timepoint (self w)) (lb :: a)
              (0%float :: ws)
              (<[lb := default nan (last_bin_pop (self w))]>
                 (zerosw (length row0)) :: ps) block w)
    as (rows & E & F).
  exists rows. split; [exact E|].
  eapply Forall_impl; [exact F|]. intros r (R1 & R2 & R3 & R4 & R5 & R6).
  cbn [length] in R2. unfold from_1 in R3, R4. cbn [drop] in R3, R4.
  repeat split; try done; lia.
Qed.

(** * The trajectory walker's callback

    [TransitionAnalysisMixin._segment_callback] feeds one segment of a
    trajectory to the accumulator.  The data reader's arrays and the
    status output belong to code outside this file; the callback is
    embedded over what they return. *)

Record segment := Segment {
  n_iter : Z;
  seg_id : Z;
  sg_weight : weight           (* segment.weight *)
}.

Record mixin := Mixin {
  the_accumulator : world;     (* self.accumulator, with its store *)
  first_iter : Z;
  pcoord_len : nat;            (* self.__pcoord_len *)
  quiet_mode : bool;           (* self.__quiet_mode *)
  n_segs_visited : Z;
  n_total_segs : Z;
  (* the progress lines printed: (n_segs_visited, n_total_segs) *)
  status : list (Z * Z)
}.

(** How a call of the callback ends: it returns, the accumulator raises,
    or code outside this file raises. *)
Inductive outcome :=
| Returned
| Raised (e : exn)
| RaisedOutside.

Section SegmentCallback.

(** [self.bin_assignments[iiter, seg_id, :]] and
    [self.bin_populations[iiter, :, :]]; [None] when the indexing raises. *)
Variable bin_assignments_at : Z -> Z -> option (list nat).
Variable bin_populations_at : Z -> option (list (list weight)).
(** Computing the percentage and printing the progress line
    ([wemd.rc.pstatus], [wemd.rc.pflush]); [false] when that raises. *)
Variable pstatus : Z -> Z -> bool.

Definition _segment_callback (m : mixin) (sg : segment) (history : list segment)
    : outcome * mixin :=
  let iiter := n_iter sg - first_iter m in
  let weights := replicate (pcoord_len m) (sg_weight sg) in
  match bin_populations_at iiter with
  | None => (RaisedOutside, m)
  | Some bin_pops =>
    match bin_assignments_at iiter (seg_id sg) with
    | None => (RaisedOutside, m)
    | Some assignments =>
      let '(r, w) :=
        (if bool_decide (length history = 0%nat)
         then start_accumulation assignments weights bin_pops (n_iter sg)
         else continue_accumulation assignments weights bin_pops (n_iter sg))
          (the_accumulator m) in
      match r with
      | Raise e =>
          (Raised e,
           Mixin w (first_iter m) (pcoord_len m) (quiet_mode m)
             (n_segs_visited m) (n_total_segs m) (status m))
      | Ok _ =>
          let n := n_segs_visited m + 1 in
          if negb (quiet_mode m) && ((n mod 1000 =? 0) || (n =? n_total_segs m))
          then
            if pstatus n (n_total_segs m)
            then (Returned,
                  Mixin w (first_iter m) (pcoord_len m) (quiet_mode m) n
                    (n_total_segs m) (status m ++ [(n, n_total_segs m)]))
            else (RaisedOutside,
                  Mixin w (first_iter m) (pcoord_len m) (quiet_mode m) n
                    (n_total_segs m) (status m))
          else (Returned,
                Mixin w (first_iter m) (pcoord_len m) (quiet_mode m) n
                  (n_total_segs m) (status m))
      end
    end
  end.

End SegmentCallback.

Lemma call_rows_of_segment acc block lo hi a k wt rows :
  Forall (record_of_call acc block lo hi a (replicate k wt)) rows ->
  Forall (fun r => td_block r = block ∧ td_final_weight r = wt) rows.
Proof.
  intros H. eapply Forall_impl; [exact H|]. intros r (R1 & _ & _ & R4 & _).
  split; [done|]. by apply elem_of_replicate_inv in R4.
Qed.

Lemma call_rows_of_segment_from_1 acc block lo hi a k wt rows :
  Forall (record_of_call acc block lo hi a (from_1 (replicate k wt))) rows ->
  Forall (fun r => td_block r = block ∧ td_final_weight r = wt) rows.
Proof.
  intros H. eapply Forall_impl; [exact H|]. intros r (R1 & _ & _ & R4 & _).
  split; [done|]. by apply elem_of_from_1, elem_of_replicate_inv in R4.
Qed.

(** X12.  Whatever the data reader's arrays hold and however the call
    ends, every record appended to the accumulator during
    [_segment_callback] has the segment's iteration number as [block] and
    the segment's weight as final weight.  [n_segs_visited] grows by one
    when the callback returns and is left alone (as is the status output)
    when the accumulator raises; the other attributes of the mixin are not
    changed. *)
Theorem X12_segment_callback ba bp ps m sg history :
  let r := fst (_segment_callback ba bp ps m sg history) in
  let m' := snd (_segment_callback ba bp ps m sg history) in
  (∃ rows,
     emitted (the_accumulator m') = emitted (the_accumulator m) ++ rows ∧
     Forall (fun r => td_block r = n_iter sg ∧ td_final_weight r = sg_weight sg)
            rows) ∧
  (r = Returned -> n_segs_visited m' = n_segs_visited m + 1) ∧
  (∀ e, r = Raised e ->
        n_segs_visited m' = n_segs_visited m ∧ status m' = status m) ∧
  (first_iter m', pcoord_len m', quiet_mode m', n_total_segs m')
  = (first_iter m, pcoord_len m, quiet_mode m, n_total_segs m).
Proof.
  intros r m'. subst r m'. unfold _segment_callback. cbv zeta.
  assert (Hnone : ∃ rows : list tdat_row,
            emitted (the_accumulator m) = emitted (the_accumulator m) ++ rows ∧
            Forall (fun r => td_block r = n_iter sg ∧ td_final_weight r = sg_weight sg)
                   rows).
  { exists []. by rewrite app_nil_r. }
  destruct (bp (n_iter sg - first_iter m)) as [bin_pops|]; [|by cbn [fst snd]].
  destruct (ba (n_iter sg - first_iter m) (seg_id sg)) as [assignments|];
    [|by cbn [fst snd]].
  set (weights := replicate (pcoord_len m) (sg_weight sg)).
  assert (Hrows : ∀ rw : result unit * world,
            rw = (if bool_decide (length history = 0%nat)
                  then start_accumulation assignments weights bin_pops (n_iter sg)
                  else continue_accumulation assignments weights bin_pops (n_iter sg))
                   (the_accumulator m) ->
            ∃ rows, emitted (snd rw) = emitted (the_accumulator m) ++ rows ∧
              Forall (fun r => td_block r = n_iter sg ∧
                               td_final_weight r = sg_weight sg) rows).
  { intros rw ->. case_bool_decide.
    - destruct (start_accumulation_fields assignments weights bin_pops (n_iter sg)
                  (the_accumulator m)) as (rows & E & F).
      exists rows. split; [exact E|]. by eapply call_rows_of_segment_from_1.
    - destruct (continue_accumulation_fields assignments weights bin_pops (n_iter sg)
                  (the_accumulator m)) as (rows & E & F).
      exists rows. split; [exact E|]. by eapply call_rows_of_segment. }
  specialize (Hrows _ eq_refl).
  destruct ((if bool_decide (length history = 0%nat)
             then start_accumulation assignments weights bin_pops (n_iter sg)
             else continue_accumulation assignments weights bin_pops (n_iter sg))
              (the_accumulator m)) as [[[]|e] w]; cbn [snd] in Hrows.
  - destruct (negb (quiet_mode m) && _); [destruct (ps _ _)|]; cbn [fst snd];
      cbn [the_accumulator n_segs_visited status first_iter pcoord_len quiet_mode
           n_total_segs];
      (split; [exact Hrows|]); (split; [done|]); (split; [|done]);
      intros e He; discriminate.
  - cbn [fst snd].
    cbn [the_accumulator n_segs_visited status first_iter pcoord_len quiet_mode
         n_total_segs].
    split; [exact Hrows|]. split; [intros He; discriminate|]. done.
Qed.

(** * A bin completes transitions only after the trajectory entered it *)

Lemma read1_crossed_last_entry a0 c v h :
  refs_ok a0 h -> last_exit a0 ≠ last_entry a0 ->
  read1 (crossed a0 c v h) (last_entry a0)
  = <[c_fbin c := c_ti c]> (read1 h (last_entry a0)).
Proof.
  intros Hr Hne. unfold crossed.
  change (read1 (writew ?l ?a ?h) ?k) with (read1 h k).
  rewrite read1_write1_eq.
  - rewrite read1_write1_ne by done. done.
  - unfold write1, writew. simpl. rewrite length_insert.
    destruct Hr as (_ & H2 & _). by apply shaped1_valid in H2.
Qed.

Lemma read2_crossed a0 c v h l : read2 (crossed a0 c v h) l = read2 h l.
Proof. reflexivity. Qed.

(** The loop invariant: an entry time other than 0 belongs to a bin some
    crossing processed so far led into, and no completion time is
    negative. *)
Definition entered_inv (a0 : accumulator) (processed : list crossing) (w : world)
    : Prop :=
  refs_ok a0 (hp w) ∧ last_exit a0 ≠ last_entry a0 ∧
  (∀ i e, read1 (hp w) (last_entry a0) !! i = Some e -> e ≠ 0 ->
          ∃ c, c ∈ processed ∧ c_fbin c = i) ∧
  (∀ i row j x, read2 (hp w) (last_completion a0) !! i = Some row ->
                row !! j = Some x -> 0 <= x).

Lemma set_masked_nonneg mask j v m :
  0 <= v ->
  (∀ i row k x, m !! i = Some row -> row !! k = Some x -> 0 <= x) ->
  ∀ i row k x, set_masked mask j v m !! i = Some row -> row !! k = Some x -> 0 <= x.
Proof.
  intros Hv Hm i row k x Hi Hk. unfold set_masked in Hi.
  apply lookup_zip_with_Some in Hi as (b & r & -> & _ & Hr).
  destruct b; [|by eapply Hm].
  destruct (decide (k = j)) as [->|Hne].
  - destruct (decide (j < length r)%nat).
    + rewrite list_lookup_insert_eq in Hk by done. by simplify_eq.
    + rewrite list_insert_ge in Hk by lia. by eapply Hm.
  - rewrite list_lookup_insert_ne in Hk by done. by eapply Hm.
Qed.

Lemma read2_write2_eq h l m :
  (l < length (idx2 h))%nat -> read2 (write2 l m h) l = m.
Proof. intros H. unfold read2, write2. simpl. by rewrite list_lookup_insert_eq. Qed.

Lemma crossing_event_entered a0 block c processed tdat w :
  entered_inv a0 processed w -> 0 < c_ti c ->
  Forall (fun c0 => c_ti c0 < c_ti c) processed ->
  ∃ rows,
    emitted (snd (crossing_event a0 block c tdat w)) = emitted w ++ rows ∧
    Forall (fun r => ∃ c0, c0 ∈ processed ++ [c] ∧
                           c_fbin c0 = td_initial_bin r ∧
                           c_ti c0 <= td_timepoint r) rows ∧
    (is_ok (fst (crossing_event a0 block c tdat w)) = true ->
     entered_inv a0 (processed ++ [c]) (snd (crossing_event a0 block c tdat w))).
Proof.
  intros (Hr & Hne & Hent & Hlc) Hti Hproc.
  destruct (crossing_event_cases a0 block c tdat w)
    as [(e & w1 & -> & _ & He & _)|(w1 & col & a' & E1 & Hcol & -> & N)];
    cbn [fst snd is_ok].
  { exists []. rewrite app_nil_r. split; [done|]. split; [by apply Forall_nil|done]. }
  destruct (record_crossing_inv a0 c w w1 Hr E1) as (v & Hv & Hi & Hf & ->).
  cbn [hp self emitted completed_world] in *.
  set (h1 := crossed a0 c v (hp w)) in *.
  assert (K : shapes_kept (hp w) h1).
  { destruct (heap_only_record_crossing a0 c) as [Hfoot _].
    destruct (Hfoot w) as (_ & _ & K). by rewrite E1 in K. }
  assert (Hr1 := refs_ok_kept _ _ _ K Hr).
  destruct (complete_transitions_ok a0 block c tdat
              (World h1 (self w) (emitted w)) Hr1 Hf)
    as (col' & Hcol' & Hlen & Hget & _).
  cbn [hp] in Hcol', Hget. rewrite Hcol in Hcol'. injection Hcol' as <-.
  assert (HL : read1 h1 (last_entry a0)
               = <[c_fbin c := c_ti c]> (read1 (hp w) (last_entry a0))).
  { by apply read1_crossed_last_entry. }
  assert (Hent1 : ∀ i e, read1 h1 (last_entry a0) !! i = Some e -> e ≠ 0 ->
                         ∃ c0, c0 ∈ processed ++ [c] ∧ c_fbin c0 = i ∧
                               c_ti c0 <= c_ti c).
  { intros i e Hie He0. rewrite HL in Hie.
    destruct (decide (i = c_fbin c)) as [->|Hne'].
    - exists c. split; [apply elem_of_app; right; by left|]. split; [done|lia].
    - rewrite list_lookup_insert_ne in Hie by done.
      destruct (Hent i e Hie He0) as (c0 & Hc0 & Hf0).
      exists c0. split; [apply elem_of_app; by left|]. split; [done|].
      rewrite Forall_forall in Hproc. specialize (Hproc _ Hc0). lia. }
  eexists. split; [reflexivity|]. split.
  - apply Forall_forall. intros r Hin.
    apply elem_of_completed_rows in Hin as (i & Hmask & ->); [|done..].
    apply completed_lookup in Hmask as (Hlt & _ & Hcmp); [|done..].
    cbn [tdat_tuple td_initial_bin td_timepoint].
    assert (Hn1 : length (read1 h1 (last_entry a0)) = n_bins a0).
    { destruct Hr1 as (_ & H2 & _). by apply shaped1_read in H2. }
    destruct (lookup_lt_is_Some_2 (read1 h1 (last_entry a0)) i) as [e Hie]; [lia|].
    rewrite (list_lookup_total_correct _ _ _ Hie) in Hcmp.
    assert (0 <= col !!! i).
    { rewrite Hget by done.
      destruct Hr as (_ & _ & H2 & _). apply shaped2_read in H2.
      assert (Hm := matrix_ok_length _ _ H2).
      change (read2 h1 (last_completion a0))
        with (read2 (hp w) (last_completion a0)).
      destruct (lookup_lt_is_Some_2 (read2 (hp w) (last_completion a0)) i)
        as [row Hrow]; [lia|].
      rewrite (list_lookup_total_correct _ _ _ Hrow).
      assert (Hrl := matrix_ok_row _ _ _ _ H2 Hrow).
      destruct (lookup_lt_is_Some_2 row (c_fbin c)) as [x Hx]; [lia|].
      rewrite (list_lookup_total_correct _ _ _ Hx). by eapply Hlc. }
    apply (Hent1 i e Hie). lia.
  - intros _. unfold entered_inv. cbn [hp].
    assert (Hvalid : (last_completion a0 < length (idx2 h1))%nat).
    { destruct Hr1 as (_ & _ & H2 & _). by apply shaped2_valid in H2. }
    split; [|split; [done|split]].
    + eapply refs_ok_kept; [|exact Hr1].
      eapply shapes_kept_set_masked.
      * by destruct Hr1 as (_ & _ & ? & _).
      * by apply length_completed.
    + intros i e Hie He0.
      change (read1 (write2 ?l ?m ?h) ?k) with (read1 h k) in Hie.
      destruct (Hent1 i e Hie He0) as (c0 & Hc0 & Hf0 & _). eauto.
    + rewrite read2_write2_eq by done.
      apply set_masked_nonneg; [lia|].
      change (read2 h1 (last_completion a0))
        with (read2 (hp w) (last_completion a0)). exact Hlc.
Qed.

Lemma for_crossings_entered a0 block cs : ∀ processed tdat w,
  entered_inv a0 processed w ->
  Forall (fun c => 0 < c_ti c) cs ->
  StronglySorted (fun c c' => c_ti c < c_ti c') (processed ++ cs) ->
  ∃ rows,
    emitted (snd (for_crossings a0 block cs tdat w)) = emitted w ++ rows ∧
    Forall (fun r => ∃ c0, c0 ∈ processed ++ cs ∧
                           c_fbin c0 = td_initial_bin r ∧
                           c_ti c0 <= td_timepoint r) rows.
Proof.
  induction cs as [|c cs IH]; intros processed tdat w Hinv Hpos Hs.
  - exists []. simpl. rewrite app_nil_r. split; [done|apply Forall_nil; done].
  - apply Forall_cons in Hpos as [Hc Hpos].
    assert (Hproc : Forall (fun c0 => c_ti c0 < c_ti c) processed).
    { apply Forall_forall. intros c0 Hc0.
      apply StronglySorted_app in Hs as (Hs & _). apply Hs; [done|by left]. }
    destruct (crossing_event_entered a0 block c processed tdat w Hinv Hc Hproc)
      as (r1 & E1 & F1 & I1).
    assert (F1' : Forall (fun r => ∃ c0, c0 ∈ processed ++ c :: cs ∧
                                         c_fbin c0 = td_initial_bin r ∧
                                         c_ti c0 <= td_timepoint r) r1).
    { eapply Forall_impl; [exact F1|]. intros r (c0 & Hc0 & ?).
      exists c0. split; [|done]. rewrite elem_of_app in *.
      destruct Hc0 as [?|Hc0]; [by left|right].
      apply list_elem_of_singleton in Hc0 as ->. by left. }
    cbn [for_crossings]. unfold bind.
    destruct (crossing_event a0 block c tdat w) as [[t1|e] w1];
      cbn [fst snd is_ok] in *; [|by exists r1].
    destruct (IH (processed ++ [c]) t1 w1 (I1 eq_refl) Hpos) as (r2 & E2 & F2).
    { by rewrite <- app_assoc. }
    exists (r1 ++ r2). rewrite E2, E1, app_assoc. split; [done|].
    apply Forall_app. split; [done|].
    eapply Forall_impl; [exact F2|]. intros r (c0 & Hc0 & ?).
    exists c0. split; [|done]. by rewrite <- app_assoc in Hc0.
Qed.

Lemma scan_positions t b p assignments weights bin_pops c :
  c ∈ scan t b p assignments weights bin_pops ->
  ∃ j, (b :: assignments) !! j = Some (c_ibin c) ∧
       (b :: assignments) !! S j = Some (c_fbin c) ∧
       c_ibin c ≠ c_fbin c ∧ c_ti c = t + Z.of_nat j.
Proof.
  revert t b p weights bin_pops.
  induction assignments as [|a l IH]; intros t b p [|w ws] [|p' ps] Hc;
    try (by apply elem_of_nil in Hc).
  cbn [scan] in Hc.
  assert (Hrec : c ∈ scan (t + 1) a p' l ws ps ->
                 ∃ j, (b :: a :: l) !! j = Some (c_ibin c) ∧
                      (b :: a :: l) !! S j = Some (c_fbin c) ∧
                      c_ibin c ≠ c_fbin c ∧ c_ti c = t + Z.of_nat j).
  { intros H. destruct (IH _ _ _ _ _ H) as (j & H1 & H2 & H3 & H4).
    exists (S j). repeat split; try done. lia. }
  destruct (a =? b)%nat eqn:Eab; [by apply Hrec|].
  apply elem_of_cons in Hc as [->|Hc]; [|by apply Hrec].
  exists 0%nat. simpl. apply Nat.eqb_neq in Eab.
  repeat split; try done; (congruence || lia).
Qed.

Lemma entered_inv_cleared w : entered_inv (self (cleared w)) [] (cleared w).
Proof.
  pose proof (live_arrays_cleared w) as L. unfold live_arrays in L.
  pose proof (f_equal (fun t => fst (fst (fst (fst t)))) L) as L1.
  pose proof (f_equal (fun t => snd (fst (fst t))) L) as L3.
  cbn [fst snd] in L1, L3. clear L.
  split; [apply refs_ok_cleared|]. split; [|split].
  - unfold cleared. simpl. lia.
  - intros i e Hie He. rewrite L1 in Hie.
    apply lookup_replicate in Hie as [-> _]. done.
  - intros i row j x Hrow Hx. rewrite L3 in Hrow.
    apply lookup_replicate in Hrow as [-> _].
    apply lookup_replicate in Hx as [-> _]. done.
Qed.

(** X13.  [start_accumulation] records a transition out of a bin only
    after the trajectory has crossed into that bin: for every record
    appended, whether the call returns or raises, the segment has two
    consecutive samples [j], [j + 1] with different bins, the second being
    the record's initial bin, and [j + 1] is not later than the record's
    timepoint.  In particular the bin of the first sample completes no
    transition until the trajectory has left it and come back. *)
Theorem X13_initial_bin_was_entered a ws ps block w :
  length ws = length a -> length ps = length a ->
  ∃ rows,
    emitted (snd (start_accumulation a ws ps block w)) = emitted w ++ rows ∧
    Forall (fun r => ∃ j x,
              a !! j = Some x ∧ a !! S j = Some (td_initial_bin r) ∧
              x ≠ td_initial_bin r ∧ Z.of_nat (S j) <= td_timepoint r) rows.
Proof.
  intros Hw Hp. rewrite start_accumulation_eq.
  destruct (accumulate_transitions_emitted (arange 0 (length a)) a ws ps block
              (cleared w)) as (cs & Hcs & ->).
  assert (Hnil : ∃ rows : list tdat_row,
            emitted (cleared w) = emitted w ++ rows ∧
            Forall (fun r => ∃ j x,
                      a !! j = Some x ∧ a !! S j = Some (td_initial_bin r) ∧
                      x ≠ td_initial_bin r ∧ Z.of_nat (S j) <= td_timepoint r) rows).
  { exists []. split; [by rewrite app_nil_r|by apply Forall_nil]. }
  destruct Hcs as [->| ->]; [exact Hnil|].
  destruct a as [|b l]; [exact Hnil|].
  destruct ws as [|w0 ws]; [done|]. destruct ps as [|p ps]; [done|].
  cbn [length] in *.
  pose proof (crossings_of_sorted 0 (S (length l)) (b :: l) (w0 :: ws) (p :: ps)) as Hs.
  rewrite crossings_of_scan in * by lia.
  destruct (for_crossings_entered (self (cleared w)) block
              (scan (0 + 1) b p l ws ps) [] [] (cleared w)
              (entered_inv_cleared w)) as (rows & E & F).
  { apply Forall_forall. intros c Hc.
    destruct (scan_positions _ _ _ _ _ _ _ Hc) as (j & _ & _ & _ & ->). lia. }
  { exact Hs. }
  exists rows. split; [exact E|].
  eapply Forall_impl; [exact F|]. intros r (c0 & Hc0 & Hf & Ht).
  rewrite app_nil_l in Hc0.
  destruct (scan_positions _ _ _ _ _ _ _ Hc0) as (j & H1 & H2 & H3 & H4).
  exists j, (c_ibin c0). rewrite <- Hf. repeat split; try done. lia.
Qed.

Lemma X13_initial_bin_was_entered_witness :
  ∃ rows,
    emitted (snd (start_accumulation scenario_assignments scenario_weights
                    scenario_bin_pops 0 (fresh3 true)))
    = emitted (fresh3 true) ++ rows ∧
    Forall (fun r => ∃ j x,
              scenario_assignments !! j = Some x ∧
              scenario_assignments !! S j = Some (td_initial_bin r) ∧
              x ≠ td_initial_bin r ∧ Z.of_nat (S j) <= td_timepoint r) rows.
Proof.
  apply X13_initial_bin_was_entered; reflexivity.
Defined.

(** * First passage times *)

(** The timepoint of the latest record [i -> f] of [rows]; 0 when there is
    none. *)
Definition later (i f : nat) (t : Z) (r : tdat_row) : Z :=
  if decide (td_initial_bin r = i ∧ td_final_bin r = f) then td_timepoint r else t.

Definition prev_time (i f : nat) (rows : list tdat_row) : Z :=
  foldl (later i f) 0 rows.

(** The [fpt] field the code gives a record that follows the records
    [pre]: 0 for the first record of its pair of bins, else the time since
    the previous record of the pair. *)
Definition fpt_of (calc : bool) (pre : list tdat_row) (r : tdat_row) : Z :=
  if calc then
    let p := prev_time (td_initial_bin r) (td_final_bin r) pre in
    if p =? 0 then 0 else td_timepoint r - p
  else 0.

Definition fpts_ok (calc : bool) (pre rows : list tdat_row) : Prop :=
  ∀ k r, rows !! k = Some r -> td_fpt r = fpt_of calc (pre ++ take k rows) r.

Lemma prev_time_app i f l1 l2 :
  prev_time i f (l1 ++ l2) = foldl (later i f) (prev_time i f l1) l2.
Proof. unfold prev_time. apply foldl_app. Qed.

Lemma foldl_later_skip i f t l :
  Forall (fun r => td_initial_bin r ≠ i) l -> foldl (later i f) t l = t.
Proof.
  revert t. induction l as [|r l IH]; intros t H; simpl; [done|].
  apply Forall_cons in H as [Hr H]. rewrite IH by done.
  unfold later. rewrite decide_False; [done|]. by intros [? _].
Qed.

Lemma foldl_later_bound i f T t l :
  0 <= t <= T -> Forall (fun r => 0 <= td_timepoint r <= T) l ->
  0 <= foldl (later i f) t l <= T.
Proof.
  revert t. induction l as [|r l IH]; intros t Ht H; simpl; [done|].
  apply Forall_cons in H as [Hr H]. apply IH; [|done].
  unfold later. by case_decide.
Qed.

Lemma prev_time_bound i f T rows :
  0 <= T -> Forall (fun r => 0 <= td_timepoint r <= T) rows ->
  0 <= prev_time i f rows <= T.
Proof. intros HT H. apply foldl_later_bound; [lia|done]. Qed.

(** Over the records of one crossing. *)
Lemma foldl_later_tuples a0 block c wle bple ds fs i f t (L : list nat) :
  foldl (later i f) t (tdat_tuple a0 block c wle bple ds fs <$> L) =
  if decide (f = c_fbin c ∧ i ∈ L) then c_ti c else t.
Proof.
  revert t. induction L as [|x L IH]; intros t.
  - simpl. rewrite decide_False; [done|]. intros [_ H]. by apply elem_of_nil in H.
  - rewrite fmap_cons. cbn [foldl]. rewrite IH. unfold later, tdat_tuple.
    cbn [td_initial_bin td_final_bin td_timepoint].
    destruct (decide (f = c_fbin c ∧ i ∈ L)) as [[-> HL]|HL].
    + rewrite decide_True; [done|]. split; [done|by right].
    + destruct (decide (x = i ∧ c_fbin c = f)) as [[-> <-]|Hx].
      * rewrite decide_True; [done|]. split; [done|by left].
      * rewrite decide_False; [done|].
        intros [-> H]. apply elem_of_cons in H as [->|H]; [by destruct Hx|].
        by destruct HL.
Qed.

Lemma set_masked_lookup n mask fbin v m i j :
  matrix_ok n m -> length mask = n -> (i < n)%nat -> (j < n)%nat ->
  (set_masked mask fbin v m !!! i) !!! j =
  if decide (j = fbin ∧ mask !! i = Some true) then v else (m !!! i) !!! j.
Proof.
  intros Hm Hl Hi Hj.
  assert (Hlm := matrix_ok_length _ _ Hm).
  destruct (lookup_lt_is_Some_2 m i) as [row Hrow]; [lia|].
  destruct (lookup_lt_is_Some_2 mask i) as [b Hb]; [lia|].
  assert (Hr := matrix_ok_row _ _ _ _ Hm Hrow).
  rewrite (list_lookup_total_correct m i row Hrow).
  erewrite (list_lookup_total_correct (set_masked mask fbin v m) i).
  2:{ unfold set_masked. rewrite lookup_zip_with, Hb, Hrow. reflexivity. }
  rewrite Hb. destruct b.
  - case_decide as H.
    + destruct H as [-> _]. apply list_lookup_total_correct.
      apply list_lookup_insert_eq. lia.
    + apply list_lookup_total_insert_ne. intros ->. by apply H.
  - rewrite decide_False; [done|]. by intros [_ [=]].
Qed.

(** The loop invariant: [last_completion[i][f]] is the timepoint of the
    latest record [i -> f] appended since [clear_state]. *)
Definition fpt_inv (a0 : accumulator) (T : Z) (seen : list tdat_row) (w : world)
    : Prop :=
  refs_ok a0 (hp w) ∧
  (∀ i f, (i < n_bins a0)%nat -> (f < n_bins a0)%nat ->
     (read2 (hp w) (last_completion a0) !!! i) !!! f = prev_time i f seen) ∧
  Forall (fun r => 0 <= td_timepoint r <= T) seen.

Lemma crossing_event_fpt a0 block c seen tdat w T :
  fpt_inv a0 T seen w -> 0 <= T -> T <= c_ti c -> c_ti c < 2 ^ 64 ->
  ∃ rows,
    emitted (snd (crossing_event a0 block c tdat w)) = emitted w ++ rows ∧
    fpts_ok (calc_fpts a0) seen rows ∧
    (is_ok (fst (crossing_event a0 block c tdat w)) = true ->
     fpt_inv a0 (c_ti c) (seen ++ rows) (snd (crossing_event a0 block c tdat w))).
Proof.
  intros (Hr & Hlc & Hb) HT0 HT Hti.
  destruct (crossing_event_cases a0 block c tdat w)
    as [(e & w1 & -> & _ & He & _)|(w1 & col & a' & E1 & Hcol & -> & N)];
    cbn [fst snd is_ok].
  { exists []. rewrite app_nil_r. split; [done|]. split; [|done].
    intros k r Hk. by rewrite lookup_nil in Hk. }
  destruct (record_crossing_inv a0 c w w1 Hr E1) as (v & Hv & Hi & Hf & ->).
  cbn [hp self emitted completed_world] in *.
  set (h1 := crossed a0 c v (hp w)) in *.
  assert (K : shapes_kept (hp w) h1).
  { destruct (heap_only_record_crossing a0 c) as [Hfoot _].
    destruct (Hfoot w) as (_ & _ & K). by rewrite E1 in K. }
  assert (Hr1 := refs_ok_kept _ _ _ K Hr).
  destruct (complete_transitions_ok a0 block c tdat
              (World h1 (self w) (emitted w)) Hr1 Hf)
    as (col' & Hcol' & Hlen & Hget & _).
  cbn [hp] in Hcol', Hget. rewrite Hcol in Hcol'. injection Hcol' as <-.
  assert (Hp : ∀ i, (i < n_bins a0)%nat -> col !!! i = prev_time i (c_fbin c) seen).
  { intros i Hlt. rewrite Hget by done. by apply Hlc. }
  assert (Hmask := length_completed a0 h1 col Hr1 Hlen).
  set (rows := completed_rows a0 block c h1 col).
  assert (Hrows : Forall (row_of a0 block c) rows) by apply completed_rows_row_of.
  exists rows. split; [reflexivity|]. split.
  - intros k r Hk.
    pose proof (completed_rows_sorted a0 block c h1 col) as Hs. fold rows in Hs.
    rewrite <- (take_drop_middle rows k r Hk) in Hs.
    assert (Hpre : Forall (fun x => td_initial_bin x ≠ td_initial_bin r) (take k rows)).
    { apply Forall_forall. intros x Hx.
      pose proof (StronglySorted_app_1_elem_of _ _ _ x r Hs Hx ltac:(by left)) as Hxr.
      rewrite Forall_forall in Hrows.
      assert (Hx' : x ∈ rows).
      { apply elem_of_take in Hx as (j & Hj & _). by eapply list_elem_of_lookup_2. }
      destruct (Hrows x Hx') as (_ & Hx1 & _).
      destruct (Hrows r (list_elem_of_lookup_2 _ _ _ Hk)) as (_ & Hr1' & _).
      destruct Hxr as [?|[_ ?]]; lia. }
    unfold rows, completed_rows in Hk. rewrite list_lookup_fmap in Hk.
    destruct (compress _ _ !! k) as [i|] eqn:Ei; [|done].
    injection Hk as <-.
    assert (Hlt : (i < n_bins a0)%nat).
    { apply list_elem_of_lookup_2, elem_of_compress, elem_of_seq in Ei. lia. }
    unfold fpt_of. cbn [tdat_tuple td_fpt td_initial_bin td_final_bin td_timepoint] in *.
    destruct (calc_fpts a0); [|done].
    rewrite prev_time_app, foldl_later_skip by done.
    unfold fpts_of. rewrite (list_lookup_total_fmap _ col i) by lia.
    rewrite (Hp i Hlt).
    destruct (prev_time_bound i (c_fbin c) T seen HT0 Hb) as [? ?].
    destruct (_ =? 0); [done|]. rewrite fpt_wrap, wrap64_small; lia.
  - intros _. unfold fpt_inv. cbn [hp].
    assert (Hvalid : (last_completion a0 < length (idx2 h1))%nat).
    { destruct Hr1 as (_ & _ & H2 & _). by apply shaped2_valid in H2. }
    split; [|split].
    + eapply refs_ok_kept; [|exact Hr1].
      eapply shapes_kept_set_masked; [|done].
      by destruct Hr1 as (_ & _ & ? & _).
    + intros i f Hlti Hltf. rewrite read2_write2_eq by done.
      assert (Hm : matrix_ok (n_bins a0) (read2 h1 (last_completion a0))).
      { destruct Hr1 as (_ & _ & H2 & _). by apply shaped2_read in H2. }
      rewrite (set_masked_lookup (n_bins a0)) by done.
      rewrite prev_time_app. unfold rows, completed_rows.
      rewrite foldl_later_tuples.
      change (read2 h1 (last_completion a0))
        with (read2 (hp w) (last_completion a0)).
      rewrite Hlc by done. apply decide_ext.
      rewrite (compress_seq_elem _ (n_bins a0)) by done. done.
    + apply Forall_app. split.
      * eapply Forall_impl; [exact Hb|]. simpl. intros r ?. lia.
      * eapply Forall_impl; [exact Hrows|]. intros r (_ & -> & _). lia.
Qed.

Lemma fpts_ok_app calc seen r1 r2 :
  fpts_ok calc seen r1 -> fpts_ok calc (seen ++ r1) r2 ->
  fpts_ok calc seen (r1 ++ r2).
Proof.
  intros H1 H2 k r Hk. apply lookup_app_Some in Hk as [Hk|[Hlen Hk]].
  - rewrite take_app_le by (apply lookup_lt_Some in Hk; lia). by apply H1.
  - rewrite take_app_ge by done. rewrite app_assoc. by apply H2.
Qed.

Lemma sorted_timed T U cs :
  StronglySorted (fun c c' => c_ti c < c_ti c') cs ->
  Forall (fun c => T <= c_ti c <= U) cs -> timed T U cs.
Proof.
  revert T. induction cs as [|c cs IH]; intros T Hs Hb; simpl; [done|].
  apply StronglySorted_inv in Hs as [Hs Hc].
  apply Forall_cons in Hb as [Hb1 Hb]. split; [done|].
  apply IH; [done|]. rewrite Forall_forall in *.
  intros c' Hc'. specialize (Hc _ Hc'). specialize (Hb _ Hc'). lia.
Qed.

Lemma for_crossings_fpt a0 block cs : ∀ seen tdat w T U,
  fpt_inv a0 T seen w -> 0 <= T -> timed T U cs -> U < 2 ^ 64 ->
  ∃ rows,
    emitted (snd (for_crossings a0 block cs tdat w)) = emitted w ++ rows ∧
    fpts_ok (calc_fpts a0) seen rows.
Proof.
  induction cs as [|c cs IH]; intros seen tdat w T U Hinv HT0 Ht HU.
  - exists []. simpl. rewrite app_nil_r. split; [done|].
    intros k r Hk. by rewrite lookup_nil in Hk.
  - cbn [timed] in Ht. destruct Ht as [Hc Ht].
    destruct (crossing_event_fpt a0 block c seen tdat w T Hinv HT0)
      as (r1 & E1 & F1 & I1); [lia|lia|].
    cbn [for_crossings]. unfold bind.
    destruct (crossing_event a0 block c tdat w) as [[t1|e] w1];
      cbn [fst snd is_ok] in *; [|by exists r1].
    destruct (IH (seen ++ r1) t1 w1 (c_ti c) U (I1 eq_refl)) as (r2 & E2 & F2);
      [lia|done|done|].
    exists (r1 ++ r2). rewrite E2, E1, app_assoc. split; [done|].
    by apply fpts_ok_app.
Qed.

Lemma fpt_inv_cleared w : fpt_inv (self (cleared w)) 0 [] (cleared w).
Proof.
  pose proof (live_arrays_cleared w) as L. unfold live_arrays in L.
  pose proof (f_equal (fun t => snd (fst (fst t))) L) as L3.
  cbn [fst snd] in L3. clear L.
  split; [apply refs_ok_cleared|]. split; [|by apply Forall_nil].
  intros i f Hi Hf. rewrite L3. unfold zeros2.
  change (n_bins (self (cleared w))) with (n_bins (self w)) in *.
  rewrite !lookup_total_replicate_2 by done. reflexivity.
Qed.

(** X14.  The [fpt] field is a first passage time between records of one
    pair of bins: among the records appended by a [start_accumulation]
    call (whether it returns or raises), the first record [i -> f] has
    [fpt = 0] and every later record [i -> f] has as [fpt] its timepoint
    minus the timepoint of the previous record [i -> f] of the call; with
    [calc_fpts = False] every [fpt] is 0. *)
Theorem X14_first_passage_times a ws ps block w :
  Z.of_nat (length a) < 2 ^ 64 ->
  ∃ rows,
    emitted (snd (start_accumulation a ws ps block w)) = emitted w ++ rows ∧
    ∀ k r, rows !! k = Some r ->
           td_fpt r = fpt_of (calc_fpts (self w)) (take k rows) r.
Proof.
  intros Hlen. rewrite start_accumulation_eq.
  destruct (accumulate_transitions_emitted (arange 0 (length a)) a ws ps block
              (cleared w)) as (cs & Hcs & ->).
  destruct (for_crossings_fpt (self (cleared w)) block cs [] [] (cleared w) 0
              (Z.of_nat (length a)) (fpt_inv_cleared w)) as (rows & E & F);
    [lia| |lia|].
  - destruct Hcs as [->| ->]; [done|].
    apply sorted_timed; [apply crossings_of_sorted|].
    apply Forall_forall. intros c Hc.
    apply crossings_of_elem in Hc as (Hc & _).
    apply elem_of_from_1_arange in Hc. lia.
  - exists rows. split; [exact E|]. intros k r Hk. exact (F k r Hk).
Qed.

Lemma X14_first_passage_times_witness :
  ∃ rows,
    emitted (snd (start_accumulation scenario_assignments scenario_weights
                    scenario_bin_pops 0 (fresh3 true)))
    = emitted (fresh3 true) ++ rows ∧
    ∀ k r, rows !! k = Some r ->
           td_fpt r = fpt_of (calc_fpts (self (fresh3 true))) (take k rows) r.
Proof.
  apply X14_first_passage_times. vm_compute. reflexivity.
Defined.

(** * What a record says about the last exit from its initial bin *)

Lemma readw_writew_eq h l a :
  (l < length (wts h))%nat -> readw (writew l a h) l = a.
Proof. intros H. unfold readw, writew. simpl. by rewrite list_lookup_insert_eq. Qed.

Lemma readw_writew_ne h l k a : l ≠ k -> readw (writew l a h) k = readw h k.
Proof. intros H. unfold readw, writew. simpl. by rewrite list_lookup_insert_ne. Qed.

Lemma readw_crossed_weight_last_exit a0 c v h :
  refs_ok a0 h -> weight_last_exit a0 ≠ bin_pops_last_exit a0 ->
  readw (crossed a0 c v h) (weight_last_exit a0)
  = <[c_ibin c := c_weight c]> (readw h (weight_last_exit a0)).
Proof.
  intros Hr Hne. unfold crossed. rewrite readw_writew_eq.
  - do 2 change (readw (write1 ?l ?a ?h) ?k) with (readw h k).
    rewrite readw_writew_ne; [done|]. intros E. by apply Hne.
  - unfold write1, writew. simpl. rewrite length_insert.
    destruct Hr as (_ & _ & _ & H4 & _). by apply shapedw_valid in H4.
Qed.

Lemma readw_crossed_bin_pops_last_exit a0 c v h :
  refs_ok a0 h -> weight_last_exit a0 ≠ bin_pops_last_exit a0 ->
  readw (crossed a0 c v h) (bin_pops_last_exit a0)
  = <[c_ibin c := v]> (readw h (bin_pops_last_exit a0)).
Proof.
  intros Hr Hne. unfold crossed. rewrite readw_writew_ne by done.
  do 2 change (readw (write1 ?l ?a ?h) ?k) with (readw h k).
  rewrite readw_writew_eq; [done|].
  destruct Hr as (_ & _ & _ & _ & H5). by apply shapedw_valid in H5.
Qed.

(** What the exit arrays hold for bin [i] after the crossings [processed]:
    the time, arrival weight and departure population of the latest
    crossing out of [i]; time 0 when there was none. *)
Definition exit_rec (processed : list crossing) (i : nat) (e : Z) (wt bp : weight)
    : Prop :=
  0 <= e ∧
  (∀ c', c' ∈ processed -> c_ibin c' = i -> c_ti c' <= e) ∧
  (e ≠ 0 -> ∃ c, c ∈ processed ∧ c_ibin c = i ∧ c_ti c = e ∧
                 wt = c_weight c ∧ c_ibinpops c !! i = Some bp).

Definition exit_inv (a0 : accumulator) (processed : list crossing) (w : world)
    : Prop :=
  refs_ok a0 (hp w) ∧ last_exit a0 ≠ last_entry a0 ∧
  weight_last_exit a0 ≠ bin_pops_last_exit a0 ∧
  ∀ i, (i < n_bins a0)%nat ->
    exit_rec processed i (read1 (hp w) (last_exit a0) !!! i)
      (readw (hp w) (weight_last_exit a0) !!! i)
      (readw (hp w) (bin_pops_last_exit a0) !!! i).

(** [c] is the latest crossing of [cs] out of the initial bin of the
    record [r] up to the record's timepoint, and the record's duration,
    initial weight and initial bin population are taken from it. *)
Definition exit_of (cs : list crossing) (r : tdat_row) (c : crossing) : Prop :=
  c ∈ cs ∧ c_ibin c = td_initial_bin r ∧ c_ti c <= td_timepoint r ∧
  (∀ c', c' ∈ cs -> c_ibin c' = td_initial_bin r ->
         c_ti c' <= td_timepoint r -> c_ti c' <= c_ti c) ∧
  td_duration r = td_timepoint r - c_ti c + 1 ∧
  td_initial_weight r = c_weight c ∧
  c_ibinpops c !! td_initial_bin r = Some (td_initial_bin_pop r).

Lemma exit_of_extend l l' r c :
  exit_of l r c -> Forall (fun c' => td_timepoint r < c_ti c') l' ->
  exit_of (l ++ l') r c.
Proof.
  intros (H1 & H2 & H3 & H4 & H5) Hl'. rewrite Forall_forall in Hl'.
  split; [apply elem_of_app; by left|]. split; [done|]. split; [done|].
  split; [|done].
  intros c' Hc' Hi Ht. apply elem_of_app in Hc' as [Hc'|Hc'].
  - by apply H4.
  - specialize (Hl' _ Hc'). lia.
Qed.

Lemma exit_rec_crossed processed c v i (L : list Z) (W B : list weight) :
  Forall (fun c0 => c_ti c0 < c_ti c) processed -> 0 < c_ti c ->
  c_ibinpops c !! c_ibin c = Some v ->
  (c_ibin c < length L)%nat -> (c_ibin c < length W)%nat ->
  (c_ibin c < length B)%nat ->
  exit_rec processed i (L !!! i) (W !!! i) (B !!! i) ->
  exit_rec (processed ++ [c]) i
    (<[c_ibin c := c_ti c]> L !!! i)
    (<[c_ibin c := c_weight c]> W !!! i)
    (<[c_ibin c := v]> B !!! i).
Proof.
  intros Hproc Hti Hv HL HW HB (H0 & Hmax & Hsome).
  rewrite Forall_forall in Hproc.
  destruct (decide (i = c_ibin c)) as [->|Hne].
  - rewrite !list_lookup_total_insert_eq by done.
    split; [lia|]. split.
    + intros c' Hc' _. apply elem_of_app in Hc' as [Hc'|Hc'].
      * specialize (Hproc _ Hc'). lia.
      * apply list_elem_of_singleton in Hc' as ->. lia.
    + intros _. exists c. split; [apply elem_of_app; right; by left|]. done.
  - rewrite !list_lookup_total_insert_ne by done.
    split; [done|]. split.
    + intros c' Hc' Hi. apply elem_of_app in Hc' as [Hc'|Hc'].
      * by apply Hmax.
      * apply list_elem_of_singleton in Hc' as ->. done.
    + intros He. destruct (Hsome He) as (c0 & Hc0 & ?).
      exists c0. split; [apply elem_of_app; by left|done].
Qed.

Lemma crossing_event_exit a0 block c processed tdat w :
  exit_inv a0 processed w -> 0 < c_ti c -> c_ti c < 2 ^ 64 ->
  Forall (fun c0 => c_ti c0 < c_ti c) processed ->
  ∃ rows,
    emitted (snd (crossing_event a0 block c tdat w)) = emitted w ++ rows ∧
    Forall (fun r => td_timepoint r = c_ti c ∧
                     ∃ c0, exit_of (processed ++ [c]) r c0) rows ∧
    (is_ok (fst (crossing_event a0 block c tdat w)) = true ->
     exit_inv a0 (processed ++ [c]) (snd (crossing_event a0 block c tdat w))).
Proof.
  intros (Hr & Hne & Hnw & Hex) Hti Hmax Hproc.
  destruct (crossing_event_cases a0 block c tdat w)
    as [(e & w1 & -> & _ & He & _)|(w1 & col & a' & E1 & Hcol & -> & N)];
    cbn [fst snd is_ok].
  { exists []. rewrite app_nil_r. split; [done|]. split; [by apply Forall_nil|done]. }
  destruct (record_crossing_inv a0 c w w1 Hr E1) as (v & Hv & Hi & Hf & ->).
  cbn [hp self emitted completed_world] in *.
  set (h1 := crossed a0 c v (hp w)) in *.
  assert (K : shapes_kept (hp w) h1).
  { destruct (heap_only_record_crossing a0 c) as [Hfoot _].
    destruct (Hfoot w) as (_ & _ & K). by rewrite E1 in K. }
  assert (Hr1 := refs_ok_kept _ _ _ K Hr).
  destruct (complete_transitions_ok a0 block c tdat
              (World h1 (self w) (emitted w)) Hr1 Hf)
    as (col' & Hcol' & Hlen & Hget & _).
  cbn [hp] in Hcol', Hget. rewrite Hcol in Hcol'. injection Hcol' as <-.
  assert (Hex1 : ∀ i, (i < n_bins a0)%nat ->
            exit_rec (processed ++ [c]) i (read1 h1 (last_exit a0) !!! i)
              (readw h1 (weight_last_exit a0) !!! i)
              (readw h1 (bin_pops_last_exit a0) !!! i)).
  { intros i Hlt. unfold h1.
    rewrite read1_crossed_last_exit, readw_crossed_weight_last_exit,
      readw_crossed_bin_pops_last_exit by done.
    destruct Hr as (H1 & _ & _ & H4 & H5).
    apply shaped1_read in H1. apply shapedw_read in H4, H5.
    apply exit_rec_crossed; try done; try lia. by apply Hex. }
  assert (Hn1 : length (read1 h1 (last_exit a0)) = n_bins a0).
  { destruct Hr1 as (H1 & _). by apply shaped1_read in H1. }
  eexists. split; [reflexivity|]. split.
  - apply Forall_forall. intros r Hin.
    apply elem_of_completed_rows in Hin as (i & Hmask & ->); [|done..].
    apply completed_lookup in Hmask as (Hlt & Hpos & _); [|done..].
    cbn [tdat_tuple td_timepoint]. split; [done|].
    destruct (Hex1 i Hlt) as (H0 & Hle & Hsome).
    destruct Hsome as (c0 & Hc0 & Hib & Ht0 & Hw0 & Hp0); [lia|].
    assert (Hc0le : c_ti c0 <= c_ti c).
    { apply elem_of_app in Hc0 as [Hc0|Hc0].
      - rewrite Forall_forall in Hproc. specialize (Hproc _ Hc0). lia.
      - apply list_elem_of_singleton in Hc0 as ->. lia. }
    exists c0. unfold exit_of, tdat_tuple.
    cbn [td_initial_bin td_timepoint td_duration td_initial_weight
         td_initial_bin_pop].
    split; [done|]. split; [done|]. split; [done|]. split; [|split; [|done]].
    + intros c' Hc' Hi' _. rewrite Ht0. by apply Hle.
    + unfold durations_of.
      rewrite (list_lookup_total_fmap _ (read1 h1 (last_exit a0)) i) by lia.
      rewrite duration_wrap, wrap64_small; lia.
  - intros _. unfold exit_inv. cbn [hp].
    split; [|split; [done|split; [done|]]].
    + eapply refs_ok_kept; [|exact Hr1].
      eapply shapes_kept_set_masked.
      * by destruct Hr1 as (_ & _ & ? & _).
      * by apply length_completed.
    + intros i Hlt.
      change (read1 (write2 ?l ?m ?h) ?k) with (read1 h k).
      do 2 change (readw (write2 ?l ?m ?h) ?k) with (readw h k).
      exact (Hex1 i Hlt).
Qed.

Lemma for_crossings_exit a0 block cs : ∀ processed tdat w,
  exit_inv a0 processed w ->
  Forall (fun c => 0 < c_ti c < 2 ^ 64) cs ->
  StronglySorted (fun c c' => c_ti c < c_ti c') (processed ++ cs) ->
  ∃ rows,
    emitted (snd (for_crossings a0 block cs tdat w)) = emitted w ++ rows ∧
    Forall (fun r => ∃ c0, exit_of (processed ++ cs) r c0) rows.
Proof.
  induction cs as [|c cs IH]; intros processed tdat w Hinv Hpos Hs.
  - exists []. simpl. rewrite app_nil_r. split; [done|apply Forall_nil; done].
  - apply Forall_cons in Hpos as [Hc Hpos].
    assert (Hproc : Forall (fun c0 => c_ti c0 < c_ti c) processed).
    { apply Forall_forall. intros c0 Hc0.
      apply StronglySorted_app in Hs as (Hs & _). apply Hs; [done|by left]. }
    assert (Hrest : Forall (fun c' => c_ti c < c_ti c') cs).
    { apply StronglySorted_app in Hs as (_ & _ & Hs).
      apply StronglySorted_inv in Hs as [_ Hs]. exact Hs. }
    destruct (crossing_event_exit a0 block c processed tdat w Hinv)
      as (r1 & E1 & F1 & I1); [lia|lia|done|].
    assert (F1' : Forall (fun r => ∃ c0, exit_of (processed ++ c :: cs) r c0) r1).
    { eapply Forall_impl; [exact F1|]. intros r (Ht & c0 & Hc0).
      exists c0. change (processed ++ c :: cs) with (processed ++ [c] ++ cs).
      rewrite app_assoc. apply exit_of_extend; [done|]. by rewrite Ht. }
    cbn [for_crossings]. unfold bind.
    destruct (crossing_event a0 block c tdat w) as [[t1|e] w1];
      cbn [fst snd is_ok] in *; [|by exists r1].
    destruct (IH (processed ++ [c]) t1 w1 (I1 eq_refl) Hpos) as (r2 & E2 & F2).
    { by rewrite <- app_assoc. }
    exists (r1 ++ r2). rewrite E2, E1, app_assoc. split; [done|].
    apply Forall_app. split; [done|].
    eapply Forall_impl; [exact F2|]. intros r (c0 & Hc0).
    exists c0. by rewrite <- app_assoc in Hc0.
Qed.

Lemma exit_inv_cleared w : exit_inv (self (cleared w)) [] (cleared w).
Proof.
  pose proof (live_arrays_cleared w) as L. unfold live_arrays in L.
  pose proof (f_equal (fun t => snd (fst (fst (fst t)))) L) as L2.
  cbn [fst snd] in L2. clear L.
  split; [apply refs_ok_cleared|]. split; [unfold cleared; simpl; lia|].
  split; [unfold cleared; simpl; lia|].
  intros i Hi. rewrite L2. unfold zeros1.
  change (n_bins (self (cleared w))) with (n_bins (self w)) in *.
  rewrite lookup_total_replicate_2 by done.
  split; [done|]. split; [|done].
  intros c' Hc'. by apply elem_of_nil in Hc'.
Qed.

(** Where in the samples a crossing of the scan was detected, and what it
    carries. *)
Lemma scan_samples t b p assignments weights bin_pops c :
  c ∈ scan t b p assignments weights bin_pops ->
  ∃ j, (b :: assignments) !! j = Some (c_ibin c) ∧
       (b :: assignments) !! S j = Some (c_fbin c) ∧
       c_ibin c ≠ c_fbin c ∧ c_ti c = t + Z.of_nat j ∧
       weights !! j = Some (c_weight c) ∧
       (p :: bin_pops) !! j = Some (c_ibinpops c).
Proof.
  revert t b p weights bin_pops.
  induction assignments as [|a l IH]; intros t b p [|w ws] [|p' ps] Hc;
    try (by apply elem_of_nil in Hc).
  cbn [scan] in Hc.
  assert (Hrec : c ∈ scan (t + 1) a p' l ws ps ->
                 ∃ j, (b :: a :: l) !! j = Some (c_ibin c) ∧
                      (b :: a :: l) !! S j = Some (c_fbin c) ∧
                      c_ibin c ≠ c_fbin c ∧ c_ti c = t + Z.of_nat j ∧
                      (w :: ws) !! j = Some (c_weight c) ∧
                      (p :: p' :: ps) !! j = Some (c_ibinpops c)).
  { intros H. destruct (IH _ _ _ _ _ H) as (j & H1 & H2 & H3 & H4 & H5 & H6).
    exists (S j). repeat split; try done. lia. }
  destruct (a =? b)%nat eqn:Eab; [by apply Hrec|].
  apply elem_of_cons in Hc as [->|Hc]; [|by apply Hrec].
  exists 0%nat. simpl. apply Nat.eqb_neq in Eab.
  repeat split; try done; (congruence || lia).
Qed.

(** Every change of bin between consecutive samples is a crossing of the
    scan, at the time of the second sample. *)
Lemma scan_elem_at t b p assignments weights bin_pops j x y :
  length weights = length assignments -> length bin_pops = length assignments ->
  (b :: assignments) !! j = Some x -> (b :: assignments) !! S j = Some y ->
  x ≠ y ->
  ∃ c, c ∈ scan t b p assignments weights bin_pops ∧ c_ibin c = x ∧
       c_ti c = t + Z.of_nat j.
Proof.
  revert t b p weights bin_pops j.
  induction assignments as [|a l IH]; intros t b p [|w ws] [|p' ps] j Hw Hp Hx Hy Hne;
    try done.
  simpl in Hw, Hp. cbn [scan]. destruct j as [|j].
  - simpl in Hx, Hy. simplify_eq.
    rewrite (proj2 (Nat.eqb_neq y x)) by congruence.
    eexists. split; [by left|]. simpl. split; [done|lia].
  - destruct (IH (t + 1) a p' ws ps j) as (c & Hc & H1 & H2);
      [lia|lia|done|done|done|].
    exists c. split; [|split; [done|lia]].
    destruct (a =? b)%nat; [done|by right].
Qed.

(** Sample [j] of the assignments is in bin [i] and sample [j + 1] is not. *)
Definition leaves (assignments : list nat) (i : nat) (j : nat) : Prop :=
  assignments !! j = Some i ∧
  ∃ y, assignments !! S j = Some y ∧ y ≠ i.

(** X15.  What a record says about the last exit from its initial bin: for every
    record appended by a [start_accumulation] call (whether it returns or
    raises) there is a sample [j] at which the segment leaves the record's
    initial bin, with [j + 1] not later than the record's timepoint, and
    [j] is the last such sample up to the timepoint; the record's
    [duration] is its timepoint minus [j], its [initial_weight] is the
    weight at sample [j + 1], and its [initial_bin_pop] is the population
    of the initial bin at sample [j]. *)
Theorem X15_last_exit_data a ws ps block w :
  length ws = length a -> length ps = length a ->
  Z.of_nat (length a) < 2 ^ 64 ->
  ∃ rows,
    emitted (snd (start_accumulation a ws ps block w)) = emitted w ++ rows ∧
    Forall (fun r => ∃ j p,
              leaves a (td_initial_bin r) j ∧
              Z.of_nat (S j) <= td_timepoint r ∧
              (∀ j', leaves a (td_initial_bin r) j' ->
                     Z.of_nat (S j') <= td_timepoint r -> (j' <= j)%nat) ∧
              td_duration r = td_timepoint r - Z.of_nat j ∧
              ws !! S j = Some (td_initial_weight r) ∧
              ps !! j = Some p ∧
              p !! td_initial_bin r = Some (td_initial_bin_pop r)) rows.
Proof.
  intros Hw Hp Hlen. rewrite start_accumulation_eq.
  destruct (accumulate_transitions_emitted (arange 0 (length a)) a ws ps block
              (cleared w)) as (cs & Hcs & ->).
  assert (Hnil : ∃ rows : list tdat_row,
            emitted (cleared w) = emitted w ++ rows ∧
            Forall (fun r => ∃ j p,
              leaves a (td_initial_bin r) j ∧
              Z.of_nat (S j) <= td_timepoint r ∧
              (∀ j', leaves a (td_initial_bin r) j' ->
                     Z.of_nat (S j') <= td_timepoint r -> (j' <= j)%nat) ∧
              td_duration r = td_timepoint r - Z.of_nat j ∧
              ws !! S j = Some (td_initial_weight r) ∧
              ps !! j = Some p ∧
              p !! td_initial_bin r = Some (td_initial_bin_pop r)) rows).
  { exists []. split; [by rewrite app_nil_r|by apply Forall_nil]. }
  destruct Hcs as [->| ->]; [exact Hnil|].
  destruct a as [|b l]; [exact Hnil|].
  destruct ws as [|w0 ws]; [done|]. destruct ps as [|p ps]; [done|].
  cbn [length] in *.
  pose proof (crossings_of_sorted 0 (S (length l)) (b :: l) (w0 :: ws) (p :: ps)) as Hs.
  pose proof (λ c, crossings_of_elem (arange 0 (S (length l))) (b :: l)
                     (w0 :: ws) (p :: ps) c) as Hel.
  rewrite crossings_of_scan in * by lia.
  destruct (for_crossings_exit (self (cleared w)) block
              (scan (0 + 1) b p l ws ps) [] [] (cleared w)
              (exit_inv_cleared w)) as (rows & E & F).
  { apply Forall_forall. intros c Hc.
    destruct (scan_samples _ _ _ _ _ _ _ Hc) as (j & H1 & _ & _ & -> & _).
    apply lookup_lt_Some in H1. cbn [length] in H1. lia. }
  { exact Hs. }
  exists rows. split; [exact E|].
  eapply Forall_impl; [exact F|]. intros r (c0 & Hc0 & Hib & Ht & Hmax & Hd & Hwt & Hbp).
  rewrite app_nil_l in Hc0, Hmax.
  destruct (scan_samples _ _ _ _ _ _ _ Hc0) as (j & H1 & H2 & H3 & H4 & H5 & H6).
  exists j, (c_ibinpops c0). rewrite <- Hib.
  split; [split; [done|]; exists (c_fbin c0); split; [done|congruence]|].
  split; [lia|]. split; [|split; [lia|split; [by rewrite Hwt|by rewrite Hib]]].
  intros j' (Hj1 & y' & Hj2 & Hy') Hj'.
  destruct (scan_elem_at (0 + 1) b p l ws ps j' (c_ibin c0) y')
    as (c' & Hc' & Hci & Hct); [lia|lia|done|done|congruence|].
  specialize (Hmax c' Hc'). rewrite Hib in Hci. specialize (Hmax Hci). lia.
Qed.

Lemma X15_last_exit_data_witness :
  ∃ rows,
    emitted (snd (start_accumulation scenario_assignments scenario_weights
                    scenario_bin_pops 0 (fresh3 true)))
    = emitted (fresh3 true) ++ rows ∧
    Forall (fun r => ∃ j p,
              leaves scenario_assignments (td_initial_bin r) j ∧
              Z.of_nat (S j) <= td_timepoint r ∧
              (∀ j', leaves scenario_assignments (td_initial_bin r) j' ->
                     Z.of_nat (S j') <= td_timepoint r -> (j' <= j)%nat) ∧
              td_duration r = td_timepoint r - Z.of_nat j ∧
              scenario_weights !! S j = Some (td_initial_weight r) ∧
              scenario_bin_pops !! j = Some p ∧
              p !! td_initial_bin r = Some (td_initial_bin_pop r)) rows.
Proof.
  apply X15_last_exit_data; [reflexivity|reflexivity|vm_compute; reflexivity].
Defined.

(** * The records appended against the record type *)

Lemma wrap64_range z : 0 <= wrap64 z < 2 ^ 64.
Proof. unfold wrap64. apply Z.mod_pos_bound. lia. Qed.

(** The fields of a record that the loop computes itself. *)
Definition computed_fields (a0 : accumulator) (r : tdat_row) : Prop :=
  (td_final_bin r < n_bins a0)%nat ∧
  0 <= td_duration r < 2 ^ 64 ∧ 0 <= td_fpt r < 2 ^ 64.

Lemma completed_rows_computed a0 block c h col :
  refs_ok a0 h -> length col = n_bins a0 -> (c_fbin c < n_bins a0)%nat ->
  Forall (computed_fields a0) (completed_rows a0 block c h col).
Proof.
  intros Hr Hlen Hf. apply Forall_forall. intros r Hin.
  apply elem_of_completed_rows in Hin as (i & Hmask & ->); [|done..].
  apply completed_lookup in Hmask as (Hlt & _ & _); [|done..].
  assert (Hn : length (read1 h (last_exit a0)) = n_bins a0).
  { destruct Hr as (H1 & _). by apply shaped1_read in H1. }
  unfold computed_fields, tdat_tuple. cbn [td_final_bin td_duration td_fpt].
  split; [done|]. split.
  - unfold durations_of.
    rewrite (list_lookup_total_fmap _ (read1 h (last_exit a0)) i) by lia.
    apply wrap64_range.
  - destruct (calc_fpts a0); [|lia]. unfold fpts_of.
    rewrite (list_lookup_total_fmap _ col i) by lia.
    destruct (_ =? 0); [lia|apply wrap64_range].
Qed.

Lemma crossing_event_computed a0 block c tdat w :
  refs_ok a0 (hp w) ->
  ∃ rows,
    emitted (snd (crossing_event a0 block c tdat w)) = emitted w ++ rows ∧
    Forall (computed_fields a0) rows ∧
    refs_ok a0 (hp (snd (crossing_event a0 block c tdat w))).
Proof.
  intros Hr.
  assert (Hkept := refs_ok_kept _ _ _ (crossing_event_shapes_kept a0 block c tdat w Hr) Hr).
  destruct (crossing_event_cases a0 block c tdat w)
    as [(e & w1 & E & _ & He & _)|(w1 & col & a' & E1 & Hcol & E & N)];
    rewrite E in *; cbn [fst snd] in *.
  { exists []. rewrite app_nil_r. split; [done|]. split; [by apply Forall_nil|done]. }
  destruct (record_crossing_inv a0 c w w1 Hr E1) as (v & Hv & Hi & Hf & ->).
  cbn [hp self emitted completed_world] in *.
  set (h1 := crossed a0 c v (hp w)) in *.
  assert (K : shapes_kept (hp w) h1).
  { destruct (heap_only_record_crossing a0 c) as [Hfoot _].
    destruct (Hfoot w) as (_ & _ & K). by rewrite E1 in K. }
  assert (Hr1 := refs_ok_kept _ _ _ K Hr).
  destruct (complete_transitions_ok a0 block c tdat
              (World h1 (self w) (emitted w)) Hr1 Hf)
    as (col' & Hcol' & Hlen & _ & _).
  cbn [hp] in Hcol'. rewrite Hcol in Hcol'. injection Hcol' as <-.
  eexists. split; [reflexivity|]. split; [|done].
  by apply completed_rows_computed.
Qed.

Lemma for_crossings_computed a0 block cs : ∀ tdat w,
  refs_ok a0 (hp w) ->
  ∃ rows,
    emitted (snd (for_crossings a0 block cs tdat w)) = emitted w ++ rows ∧
    Forall (computed_fields a0) rows.
Proof.
  induction cs as [|c cs IH]; intros tdat w Hr.
  - exists []. simpl. rewrite app_nil_r. split; [done|by apply Forall_nil].
  - destruct (crossing_event_computed a0 block c tdat w Hr) as (r1 & E1 & F1 & Hr1).
    cbn [for_crossings]. unfold bind.
    destruct (crossing_event a0 block c tdat w) as [[t1|e] w1];
      cbn [fst snd] in *; [|by exists r1].
    destruct (IH t1 w1 Hr1) as (r2 & E2 & F2).
    exists (r1 ++ r2). rewrite E2, E1, app_assoc. split; [done|].
    by apply Forall_app.
Qed.

Lemma accumulate_transitions_computed timepoints assignments weights bin_pops block w :
  refs_ok (self w) (hp w) ->
  ∃ rows,
    emitted (snd (_accumulate_transitions timepoints assignments weights
                    bin_pops block w)) = emitted w ++ rows ∧
    Forall (computed_fields (self w)) rows.
Proof.
  intros Hr.
  destruct (accumulate_transitions_emitted timepoints assignments weights
              bin_pops block w) as (cs & _ & ->).
  by apply for_crossings_computed.
Qed.

(** The block a call passes on. *)
Definition block_of (c : call) : Z :=
  match c with
  | Start _ _ _ b | Continue _ _ _ b => b
  | _ => 0
  end.

(** Along a session: the cursor and the cursors of the snapshots lie in
    [0, B], and the records appended are in the range of the record
    type. *)
Definition dtype_session (n : nat) (B : Z) (s : session) : Prop :=
  0 <= timepoint (self (now s)) <= B ∧
  Forall (fun sd => 0 <= sd_timepoint sd <= B) (snapshots s) ∧
  Forall (fits_tdat_dtype n) (emitted (now s)).

Lemma fits_of_fields acc block lo hi a ws r :
  0 <= block < 2 ^ 64 -> 0 <= lo -> hi < 2 ^ 64 ->
  record_of_call acc block lo hi a ws r -> computed_fields acc r ->
  fits_tdat_dtype (n_bins acc) r.
Proof.
  intros Hb Hlo Hhi (R1 & R2 & _ & _ & R5 & _) (F1 & F2 & F3).
  unfold fits_tdat_dtype. rewrite R1. lia.
Qed.

Lemma do_call_dtype n B c s :
  session_inv n s -> dtype_session n B s ->
  is_ok (fst (do_call c s)) = true ->
  0 <= block_of c < 2 ^ 64 -> B + Z.of_nat (samples_of c) < 2 ^ 64 ->
  dtype_session n (B + Z.of_nat (samples_of c)) (snd (do_call c s)).
Proof.
  intros (Hn & [Hr _] & _) (Htp & Hsn & Hem) Hret Hblock Hbound.
  assert (Hsn' : Forall (fun sd => 0 <= sd_timepoint sd <= B + Z.of_nat (samples_of c))
                   (snapshots s)).
  { eapply Forall_impl; [exact Hsn|]. simpl. intros sd ?. lia. }
  destruct c as [a ws ps b|a ws ps b| | | |k|]; cbn [samples_of block_of] in *.
  - destruct (do_call_start_ok _ _ _ _ _ Hret) as (w' & E & ->).
    cbn [now snapshots].
    destruct (start_accumulation_fields a ws ps b (now s)) as (rows & Er & Fr).
    rewrite E in Er. cbn [snd] in Er.
    rewrite start_accumulation_eq in E.
    destruct (accumulate_transitions_computed (arange 0 (length a)) a ws ps b
                (cleared (now s)) (refs_ok_cleared (now s))) as (rows' & Er' & Fr').
    rewrite E in Er'. cbn [snd] in Er'.
    change (emitted (cleared (now s))) with (emitted (now s)) in Er'.
    rewrite Er in Er'. apply app_inv_head in Er' as <-.
    destruct (accumulate_transitions_inv _ _ _ _ _ _ _ E)
      as (_ & _ & _ & tdat & w1 & a2 & tp & lb & lastpops & lbp & _ & _ & Htp' & _ & _ & _ & ->).
    unfold dtype_session.
    cbn [now snapshots self emitted timepoint set_last_bin_pop set_last_bin
         set_timepoint].
    split; [|split; [done|]].
    + destruct (length a) as [|k]; [discriminate|].
      rewrite last_arange in Htp'. injection Htp' as <-. lia.
    + cbn [emitted] in Er. rewrite Er. apply Forall_app. split; [done|].
      apply Forall_forall. intros r Hin. rewrite Forall_forall in Fr, Fr'.
      rewrite <- Hn.
      apply (fits_of_fields (self (now s)) b 0 (Z.of_nat (length a) - 1)
               (from_1 a) (from_1 ws)); [done|lia|lia|by apply Fr|].
      by apply (Fr' r Hin).
  - destruct (do_call_continue_ok _ _ _ _ _ Hret) as (w' & E & ->).
    cbn [now snapshots].
    destruct (continue_accumulation_fields a ws ps b (now s)) as (rows & Er & Fr).
    rewrite E in Er. cbn [snd] in Er.
    destruct (continue_accumulation_inv _ _ _ _ _ _ E) as (lb0 & row0 & H1 & H2 & H3).
    rewrite (continue_accumulation_eq _ _ _ _ _ _ _ H1 H2 H3) in E.
    destruct (accumulate_transitions_computed
                (arange (timepoint (self (now s))) (S (length a))) (lb0 :: a)
                (0%float :: ws)
                (<[lb0 := default nan (last_bin_pop (self (now s)))]>
                   (zerosw (length row0)) :: ps) b (now s) Hr) as (rows' & Er' & Fr').
    rewrite E in Er'. cbn [snd] in Er'.
    rewrite Er in Er'. apply app_inv_head in Er' as <-.
    destruct (accumulate_transitions_inv _ _ _ _ _ _ _ E)
      as (_ & _ & _ & tdat & w1 & a2 & tp & lb & lastpops & lbp & _ & _ & Htp' & _ & _ & _ & ->).
    unfold dtype_session.
    cbn [now snapshots self emitted timepoint set_last_bin_pop set_last_bin
         set_timepoint].
    split; [|split; [done|]].
    + rewrite last_arange in Htp'. injection Htp' as <-. lia.
    + cbn [emitted] in Er. rewrite Er. apply Forall_app. split; [done|].
      apply Forall_forall. intros r Hin. rewrite Forall_forall in Fr, Fr'.
      rewrite <- Hn.
      apply (fits_of_fields (self (now s)) b (timepoint (self (now s)))
               (timepoint (self (now s)) + Z.of_nat (length a)) a ws);
        [done|lia|lia|by apply Fr|].
      by apply (Fr' r Hin).
  - destruct s as [w snaps]. unfold do_call. cbn [now snapshots] in *.
    rewrite clear_state_eq. unfold dtype_session. cbn [snd now snapshots].
    split; [|split; [done|exact Hem]].
    unfold cleared. cbn [self timepoint]. lia.
  - destruct s as [w snaps]. unfold do_call. cbn [now snapshots] in *.
    rewrite clear_eq. unfold dtype_session. cbn [snd now snapshots self hp emitted].
    split; [|split; [done|by apply Forall_nil]].
    unfold cleared. simpl. lia.
  - destruct s as [w snaps]. unfold do_call. cbn [now snapshots] in *.
    rewrite get_state_eq. unfold dtype_session. cbn [snd now snapshots self emitted].
    split; [lia|]. split; [|exact Hem].
    apply Forall_app. split; [done|].
    apply Forall_cons. split; [|by apply Forall_nil].
    destruct w as [h a em]. unfold snapshot. simpl. simpl in Htp. lia.
  - destruct s as [w snaps]. unfold do_call. cbn [now snapshots] in *.
    destruct (snaps !! k) as [sd|] eqn:Ek.
    + rewrite set_state_eq. unfold dtype_session. cbn [snd now snapshots self emitted].
      split; [|split; [done|exact Hem]].
      rewrite Forall_lookup in Hsn'. specialize (Hsn' _ _ Ek).
      simpl. exact Hsn'.
    + unfold dtype_session. cbn [snd now snapshots]. split; [lia|done].
  - destruct s as [w snaps]. unfold do_call. cbn [now snapshots] in *.
    destruct (flush_transition_data_ok w) as (a' & -> & N & _).
    unfold dtype_session. cbn [snd now snapshots self emitted].
    split; [|split; [done|exact Hem]].
    assert (Ht : timepoint a' = timepoint (self w)).
    { unfold non_io in N. by injection N. }
    rewrite Ht. lia.
Qed.

Lemma run_dtype n cs : ∀ B s,
  session_inv n s -> dtype_session n B s ->
  all_return cs s = true ->
  Forall (fun c => 0 <= block_of c < 2 ^ 64) cs ->
  B + Z.of_nat (samples cs) < 2 ^ 64 ->
  dtype_session n (B + Z.of_nat (samples cs)) (run cs s).
Proof.
  induction cs as [|c cs IH]; intros B s Hs Hd Hok Hblocks Hb.
  - simpl. by rewrite Z.add_0_r.
  - cbn [all_return] in Hok. apply andb_true_iff in Hok as [Hok1 Hok2].
    apply Forall_cons in Hblocks as [Hb1 Hblocks].
    cbn [samples] in *. rewrite Nat2Z.inj_add in *.
    cbn [run]. rewrite Z.add_assoc. apply IH; [|  |done|done|lia].
    + by apply do_call_session_inv.
    + apply do_call_dtype; [done|done|done|done|lia].
Qed.

Lemma dtype_session_new n fpts cap : dtype_session n 0 (new_session n fpts cap).
Proof.
  unfold new_session, init. rewrite clear_eq.
  unfold dtype_session. cbn [snd now snapshots self hp emitted].
  split; [unfold cleared; simpl; lia|]. split; by apply Forall_nil.
Qed.

(** X4.  When every call returns, no call can fill a tenth of the buffer
    ([10 * n_bins * len(assignments) <= tdat_buffersize] for each
    accumulation call), every block passed is an unsigned 64-bit number
    and fewer than [2^64] samples are fed in all, the dataset mirrors the
    records appended: every record appended is in the range of the record
    type, and after a final [flush_transition_data] the written part of
    the dataset holds exactly the records appended since construction or
    the last [clear()], in order, each once, and the buffer is empty. *)
Theorem X4_store_mirrors_records n fpts cap cs :
  0 <= cap ->
  all_return cs (new_session n fpts cap) = true ->
  Forall (fun c => 10 * Z.of_nat (n * samples_of c) <= cap) cs ->
  Forall (fun c => 0 <= block_of c < 2 ^ 64) cs ->
  Z.of_nat (samples cs) < 2 ^ 64 ->
  let w := now (run (cs ++ [Flush]) (new_session n fpts cap)) in
  written w = Some <$> emitted w ∧ Forall (fits_tdat_dtype n) (emitted w) ∧
  tdat_buffer (self w) = [].
Proof.
  intros Hcap Hret Hcalm Hblocks Hsamples w. subst w.
  destruct (store_ok_new_session n fpts cap Hcap) as [_ B0].
  pose proof (run_mirrored n cap cs (new_session n fpts cap)
                (session_inv_new n fpts cap) B0
                (mirrored_new_session n fpts cap Hcap) Hret Hcalm) as [Hok Ha].
  pose proof (run_dtype n cs 0 (new_session n fpts cap)
                (session_inv_new n fpts cap) (dtype_session_new n fpts cap)
                Hret Hblocks ltac:(lia)) as (_ & _ & Hfit).
  rewrite run_app. cbn [run].
  destruct (run cs (new_session n fpts cap)) as [w snaps].
  unfold do_call. cbn [now snapshots] in *.
  destruct (flush_transition_data_spec w Hok) as (a' & -> & _ & _ & B & _ & W).
  cbn [snd now emitted self]. split; [by rewrite W|]. split; [exact Hfit|exact B].
Qed.

Lemma X4_store_mirrors_records_witness :
  let w := now (run (branching_calls ++ [Flush]) (new_session 3 true 524288)) in
  written w = Some <$> emitted w ∧ Forall (fits_tdat_dtype 3) (emitted w) ∧
  tdat_buffer (self w) = [].
Proof.
  apply X4_store_mirrors_records.
  - lia.
  - vm_compute. reflexivity.
  - unfold branching_calls. repeat (apply Forall_cons; split; [vm_compute; discriminate|]).
    apply Forall_nil. done.
  - unfold branching_calls. repeat (apply Forall_cons; split; [simpl; lia|]).
    apply Forall_nil. done.
  - vm_compute. reflexivity.
Defined.
